(** * PrivateSend mixing server: a shallow embedding of
      [src/privatesend/privatesend-server.cpp] and [src/privatesend.h]

    The server object, the process-wide tables it touches and the messages
    it sends are threaded through a small state monad.  Everything the
    server calls but does not define (mempool, script interpreter, peer
    table, random numbers, clock, masternode registry) is a field of an
    environment record [Env]. *)

From Stdlib Require Import ZArith List Bool Lia.
From stdpp Require Import base option list sorting gmap.

Local Open Scope Z_scope.

(** ** Primitive data *)

(** [uint256] values are read as unsigned integers; scripts and signatures
    are byte vectors, one integer in [0, 255] per byte. *)
Definition uint256 := Z.
Definition CScript := list Z.
Definition CAmount := Z.
Definition CService := Z.

Record COutPoint := mkOutPoint { op_hash : uint256; op_n : Z }.

Record CTxIn := mkTxIn {
  prevout : COutPoint;
  scriptSig : CScript;
  nSequence : Z
}.

Record CTxOut := mkTxOut { nValue : CAmount; scriptPubKey : CScript }.

(** [CMutableTransaction] and [CTransaction] carry the same inputs and
    outputs; a [CTransaction] is the frozen copy. *)
Record CMutableTransaction := mkTx { vin : list CTxIn; vout : list CTxOut }.
Definition CTransaction := CMutableTransaction.

#[global] Instance COutPoint_eq_dec : EqDecision COutPoint.
Proof. solve_decision. Defined.
#[global] Instance CTxIn_eq_dec : EqDecision CTxIn.
Proof. solve_decision. Defined.
#[global] Instance CTxOut_eq_dec : EqDecision CTxOut.
Proof. solve_decision. Defined.
#[global] Instance CMutableTransaction_eq_dec : EqDecision CMutableTransaction.
Proof. solve_decision. Defined.

(** ** privatesend.h *)

Definition PRIVATESEND_QUEUE_TIMEOUT : Z := 30.
Definition PRIVATESEND_SIGNING_TIMEOUT : Z := 15.
Definition MIN_PRIVATESEND_PEER_PROTO_VERSION : Z := 70206.
Definition PRIVATESEND_ENTRY_MAX_SIZE : Z := 9.

Inductive PoolMessage :=
| ERR_ALREADY_HAVE | ERR_DENOM | ERR_ENTRIES_FULL | ERR_EXISTING_TX | ERR_FEES
| ERR_INVALID_COLLATERAL | ERR_INVALID_INPUT | ERR_INVALID_SCRIPT
| ERR_INVALID_TX | ERR_MAXIMUM | ERR_MN_LIST | ERR_MODE
| ERR_NON_STANDARD_PUBKEY | ERR_NOT_A_MN | ERR_QUEUE_FULL | ERR_RECENT
| ERR_SESSION | ERR_MISSING_TX | ERR_VERSION
| MSG_NOERR | MSG_SUCCESS | MSG_ENTRIES_ADDED.

Inductive PoolState :=
| POOL_STATE_IDLE | POOL_STATE_QUEUE | POOL_STATE_ACCEPTING_ENTRIES
| POOL_STATE_SIGNING | POOL_STATE_ERROR | POOL_STATE_SUCCESS.

Inductive PoolStatusUpdate := STATUS_REJECTED | STATUS_ACCEPTED.

#[global] Instance PoolMessage_eq_dec : EqDecision PoolMessage.
Proof. solve_decision. Defined.
#[global] Instance PoolState_eq_dec : EqDecision PoolState.
Proof. solve_decision. Defined.
#[global] Instance PoolStatusUpdate_eq_dec : EqDecision PoolStatusUpdate.
Proof. solve_decision. Defined.

(** A mixing input: a [CTxIn] plus the memory-only fields the server reads
    ([prevPubKey], [fHasSig]). *)
Record CTxDSIn := mkTxDSIn {
  dsin_txin : CTxIn;
  prevPubKey : CScript;
  fHasSig : bool;
  nSentTimes : Z
}.

(** A client's contribution to the pool. *)
Record CPrivateSendEntry := mkEntry {
  vecTxDSIn : list CTxDSIn;
  vecTxOut : list CTxOut;
  txCollateral : CTransaction;
  addr : CService
}.

Record CPrivateSendQueue := mkQueue {
  nDenom : Z;
  masternodeOutpoint : COutPoint;
  nTime : Z;
  fReady : bool;
  vchSig : list Z
}.

(** [operator==] on queues ignores the signature. *)
Definition queue_eqb (a b : CPrivateSendQueue) : bool :=
  bool_decide (nDenom a = nDenom b) &&
  bool_decide (masternodeOutpoint a = masternodeOutpoint b) &&
  bool_decide (nTime a = nTime b) &&
  bool_decide (fReady a = fReady b).

(** The value an [int64_t] holds after an arithmetic operation whose
    mathematical result is [z]: the representative of [z] modulo 2^64 in
    [-2^63, 2^63).  (C++ leaves signed overflow undefined; this is what
    the two's complement targets of the program compute.) *)
Definition int64 (z : Z) : Z := (z + 2 ^ 63) `mod` 2 ^ 64 - 2 ^ 63.

(** [CDarksendQueue::IsExpired], with [GetTime()] passed in:
    [return GetTime() - nTime > PRIVATESEND_QUEUE_TIMEOUT;]
    The subtraction is one of [int64_t]; [nTime] comes off the wire. *)
Definition IsExpired (now : Z) (q : CPrivateSendQueue) : bool :=
  int64 (now - nTime q) >? PRIVATESEND_QUEUE_TIMEOUT.

Record CPrivateSendBroadcastTx := mkDSTX {
  dstx_tx : CTransaction;
  dstx_masternodeOutpoint : COutPoint;
  dstx_vchSig : list Z;
  sigTime : Z
}.

Record CPrivateSendAccept := mkAccept {
  dsa_nDenom : Z;
  dsa_txCollateral : CTransaction
}.

Record CPrivateSendStatusUpdate := mkStatusUpdate {
  su_nSessionID : Z;
  su_nState : PoolState;
  su_nEntriesCount : Z;
  su_nStatusUpdate : PoolStatusUpdate;
  su_nMessageID : PoolMessage
}.

(** ** The server object and the process state around it *)

Record CPrivateSendServer := mkServer {
  vecSessionCollaterals : list CTransaction;
  vecPrivateSendQueue : list CPrivateSendQueue;
  vecEntries : list CPrivateSendEntry;
  nState : PoolState;
  nTimeLastSuccessfulStep : Z;
  nSessionID : Z;
  nSessionDenom : Z;
  finalMutableTransaction : CMutableTransaction
}.

(** What the server does to the outside: messages pushed to a peer,
    relays, mempool submissions.  [EvState] records every assignment to
    [nState], [EvConsumeCollateral] every call of [ConsumeCollateral]. *)
Inductive Event :=
| EvReject (to : CService)
| EvStatusUpdate (to : CService) (upd : CPrivateSendStatusUpdate)
| EvFinalTx (to : CService) (id : Z) (tx : CTransaction)
| EvComplete (to : CService) (id : Z) (msg : PoolMessage)
| EvRelayQueue (dsq : CPrivateSendQueue)
| EvRelayInv (hash : uint256)
| EvRelayTransaction (tx : CTransaction)
| EvMisbehaving (node : Z) (howmuch : Z)
| EvConsumeCollateral (tx : CTransaction)
| EvState (st : PoolState).

Record World := mkWorld {
  srv : CPrivateSendServer;
  mapDSTX : gmap Z CPrivateSendBroadcastTx;
  mempool : list CTransaction;
  nDsqCount : Z;
  mapLastDsq : gmap Z Z;
  nRandCalls : nat;
  log : list Event
}.

Record CDeterministicMN := mkDMN {
  proTxHash : uint256;
  pubKeyOperator : Z;
  dmn_addr : CService
}.

Record CNode := mkNode { node_id : Z; node_addr : CService; nVersion : Z }.

(** The collaborators of the server. *)
Record Env := mkEnv {
  fMasternodeMode : bool;
  fLiteMode : bool;
  fUnitTest : bool;
  IsBlockchainSynced : bool;
  ShutdownRequested : bool;
  GetTime : Z;
  GetAdjustedTime : Z;
  activeMasternodeOutpoint : COutPoint;
  GetMaxPoolParticipants : Z;
  GetMinPoolParticipants : Z;
  IsValidDenomination : Z → bool;
  IsCollateralValid : CTransaction → bool;
  (* session denom, inputs, outputs, incoming message id;
     returns (result, nMessageIDRet, fConsumeCollateral) *)
  IsValidInOuts : Z → list CTxIn → list CTxOut → PoolMessage →
                  bool * PoolMessage * bool;
  (* scriptSig, scriptPubKey, transaction of the checker, input index *)
  VerifyScript : CScript → CScript → CMutableTransaction → Z → bool;
  (* current pool content, candidate *)
  AcceptToMemoryPool : list CTransaction → CTransaction → bool;
  GetHash : CTransaction → uint256;
  (* [CConnman::ForNode] finds a connected node with this address *)
  ForNode : CService → bool;
  tryLock_cs_vecqueue : bool;
  tryLock_cs_main : bool;
  GetValidMNByCollateral : COutPoint → option CDeterministicMN;
  GetValidMNsCount : Z;
  (* the n-th raw draw of the random number generator *)
  RandRaw : nat → Z;
  random_shuffle : list CTransaction → list CTransaction;
  SignQueue : CPrivateSendQueue → list Z;
  CheckSignatureQueue : Z → CPrivateSendQueue → bool;
  SignBroadcastTx : CPrivateSendBroadcastTx → list Z
}.

(** Modelled from the spec: [CPrivateSendQueue::IsTimeOutOfBounds], which the
    DSQUEUE handler calls, is outside the sources at hand.  An
    advertisement is out of bounds when its timestamp is more than the
    queue timeout away from the current time, on either side:
    |now - timestamp| > 30.  The current time is the network-adjusted
    clock, the one the server stamps its own advertisements with. *)
Definition IsTimeOutOfBounds (env : Env) (q : CPrivateSendQueue) : bool :=
  Z.abs (GetAdjustedTime env - nTime q) >? PRIVATESEND_QUEUE_TIMEOUT.

Arguments IsTimeOutOfBounds : simpl never.

(** ** State monad over [World] *)

Definition M (A : Type) : Type := World → A * World.

#[global] Instance M_ret : MRet M := λ A a w, (a, w).
#[global] Instance M_bind : MBind M :=
  λ A B k m w, let '(a, w') := m w in k a w'.

Definition exec {A} (m : M A) (w : World) : World := (m w).2.
Definition eval {A} (m : M A) (w : World) : A := (m w).1.

Definition get_srv : M CPrivateSendServer := λ w, (srv w, w).
Definition get_world : M World := λ w, (w, w).

Definition with_srv (s : CPrivateSendServer) (w : World) : World :=
  mkWorld s (mapDSTX w) (mempool w) (nDsqCount w) (mapLastDsq w)
          (nRandCalls w) (log w).

Definition emit (e : Event) : M unit :=
  λ w, (tt, mkWorld (srv w) (mapDSTX w) (mempool w) (nDsqCount w)
                    (mapLastDsq w) (nRandCalls w) (log w ++ [e])).

Definition skip : M unit := mret tt.

(** A transaction accepted by [AcceptToMemoryPool] joins the pool. *)
Definition mempool_add (tx : CTransaction) : M unit :=
  λ w, (tt, mkWorld (srv w) (mapDSTX w) (mempool w ++ [tx]) (nDsqCount w)
                    (mapLastDsq w) (nRandCalls w) (log w)).

(** [for (const auto& x : l) body(x);] *)
Fixpoint for_each {A} (l : list A) (body : A → M unit) : M unit :=
  match l with
  | [] => skip
  | x :: l' => body x ;; for_each l' body
  end.

(** ** Library functions the server relies on *)

(** [std::sort(first, last, comp)]: the standard fixes the result up to the
    order of equivalent elements; a merge sort is one such result.  The
    sorted output never places [b] before [a] when [comp a b]. *)
Definition not_after {A} (comp : A → A → bool) : relation A :=
  λ a b, comp b a = false.

#[global] Instance not_after_dec {A} (comp : A → A → bool) a b :
  Decision (not_after comp a b).
Proof. unfold not_after. apply _. Defined.

Definition std_sort {A} (comp : A → A → bool) (l : list A) : list A :=
  merge_sort (not_after comp) l.

(** [operator<] of byte vectors: lexicographic. *)
Fixpoint script_ltb (a b : CScript) : bool :=
  match a, b with
  | _, [] => false
  | [], _ :: _ => true
  | x :: a', y :: b' => (x <? y) || ((x =? y) && script_ltb a' b')
  end.

(** Modelled from the spec: [CompareInputBIP69], declared outside the
    sources at hand, orders inputs lexicographically on
    (prev_hash, prev_index). *)
Definition CompareInputBIP69 (a b : CTxIn) : bool :=
  (op_hash (prevout a) <? op_hash (prevout b)) ||
  ((op_hash (prevout a) =? op_hash (prevout b)) &&
   (op_n (prevout a) <? op_n (prevout b))).

(** Modelled from the spec: [CompareOutputBIP69], declared outside the
    sources at hand, orders outputs lexicographically on (amount, script). *)
Definition CompareOutputBIP69 (a b : CTxOut) : bool :=
  (nValue a <? nValue b) ||
  ((nValue a =? nValue b) && script_ltb (scriptPubKey a) (scriptPubKey b)).

(** Modelled from the spec: [CPrivateSend::GetDSTX] is only declared in
    the sources at hand.  A process-wide index maps a transaction hash to
    its record. *)
Definition GetDSTX (hash : uint256) : M (option CPrivateSendBroadcastTx) :=
  λ w, (mapDSTX w !! hash, w).

(** Modelled from the spec: [CPrivateSend::AddDSTX], only declared in the
    sources at hand, deduplicates by hash: a hash already filed keeps its
    record. *)
Definition AddDSTX (hash : uint256) (dstx : CPrivateSendBroadcastTx) : M unit :=
  λ w, (tt, mkWorld (srv w)
                    (match mapDSTX w !! hash with
                     | Some _ => mapDSTX w
                     | None => <[hash := dstx]> (mapDSTX w)
                     end)
                    (mempool w) (nDsqCount w) (mapLastDsq w)
                    (nRandCalls w) (log w)).

(** An input takes the script of [txin] and is marked as signed. *)
Definition sign_input (txin : CTxIn) (d : CTxDSIn) : CTxDSIn :=
  mkTxDSIn (mkTxIn (prevout (dsin_txin d)) (scriptSig txin)
                   (nSequence (dsin_txin d)))
           (prevPubKey d) true (nSentTimes d).

(** Same outpoint and same sequence number. *)
Definition matches_input (txin : CTxIn) (x : CTxIn) : bool :=
  bool_decide (prevout x = prevout txin) &&
  bool_decide (nSequence x = nSequence txin).

(** Modelled from the spec: the search of [CPrivateSendEntry::AddScriptSig]
    through the inputs of the entry.  The first input with matching
    outpoint and sequence decides: it is signed, or, if it already is,
    the call fails; with no match the call fails. *)
Fixpoint sign_first (txin : CTxIn) (l : list CTxDSIn) : option (list CTxDSIn) :=
  match l with
  | [] => None
  | d :: l' =>
      if matches_input txin (dsin_txin d)
      then (if fHasSig d then None else Some (sign_input txin d :: l'))
      else cons d <$> sign_first txin l'
  end.

(** Modelled from the spec: [CPrivateSendEntry::AddScriptSig] is only
    declared in the sources at hand.  It finds an input with matching
    outpoint and sequence, sets its script and returns true; it returns
    false if that input is already signed or if nothing matches.  [None]
    stands for false, [Some] for true with the entry as changed. *)
Definition Entry_AddScriptSig (txin : CTxIn) (e : CPrivateSendEntry)
  : option CPrivateSendEntry :=
  (λ ins, mkEntry ins (vecTxOut e) (txCollateral e) (addr e))
    <$> sign_first txin (vecTxDSIn e).

(** ** Field updates of the server object *)

Definition with_collaterals (c : list CTransaction) (s : CPrivateSendServer) :=
  mkServer c (vecPrivateSendQueue s) (vecEntries s) (nState s)
           (nTimeLastSuccessfulStep s) (nSessionID s) (nSessionDenom s)
           (finalMutableTransaction s).

Definition with_queue (q : list CPrivateSendQueue) (s : CPrivateSendServer) :=
  mkServer (vecSessionCollaterals s) q (vecEntries s) (nState s)
           (nTimeLastSuccessfulStep s) (nSessionID s) (nSessionDenom s)
           (finalMutableTransaction s).

Definition with_entries (e : list CPrivateSendEntry) (s : CPrivateSendServer) :=
  mkServer (vecSessionCollaterals s) (vecPrivateSendQueue s) e (nState s)
           (nTimeLastSuccessfulStep s) (nSessionID s) (nSessionDenom s)
           (finalMutableTransaction s).

Definition with_state (st : PoolState) (t : Z) (s : CPrivateSendServer) :=
  mkServer (vecSessionCollaterals s) (vecPrivateSendQueue s) (vecEntries s) st
           t (nSessionID s) (nSessionDenom s) (finalMutableTransaction s).

Definition with_session (id denom : Z) (s : CPrivateSendServer) :=
  mkServer (vecSessionCollaterals s) (vecPrivateSendQueue s) (vecEntries s)
           (nState s) (nTimeLastSuccessfulStep s) id denom
           (finalMutableTransaction s).

Definition with_final (tx : CMutableTransaction) (s : CPrivateSendServer) :=
  mkServer (vecSessionCollaterals s) (vecPrivateSendQueue s) (vecEntries s)
           (nState s) (nTimeLastSuccessfulStep s) (nSessionID s)
           (nSessionDenom s) tx.

Definition modify_srv (f : CPrivateSendServer → CPrivateSendServer) : M unit :=
  λ w, (tt, with_srv (f (srv w)) w).

(** The payload of the four commands the server handles. *)
Inductive Message :=
| DSACCEPT (dsa : CPrivateSendAccept)
| DSQUEUE (dsq : CPrivateSendQueue)
| DSVIN (entry : CPrivateSendEntry)
| DSSIGNFINALTX (vecTxIn : list CTxIn)
| OtherCommand.

(** ** privatesend-server.cpp *)

Section Server.
Variable env : Env.

(** [GetRandInt(nMax)]: a value in [0, nMax), taken from the next raw
    draw. *)
Definition GetRandInt (nMax : Z) : M Z :=
  λ w, (RandRaw env (nRandCalls w) `mod` nMax,
        mkWorld (srv w) (mapDSTX w) (mempool w) (nDsqCount w)
                (mapLastDsq w) (S (nRandCalls w)) (log w)).

(** Modelled from the spec: [CPrivateSendBaseSession::SetNull] is outside
    the sources at hand.  A reset puts the session in the null idle state:
    state Idle, id 0, no denomination, no entries, no final transaction;
    the step time is taken from the clock. *)
Definition CPrivateSendBaseSession_SetNull : M unit :=
  modify_srv (λ s,
    mkServer (vecSessionCollaterals s) (vecPrivateSendQueue s) []
             POOL_STATE_IDLE (GetTime env) 0 0 (mkTx [] [])) ;;
  emit (EvState POOL_STATE_IDLE).

(** Modelled from the spec: [CPrivateSendBaseManager::SetNull], outside the
    sources at hand, discards the advertisements together with the
    session. *)
Definition CPrivateSendBaseManager_SetNull : M unit :=
  modify_srv (with_queue []).

Definition SetNull : M unit :=
  modify_srv (with_collaterals []) ;;
  CPrivateSendBaseSession_SetNull ;;
  CPrivateSendBaseManager_SetNull.

Definition SetState (nStateNew : PoolState) : M unit :=
  if negb (fMasternodeMode env) then skip else
  if bool_decide (nStateNew = POOL_STATE_ERROR) ||
     bool_decide (nStateNew = POOL_STATE_SUCCESS) then skip else
  modify_srv (with_state nStateNew (GetTime env)) ;;
  emit (EvState nStateNew).

(** [pnode] is never null where the server calls [PushStatus]. *)
Definition PushStatus (pnode : CService) (nStatusUpdate : PoolStatusUpdate)
           (nMessageID : PoolMessage) : M unit :=
  s ← get_srv;
  emit (EvStatusUpdate pnode
          (mkStatusUpdate (nSessionID s) (nState s) 0 nStatusUpdate nMessageID)).

Fixpoint RelayStatus_count (l : list CPrivateSendEntry)
         (nStatusUpdate : PoolStatusUpdate) (nMessageID : PoolMessage)
         (nDisconnected : Z) : M Z :=
  match l with
  | [] => mret nDisconnected
  | entry :: l' =>
      if ForNode env (addr entry)
      then PushStatus (addr entry) nStatusUpdate nMessageID ;;
           RelayStatus_count l' nStatusUpdate nMessageID nDisconnected
      else RelayStatus_count l' nStatusUpdate nMessageID (nDisconnected + 1)
  end.

Definition RelayStatus (nStatusUpdate : PoolStatusUpdate)
           (nMessageID : PoolMessage) : M unit :=
  s ← get_srv;
  nDisconnected ← RelayStatus_count (vecEntries s) nStatusUpdate nMessageID 0;
  if nDisconnected =? 0 then skip else
  for_each (vecEntries s) (λ entry,
    if ForNode env (addr entry)
    then PushStatus (addr entry) STATUS_REJECTED MSG_NOERR
    else skip) ;;
  if nDisconnected =? Z.of_nat (length (vecEntries s)) then SetNull else skip.

(** Loops of the form
    [for (entry : vecEntries) { if (!ForNode(..push..)) { RelayStatus(REJECTED); break; } }] *)
Fixpoint relay_or_reject (l : list CPrivateSendEntry)
         (push : CService → M unit) : M unit :=
  match l with
  | [] => skip
  | entry :: l' =>
      if ForNode env (addr entry)
      then push (addr entry) ;; relay_or_reject l' push
      else RelayStatus STATUS_REJECTED MSG_NOERR
  end.

Definition RelayFinalTransaction (txFinal : CTransaction) : M unit :=
  s ← get_srv;
  relay_or_reject (vecEntries s)
    (λ to, emit (EvFinalTx to (nSessionID s) txFinal)).

Definition RelayCompletedTransaction (nMessageID : PoolMessage) : M unit :=
  s ← get_srv;
  relay_or_reject (vecEntries s)
    (λ to, emit (EvComplete to (nSessionID s) nMessageID)).

Definition ConsumeCollateral (txref : CTransaction) : M unit :=
  emit (EvConsumeCollateral txref) ;;
  w ← get_world;
  if AcceptToMemoryPool env (mempool w) txref
  then mempool_add txref ;; emit (EvRelayTransaction txref)
  else skip.

Definition HasTimedOut (s : CPrivateSendServer) : bool :=
  if negb (fMasternodeMode env) then false else
  if bool_decide (nState s = POOL_STATE_IDLE) then false else
  let nTimeout := if bool_decide (nState s = POOL_STATE_SIGNING)
                  then PRIVATESEND_SIGNING_TIMEOUT
                  else PRIVATESEND_QUEUE_TIMEOUT in
  GetTime env - nTimeLastSuccessfulStep s >=? nTimeout.

Definition IsSessionReady (s : CPrivateSendServer) : bool :=
  if bool_decide (nState s = POOL_STATE_QUEUE) &&
     ((Z.of_nat (length (vecSessionCollaterals s)) >=? GetMaxPoolParticipants env)
      || (HasTimedOut s &&
          (Z.of_nat (length (vecSessionCollaterals s))
             >=? GetMinPoolParticipants env)))
  then true
  else bool_decide (nState s = POOL_STATE_ACCEPTING_ENTRIES).

Definition IsSignaturesComplete (s : CPrivateSendServer) : bool :=
  forallb (λ entry, forallb fHasSig (vecTxDSIn entry)) (vecEntries s).

(** [*a == *b] on transactions compares their hashes. *)
Definition tx_eqb (a b : CTransaction) : bool :=
  GetHash env a =? GetHash env b.

(** The offenders [ChargeFees] collects. *)
Definition offenders_accepting (s : CPrivateSendServer) : list CTransaction :=
  filter (λ txColl,
            existsb (λ entry, tx_eqb (txCollateral entry) txColl)
                    (vecEntries s) = false)
         (vecSessionCollaterals s).

Definition offenders_signing (s : CPrivateSendServer) : list CTransaction :=
  flat_map (λ entry,
              flat_map (λ txdsin, if fHasSig txdsin then []
                                  else [txCollateral entry])
                       (vecTxDSIn entry))
           (vecEntries s).

Definition vecOffendersCollaterals (s : CPrivateSendServer) : list CTransaction :=
  (if bool_decide (nState s = POOL_STATE_ACCEPTING_ENTRIES)
   then offenders_accepting s else []) ++
  (if bool_decide (nState s = POOL_STATE_SIGNING)
   then offenders_signing s else []).

(** [vecSessionCollaterals.size() - 1] is computed in [size_t] and wraps
    at zero.  The [int] casts of container sizes are the identity for the
    sizes a pool can have. *)
Definition size_minus_one (n : nat) : Z := (Z.of_nat n - 1) `mod` 2 ^ 64.

Definition ChargeFees : M unit :=
  if negb (fMasternodeMode env) then skip else
  r1 ← GetRandInt 100;
  if r1 >? 33 then skip else
  s ← get_srv;
  let offenders := vecOffendersCollaterals s in
  if bool_decide (offenders = []) then skip else
  lenient ← (if Z.of_nat (length offenders)
                  >=? size_minus_one (length (vecSessionCollaterals s))
             then r2 ← GetRandInt 100; mret (r2 >? 33)
             else mret false);
  if (lenient : bool) then skip else
  if Z.of_nat (length offenders)
       >=? Z.of_nat (length (vecSessionCollaterals s)) then skip else
  let shuffled := random_shuffle env offenders in
  if bool_decide (nState s = POOL_STATE_ACCEPTING_ENTRIES) ||
     bool_decide (nState s = POOL_STATE_SIGNING)
  then match shuffled with
       | tx :: _ => ConsumeCollateral tx
       | [] => skip
       end
  else skip.

Fixpoint ChargeRandomFees_loop (l : list CTransaction) : M unit :=
  match l with
  | [] => skip
  | txColl :: l' =>
      r ← GetRandInt 100;
      if r >? 10 then skip
      else ConsumeCollateral txColl ;; ChargeRandomFees_loop l'
  end.

Definition ChargeRandomFees : M unit :=
  if negb (fMasternodeMode env) then skip else
  s ← get_srv;
  ChargeRandomFees_loop (vecSessionCollaterals s).

(** The two nested loops of [CreateFinalTransaction]: outputs and inputs
    of every entry are pushed, entry by entry. *)
Definition push_entry (txNew : CMutableTransaction)
           (entry : CPrivateSendEntry) : CMutableTransaction :=
  mkTx (vin txNew ++ map dsin_txin (vecTxDSIn entry))
       (vout txNew ++ vecTxOut entry).

Definition CreateFinalTransaction : M unit :=
  s ← get_srv;
  let txNew := fold_left push_entry (vecEntries s) (mkTx [] []) in
  let txNew := mkTx (std_sort CompareInputBIP69 (vin txNew))
                    (std_sort CompareOutputBIP69 (vout txNew)) in
  modify_srv (with_final txNew) ;;
  SetState POOL_STATE_SIGNING ;;
  RelayFinalTransaction txNew.

(** [mempool.PrioritiseTransaction] only changes the priority the pool
    keeps for the hash. *)
Definition CommitFinalTransaction : M unit :=
  if negb (fMasternodeMode env) then skip else
  s ← get_srv;
  w ← get_world;
  let finalTransaction : CTransaction := finalMutableTransaction s in
  let hashTx := GetHash env finalTransaction in
  if negb (tryLock_cs_main env) ||
     negb (AcceptToMemoryPool env (mempool w) finalTransaction)
  then SetNull ;; RelayCompletedTransaction ERR_INVALID_TX
  else
    mempool_add finalTransaction ;;
    found ← GetDSTX hashTx;
    match found with
    | Some _ => skip
    | None =>
        let dstxNew := mkDSTX finalTransaction (activeMasternodeOutpoint env)
                              [] (GetAdjustedTime env) in
        let dstxNew := mkDSTX (dstx_tx dstxNew) (dstx_masternodeOutpoint dstxNew)
                              (SignBroadcastTx env dstxNew) (sigTime dstxNew) in
        AddDSTX hashTx dstxNew
    end ;;
    emit (EvRelayInv hashTx) ;;
    RelayCompletedTransaction MSG_SUCCESS ;;
    ChargeRandomFees ;;
    SetNull.

Definition CheckPool : M unit :=
  if negb (fMasternodeMode env) then skip else
  s ← get_srv;
  if bool_decide (nState s = POOL_STATE_ACCEPTING_ENTRIES) &&
     bool_decide (length (vecEntries s) = length (vecSessionCollaterals s))
  then CreateFinalTransaction else
  if bool_decide (nState s = POOL_STATE_ACCEPTING_ENTRIES) &&
     HasTimedOut s &&
     (Z.of_nat (length (vecEntries s)) >=? GetMinPoolParticipants env)
  then ChargeFees ;; CreateFinalTransaction else
  if bool_decide (nState s = POOL_STATE_SIGNING) && IsSignaturesComplete s
  then CommitFinalTransaction
  else skip.

(** Modelled from the spec: [CPrivateSendBaseManager::CheckQueue] is
    outside the sources at hand.  An advertisement has a validity window
    of 30 s from its timestamp; the maintenance tick drops the expired
    ones from the buffer. *)
Definition CheckQueue : M unit :=
  if negb (tryLock_cs_vecqueue env) then skip else
  modify_srv (λ s,
    with_queue (filter (λ q, IsExpired (GetTime env) q = false)
                       (vecPrivateSendQueue s)) s).

Definition CheckTimeout : M unit :=
  if negb (fMasternodeMode env) then skip else
  CheckQueue ;;
  s ← get_srv;
  if negb (HasTimedOut s) then skip else
  ChargeFees ;;
  SetNull.

Definition CheckForCompleteQueue : M unit :=
  if negb (fMasternodeMode env) then skip else
  s ← get_srv;
  if bool_decide (nState s = POOL_STATE_QUEUE) && IsSessionReady s
  then
    SetState POOL_STATE_ACCEPTING_ENTRIES ;;
    let dsq := mkQueue (nSessionDenom s) (activeMasternodeOutpoint env)
                       (GetAdjustedTime env) true [] in
    let dsq := mkQueue (nDenom dsq) (masternodeOutpoint dsq) (nTime dsq)
                       (fReady dsq) (SignQueue env dsq) in
    emit (EvRelayQueue dsq)
  else skip.

(** The scan of [IsInputScriptSigValid]: the transaction under
    construction, the running input counter [i], [nTxInIndex] and
    [sigPubKey]. *)
Definition scan_input (txin : CTxIn)
           (acc : CMutableTransaction * Z * Z * CScript) (txdsin : CTxDSIn)
  : CMutableTransaction * Z * Z * CScript :=
  let '(txNew, i, nTxInIndex, sigPubKey) := acc in
  let txNew := mkTx (vin txNew ++ [dsin_txin txdsin]) (vout txNew) in
  if bool_decide (prevout (dsin_txin txdsin) = prevout txin)
  then (txNew, i + 1, i, prevPubKey txdsin)
  else (txNew, i + 1, nTxInIndex, sigPubKey).

Definition scan_entry (txin : CTxIn)
           (acc : CMutableTransaction * Z * Z * CScript)
           (entry : CPrivateSendEntry)
  : CMutableTransaction * Z * Z * CScript :=
  let '(txNew, i, nTxInIndex, sigPubKey) := acc in
  fold_left (scan_input txin) (vecTxDSIn entry)
            (mkTx (vin txNew) (vout txNew ++ vecTxOut entry),
             i, nTxInIndex, sigPubKey).

Definition set_scriptSig (sig : CScript) (x : CTxIn) : CTxIn :=
  mkTxIn (prevout x) sig (nSequence x).

Definition IsInputScriptSigValid (s : CPrivateSendServer) (txin : CTxIn) : bool :=
  let '(txNew, _, nTxInIndex, sigPubKey) :=
    fold_left (scan_entry txin) (vecEntries s) (mkTx [] [], 0, -1, []) in
  if nTxInIndex >=? 0 then
    let txNew := mkTx (alter (set_scriptSig (scriptSig txin))
                             (Z.to_nat nTxInIndex) (vin txNew))
                      (vout txNew) in
    VerifyScript env (scriptSig txin) sigPubKey txNew nTxInIndex
  else false.

(** First entry whose [AddScriptSig] succeeds. *)
Fixpoint sign_first_entry (txin : CTxIn) (l : list CPrivateSendEntry)
  : option (list CPrivateSendEntry) :=
  match l with
  | [] => None
  | e :: l' =>
      match Entry_AddScriptSig txin e with
      | Some e' => Some (e' :: l')
      | None => cons e <$> sign_first_entry txin l'
      end
  end.

Definition AddScriptSig (txinNew : CTxIn) : M bool :=
  s ← get_srv;
  if existsb (λ entry,
        existsb (λ txdsin,
                   bool_decide (scriptSig (dsin_txin txdsin) = scriptSig txinNew))
                (vecTxDSIn entry))
        (vecEntries s)
  then mret false else
  if negb (IsInputScriptSigValid s txinNew) then mret false else
  let final := finalMutableTransaction s in
  modify_srv (with_final
    (mkTx (map (λ txin, if matches_input txinNew txin
                        then set_scriptSig (scriptSig txinNew) txin
                        else txin) (vin final))
          (vout final))) ;;
  match sign_first_entry txinNew (vecEntries s) with
  | Some entries' => modify_srv (with_entries entries') ;; mret true
  | None => mret false
  end.

(** [AddEntry] returns its result together with [nMessageIDRet]. *)
Definition input_in_pool (s : CPrivateSendServer) (txin : CTxDSIn) : bool :=
  existsb (λ entry,
             existsb (λ txdsin,
                        bool_decide (prevout (dsin_txin txdsin)
                                     = prevout (dsin_txin txin)))
                     (vecTxDSIn entry))
          (vecEntries s).

Definition AddEntry (entry : CPrivateSendEntry) (nMessageIDRet : PoolMessage)
  : M (bool * PoolMessage) :=
  if negb (fMasternodeMode env) then mret (false, nMessageIDRet) else
  s ← get_srv;
  if Z.of_nat (length (vecEntries s))
       >=? Z.of_nat (length (vecSessionCollaterals s))
  then mret (false, ERR_ENTRIES_FULL) else
  if negb (IsCollateralValid env (txCollateral entry))
  then mret (false, ERR_INVALID_COLLATERAL) else
  if Z.of_nat (length (vecTxDSIn entry)) >? PRIVATESEND_ENTRY_MAX_SIZE
  then ConsumeCollateral (txCollateral entry) ;; mret (false, ERR_MAXIMUM) else
  if existsb (input_in_pool s) (vecTxDSIn entry)
  then mret (false, ERR_ALREADY_HAVE) else
  let vin := map dsin_txin (vecTxDSIn entry) in
  let '(ok, msg, fConsumeCollateral) :=
    IsValidInOuts env (nSessionDenom s) vin (vecTxOut entry) nMessageIDRet in
  if negb ok
  then (if fConsumeCollateral then ConsumeCollateral (txCollateral entry)
        else skip) ;;
       mret (false, msg)
  else
    modify_srv (λ s, with_entries (vecEntries s ++ [entry]) s) ;;
    mret (true, MSG_ENTRIES_ADDED).

Definition IsAcceptableDSA (dsa : CPrivateSendAccept)
           (nMessageIDRet : PoolMessage) : bool * PoolMessage :=
  if negb (fMasternodeMode env) then (false, nMessageIDRet) else
  if negb (IsValidDenomination env (dsa_nDenom dsa)) then (false, ERR_DENOM) else
  if negb (fUnitTest env) && negb (IsCollateralValid env (dsa_txCollateral dsa))
  then (false, ERR_INVALID_COLLATERAL)
  else (true, nMessageIDRet).

Definition CreateNewSession (dsa : CPrivateSendAccept)
           (nMessageIDRet : PoolMessage) : M (bool * PoolMessage) :=
  s ← get_srv;
  if negb (fMasternodeMode env) || negb (nSessionID s =? 0)
  then mret (false, nMessageIDRet) else
  if negb (bool_decide (nState s = POOL_STATE_IDLE))
  then mret (false, ERR_MODE) else
  let '(ok, msg) := IsAcceptableDSA dsa nMessageIDRet in
  if negb ok then mret (false, msg) else
  r ← GetRandInt 999999;
  modify_srv (with_session (r + 1) (dsa_nDenom dsa)) ;;
  SetState POOL_STATE_QUEUE ;;
  (if negb (fUnitTest env) then
     let dsq := mkQueue (dsa_nDenom dsa) (activeMasternodeOutpoint env)
                        (GetAdjustedTime env) false [] in
     let dsq := mkQueue (nDenom dsq) (masternodeOutpoint dsq) (nTime dsq)
                        (fReady dsq) (SignQueue env dsq) in
     emit (EvRelayQueue dsq) ;;
     modify_srv (λ s, with_queue (vecPrivateSendQueue s ++ [dsq]) s)
   else skip) ;;
  modify_srv (λ s, with_collaterals
                     (vecSessionCollaterals s ++ [dsa_txCollateral dsa]) s) ;;
  mret (true, MSG_NOERR).

Definition AddUserToExistingSession (dsa : CPrivateSendAccept)
           (nMessageIDRet : PoolMessage) : M (bool * PoolMessage) :=
  s ← get_srv;
  if negb (fMasternodeMode env) || (nSessionID s =? 0) || IsSessionReady s
  then mret (false, nMessageIDRet) else
  let '(ok, msg) := IsAcceptableDSA dsa nMessageIDRet in
  if negb ok then mret (false, msg) else
  if negb (bool_decide (nState s = POOL_STATE_QUEUE))
  then mret (false, ERR_MODE) else
  if negb (dsa_nDenom dsa =? nSessionDenom s)
  then mret (false, ERR_DENOM) else
  modify_srv (λ s, with_collaterals
                     (vecSessionCollaterals s ++ [dsa_txCollateral dsa]) s) ;;
  mret (true, MSG_NOERR).

Definition GetLastDsq (proTx : uint256) : M Z :=
  λ w, (default 0 (mapLastDsq w !! proTx), w).

(** Modelled from the spec: [CMasternodeMetaMan::AllowMixing] is outside
    the sources at hand; it increments the global advertisement counter
    and stamps the coordinator with it. *)
Definition AllowMixing (proTx : uint256) : M unit :=
  λ w, (tt, mkWorld (srv w) (mapDSTX w) (mempool w) (nDsqCount w + 1)
                    (<[proTx := nDsqCount w + 1]> (mapLastDsq w))
                    (nRandCalls w) (log w)).

Definition obsolete (pfrom : CNode) : bool :=
  nVersion pfrom <? MIN_PRIVATESEND_PEER_PROTO_VERSION.

Definition ProcessMessage_DSACCEPT (pfrom : CNode) (dsa : CPrivateSendAccept)
  : M unit :=
  let to := node_addr pfrom in
  if obsolete pfrom
  then emit (EvReject to) ;; PushStatus to STATUS_REJECTED ERR_VERSION else
  s ← get_srv;
  if IsSessionReady s then PushStatus to STATUS_REJECTED ERR_QUEUE_FULL else
  match GetValidMNByCollateral env (activeMasternodeOutpoint env) with
  | None => PushStatus to STATUS_REJECTED ERR_MN_LIST
  | Some dmn =>
      let create : M unit :=
        '(fResult, nMessageID) ←
           (if nSessionID s =? 0 then CreateNewSession dsa MSG_NOERR
            else AddUserToExistingSession dsa MSG_NOERR);
        if (fResult : bool) then PushStatus to STATUS_ACCEPTED nMessageID
        else PushStatus to STATUS_REJECTED nMessageID in
      if bool_decide (vecSessionCollaterals s = []) then
        if negb (tryLock_cs_vecqueue env) then skip else
        if existsb (λ q, bool_decide (masternodeOutpoint q
                                      = activeMasternodeOutpoint env))
                   (vecPrivateSendQueue s)
        then PushStatus to STATUS_REJECTED ERR_RECENT else
        nLastDsq ← GetLastDsq (proTxHash dmn);
        w ← get_world;
        if negb (nLastDsq =? 0) &&
           (nLastDsq + GetValidMNsCount env `div` 5 >? nDsqCount w)
        then PushStatus to STATUS_REJECTED ERR_RECENT
        else create
      else create
  end.

Definition ProcessMessage_DSQUEUE (pfrom : CNode) (dsq : CPrivateSendQueue)
  : M unit :=
  if obsolete pfrom then emit (EvReject (node_addr pfrom)) else
  if negb (tryLock_cs_vecqueue env) then skip else
  s ← get_srv;
  if existsb (λ q, queue_eqb q dsq ||
                   (bool_decide (fReady q = fReady dsq) &&
                    bool_decide (masternodeOutpoint q = masternodeOutpoint dsq)))
             (vecPrivateSendQueue s)
  then skip else
  if IsTimeOutOfBounds env dsq then skip else
  match GetValidMNByCollateral env (masternodeOutpoint dsq) with
  | None => skip
  | Some dmn =>
      if negb (CheckSignatureQueue env (pubKeyOperator dmn) dsq)
      then emit (EvMisbehaving (node_id pfrom) 10) else
      if negb (fReady dsq) then
        nLastDsq ← GetLastDsq (proTxHash dmn);
        w ← get_world;
        let nThreshold := nLastDsq + GetValidMNsCount env `div` 5 in
        if negb (nLastDsq =? 0) && (nThreshold >? nDsqCount w) then skip else
        AllowMixing (proTxHash dmn) ;;
        if negb (tryLock_cs_vecqueue env) then skip else
        modify_srv (λ s, with_queue (vecPrivateSendQueue s ++ [dsq]) s) ;;
        emit (EvRelayQueue dsq)
      else skip
  end.

Definition with_addr (a : CService) (e : CPrivateSendEntry) : CPrivateSendEntry :=
  mkEntry (vecTxDSIn e) (vecTxOut e) (txCollateral e) a.

Definition ProcessMessage_DSVIN (pfrom : CNode) (entry : CPrivateSendEntry)
  : M unit :=
  let to := node_addr pfrom in
  if obsolete pfrom
  then emit (EvReject to) ;; PushStatus to STATUS_REJECTED ERR_VERSION else
  s ← get_srv;
  if negb (IsSessionReady s) then PushStatus to STATUS_REJECTED ERR_SESSION else
  '(ok, nMessageID) ← AddEntry (with_addr to entry) MSG_NOERR;
  if (ok : bool) then
    PushStatus to STATUS_ACCEPTED nMessageID ;;
    CheckPool ;;
    RelayStatus STATUS_ACCEPTED MSG_NOERR
  else PushStatus to STATUS_REJECTED nMessageID.

Fixpoint DSSIGNFINALTX_loop (vecTxIn : list CTxIn) : M unit :=
  match vecTxIn with
  | [] => CheckPool
  | txin :: rest =>
      ok ← AddScriptSig txin;
      if (ok : bool) then DSSIGNFINALTX_loop rest
      else RelayStatus STATUS_REJECTED MSG_NOERR
  end.

Definition ProcessMessage_DSSIGNFINALTX (pfrom : CNode) (vecTxIn : list CTxIn)
  : M unit :=
  if obsolete pfrom then emit (EvReject (node_addr pfrom)) else
  DSSIGNFINALTX_loop vecTxIn.

Definition ProcessMessage (pfrom : CNode) (msg : Message) : M unit :=
  if negb (fMasternodeMode env) then skip else
  if fLiteMode env then skip else
  if negb (IsBlockchainSynced env) then skip else
  match msg with
  | DSACCEPT dsa => ProcessMessage_DSACCEPT pfrom dsa
  | DSQUEUE dsq => ProcessMessage_DSQUEUE pfrom dsq
  | DSVIN entry => ProcessMessage_DSVIN pfrom entry
  | DSSIGNFINALTX vecTxIn => ProcessMessage_DSSIGNFINALTX pfrom vecTxIn
  | OtherCommand => skip
  end.

Definition DoMaintenance : M unit :=
  if fLiteMode env then skip else
  if negb (fMasternodeMode env) then skip else
  if negb (IsBlockchainSynced env) || ShutdownRequested env then skip else
  CheckForCompleteQueue ;;
  CheckPool ;;
  CheckTimeout.

End Server.

(** ** The server as a transition system *)

(** The session right after [SetNull]. *)
Definition null_server (t : Z) : CPrivateSendServer :=
  mkServer [] [] [] POOL_STATE_IDLE t 0 0 (mkTx [] []).

(** One step: a peer message is handled, the maintenance tick runs, or
    the rest of the process changes what is not the server object. *)
Inductive step : World → World → Prop :=
| step_message env pfrom msg w :
    step w (exec (ProcessMessage env pfrom msg) w)
| step_tick env w :
    step w (exec (DoMaintenance env) w)
| step_outside w w' :
    srv w' = srv w → step w w'.

Inductive reachable : World → Prop :=
| reachable_init w t : srv w = null_server t → reachable w
| reachable_step w w' : reachable w → step w w' → reachable w'.

(** The events a computation appends to the log. *)
Definition events_of {A} (m : M A) (w : World) : list Event :=
  drop (length (log w)) (log (exec m w)).

Definition is_consume (e : Event) : bool :=
  match e with EvConsumeCollateral _ => true | _ => false end.

(** The collaterals handed to [ConsumeCollateral] during a computation. *)
Definition consumed {A} (m : M A) (w : World) : list CTransaction :=
  omap (λ e, match e with EvConsumeCollateral tx => Some tx | _ => None end)
       (events_of m w).

(** Inputs and outputs of a list of entries, in entry order. *)
Definition entries_inputs (l : list CPrivateSendEntry) : list CTxIn :=
  flat_map (λ e, map dsin_txin (vecTxDSIn e)) l.

Definition entries_outputs (l : list CPrivateSendEntry) : list CTxOut :=
  flat_map vecTxOut l.

Definition entry_outpoints (e : CPrivateSendEntry) : list COutPoint :=
  map (λ d, prevout (dsin_txin d)) (vecTxDSIn e).

(** No outpoint is spent by two different entries of the list. *)
Fixpoint pairwise_disjoint (l : list CPrivateSendEntry) : Prop :=
  match l with
  | [] => True
  | e :: l' =>
      Forall (λ e', ∀ o, o ∈ entry_outpoints e → o ∉ entry_outpoints e') l' ∧
      pairwise_disjoint l'
  end.

(** Ascending order of the sort keys. *)
Definition input_key_le (a b : CTxIn) : Prop :=
  op_hash (prevout a) < op_hash (prevout b) ∨
  (op_hash (prevout a) = op_hash (prevout b) ∧
   op_n (prevout a) ≤ op_n (prevout b)).

Definition output_key_le (a b : CTxOut) : Prop :=
  nValue a < nValue b ∨
  (nValue a = nValue b ∧ script_ltb (scriptPubKey b) (scriptPubKey a) = false).

(** ** Concrete data for the examples *)

(** A toy hash that tells the transactions of the examples apart. *)
Definition example_hash (tx : CTransaction) : uint256 :=
  foldr (λ i acc, op_hash (prevout i) * 16 + op_n (prevout i) + 4096 * acc) 0 (vin tx)
  + 7 * foldr (λ o acc, nValue o + acc) 0 (vout tx).

(** A masternode in normal operation; the arguments are what the examples
    vary: the clock, the random draws, the peer table and the script
    interpreter. *)
Definition example_env (now : Z) (rnd : nat → Z) (conn : CService → bool)
           (verify : CScript → CScript → CMutableTransaction → Z → bool) : Env :=
  mkEnv true false false true false now now (mkOutPoint 77 0) 5 3
        (λ _, true) (λ _, true) (λ _ _ _ m, (true, m, false))
        verify (λ _ _, true) example_hash conn true true
        (λ _, Some (mkDMN 1 1 1)) 50 rnd (λ l, l)
        (λ _, [1]) (λ _ _, true) (λ _, [2]).

Definition init_world : World :=
  mkWorld (null_server 0) ∅ [] 0 ∅ 0 [].

Definition coin (h n : Z) : CTxIn := mkTxIn (mkOutPoint h n) [] 4294967295.
Definition unsigned_in (h n : Z) : CTxDSIn := mkTxDSIn (coin h n) [118; h] false 0.
Definition collateral_of (k : Z) : CTransaction :=
  mkTx [coin (900 + k) 0] [mkTxOut 0 [106]].
Definition peer (k : Z) : CNode := mkNode k k 70206.

(** Five peers, their join requests and their contributions.  Peer 1
    offers the inputs (2,0) and (1,5), peer 2 offers (1,1). *)
Definition dsa_of (k : Z) : Message := DSACCEPT (mkAccept 1 (collateral_of k)).

Definition entry_A : CPrivateSendEntry :=
  mkEntry [unsigned_in 2 0; unsigned_in 1 5] [mkTxOut 100 [1]] (collateral_of 1) 1.
Definition entry_B : CPrivateSendEntry :=
  mkEntry [unsigned_in 1 1] [mkTxOut 100 [2]] (collateral_of 2) 2.

Definition run (env : Env) (l : list (CNode * Message)) (w : World) : World :=
  fold_left (λ w pm, exec (ProcessMessage env pm.1 pm.2) w) l w.

Definition env_all_up : Env :=
  example_env 1000 (λ _, 41) (λ _, true) (λ _ _ _ _, true).

Definition env_all_gone : Env :=
  example_env 1000 (λ _, 41) (λ _, false) (λ _ _ _ _, true).

(** Five join requests in a row fill the queue; no tick has run yet, so
    the state is still [POOL_STATE_QUEUE]. *)
Definition world_full_queue : World :=
  run env_all_up [(peer 1, dsa_of 1); (peer 2, dsa_of 2); (peer 3, dsa_of 3);
                  (peer 4, dsa_of 4); (peer 5, dsa_of 5)] init_world.

(** Peer 1 then submits its entry. *)
Definition world_one_entry : World :=
  exec (ProcessMessage env_all_up (peer 1) (DSVIN entry_A)) world_full_queue.

(** The happy path of the spec up to the last signature: three peers
    join, the queue times out with the minimum reached, the tick opens
    the pool, the peers submit, the final transaction is assembled, and
    peers 1 and 2 sign. *)
Definition entry_C : CPrivateSendEntry :=
  mkEntry [unsigned_in 3 2] [mkTxOut 100 [3]] (collateral_of 3) 3.

Definition signed (h n : Z) (sig : CScript) : CTxIn :=
  mkTxIn (mkOutPoint h n) sig 4294967295.

Definition world_three_joined : World :=
  run env_all_up [(peer 1, dsa_of 1); (peer 2, dsa_of 2); (peer 3, dsa_of 3)]
      init_world.

Definition env_later (now : Z) (rnd : nat → Z) : Env :=
  example_env now rnd (λ _, true) (λ _ _ _ _, true).

Definition world_accepting : World :=
  exec (DoMaintenance (env_later 1030 (λ _, 0))) world_three_joined.

Definition world_signing : World :=
  run (env_later 1031 (λ _, 0))
      [(peer 1, DSVIN entry_A); (peer 2, DSVIN entry_B); (peer 3, DSVIN entry_C)]
      world_accepting.

Definition world_two_signed : World :=
  run (env_later 1032 (λ _, 0))
      [(peer 1, DSSIGNFINALTX [signed 2 0 [71; 1]; signed 1 5 [71; 2]]);
       (peer 2, DSSIGNFINALTX [signed 1 1 [71; 3]])]
      world_signing.

(** The draws of the fee examples: the first collateral is charged, the
    second is not, the third would be. *)
Definition draws_hit_miss_hit (k : nat) : Z :=
  match k with 1%nat => 5 | 2%nat => 50 | _ => 5 end.

(** The spec's wording of the random charge, for comparison with
    [ChargeRandomFees]: every collateral gets a draw of its own and is
    consumed with probability 1/10, whatever the earlier draws were. *)
Fixpoint charge_random_fees_spec (env : Env) (l : list CTransaction) : M unit :=
  match l with
  | [] => skip
  | txColl :: l' =>
      r ← GetRandInt env 100;
      (if r <? 10 then ConsumeCollateral env txColl else skip) ;;
      charge_random_fees_spec env l'
  end.

(** How many collaterals [ChargeRandomFees] gets through: the draws are
    taken in order from index [k], and the first one above 10 ends it. *)
Fixpoint charged_prefix (env : Env) (k n : nat) : nat :=
  match n with
  | O => O
  | S n' => if RandRaw env k `mod` 100 >? 10 then O
            else S (charged_prefix env (S k) n')
  end.

Definition any_event : Event → Prop := λ _, True.

(** ** Relations between the world before and after a computation *)

(** [respects R m]: running [m] takes every world to an [R]-related one. *)
Definition respects {A} (R : relation World) (m : M A) : Prop :=
  ∀ w, R w (exec m w).

(** The server object is left as it is. *)
Definition same_srv : relation World := λ w w', srv w' = srv w.

(** The broadcast index is left as it is. *)
Definition same_dstx : relation World := λ w w', mapDSTX w' = mapDSTX w.

(** The log only grows, by events that satisfy [P]. *)
Definition logs (P : Event → Prop) : relation World :=
  λ w w', ∃ evs, log w' = log w ++ evs ∧ Forall P evs.

(** A property of the server object is kept. *)
Definition keeps (I : CPrivateSendServer → Prop) : relation World :=
  λ w w', I (srv w) → I (srv w').

Definition all_disconnected (env : Env) (l : list CPrivateSendEntry) : bool :=
  forallb (λ e, negb (ForNode env (addr e))) l.

(** The pool invariant: no more entries than collaterals, and no outpoint
    in two entries. *)
Definition pool_inv (s : CPrivateSendServer) : Prop :=
  (length (vecEntries s) ≤ length (vecSessionCollaterals s))%nat ∧
  pairwise_disjoint (vecEntries s).

(** Nothing but the server object and the log changes: the mempool, the
    broadcast index, the advertisement ledger and the random stream are
    where they were. *)
Definition quiet : relation World :=
  λ w w', mapDSTX w' = mapDSTX w ∧ mempool w' = mempool w ∧
          nDsqCount w' = nDsqCount w ∧ mapLastDsq w' = mapLastDsq w ∧
          nRandCalls w' = nRandCalls w.

Definition is_status (e : Event) : Prop :=
  match e with EvStatusUpdate _ _ => True | _ => False end.

Definition not_consume (e : Event) : Prop := is_consume e = false.

(** State assignments seen in a log are resets to Idle. *)
Definition only_idle_state (e : Event) : Prop :=
  ∀ st, e = EvState st → st = POOL_STATE_IDLE.

(** All signatures are in: the state inside the DSSIGNFINALTX handler
    between the last [AddScriptSig] and its call of [CheckPool]. *)
Definition env_last_signature : Env := env_later 1033 draws_hit_miss_hit.

Definition world_all_signed : World :=
  exec (AddScriptSig env_last_signature (signed 3 2 [71; 4])) world_two_signed.

(** The last input of a list that spends the outpoint of [txin], with its
    position counted from [i]: what the scan of [IsInputScriptSigValid]
    leaves in [nTxInIndex] and [sigPubKey]. *)
Fixpoint find_last_input (txin : CTxIn) (ins : list CTxDSIn) (i : Z)
         (found : Z * CScript) : Z * CScript :=
  match ins with
  | [] => found
  | d :: rest =>
      find_last_input txin rest (i + 1)
        (if bool_decide (prevout (dsin_txin d) = prevout txin)
         then (i, prevPubKey d) else found)
  end.

(** No input of an entry of the list spends the outpoint of [txin]. *)
Definition no_input_matches (txin : CTxIn) (l : list CPrivateSendEntry) : Prop :=
  Forall (λ e, Forall (λ d, prevout (dsin_txin d) ≠ prevout txin) (vecTxDSIn e)) l.

(** The pool is open and peer 1 has submitted its entry. *)
Definition world_accepting_one : World :=
  exec (ProcessMessage (env_later 1031 (λ _, 0)) (peer 1) (DSVIN entry_A))
       world_accepting.

(** Peer 2 submits ten inputs, one of which, (2,0), is already in the
    pool with the entry of peer 1. *)
Definition entry_ten_inputs : CPrivateSendEntry :=
  mkEntry [unsigned_in 2 0; unsigned_in 11 0; unsigned_in 11 1; unsigned_in 11 2;
           unsigned_in 11 3; unsigned_in 11 4; unsigned_in 11 5; unsigned_in 11 6;
           unsigned_in 11 7; unsigned_in 11 8]
          [mkTxOut 100 [2]] (collateral_of 2) 2.

(** Some input of [entry] spends an outpoint that an entry of the pool
    spends. *)
Definition shares_input (entry : CPrivateSendEntry) (s : CPrivateSendServer) : Prop :=
  ∃ d e' d', d ∈ vecTxDSIn entry ∧ e' ∈ vecEntries s ∧ d' ∈ vecTxDSIn e' ∧
             prevout (dsin_txin d') = prevout (dsin_txin d).

(** A fourth peer, for a pool that is already full. *)
Definition entry_D : CPrivateSendEntry :=
  mkEntry [unsigned_in 4 0] [mkTxOut 100 [4]] (collateral_of 4) 4.

(** Peer 2 submits an entry that spends (2,0), as the entry of peer 1
    does. *)
Definition entry_B_clash : CPrivateSendEntry :=
  mkEntry [unsigned_in 1 1; unsigned_in 2 0] [mkTxOut 100 [2]] (collateral_of 2) 2.

(** A toy signature scheme for the examples: the only valid scriptSig for
    input [nIn] of a transaction is the tag 71 followed by a digest of the
    outpoints in their order, the output amounts, and [nIn]. *)
Definition toy_digest (tx : CMutableTransaction) (nIn : Z) : Z :=
  example_hash tx * 8 + nIn.

Definition toy_verify (sig key : CScript) (tx : CMutableTransaction) (nIn : Z)
  : bool :=
  bool_decide (sig = [71; toy_digest tx nIn]).

Definition env_toy_sig : Env :=
  example_env 1032 (λ _, 0) (λ _, true) toy_verify.

(** Peer 2 signs its input (1,1): once on the final transaction it was
    sent, where (1,1) is input 0, and once on the inputs in the order the
    entries came in, where (1,1) is input 2. *)
Definition sig_on_final : CScript :=
  [71; toy_digest (finalMutableTransaction (srv world_signing)) 0].

Definition sig_on_entry_order : CScript :=
  [71; toy_digest (mkTx (entries_inputs (vecEntries (srv world_signing)))
                        (entries_outputs (vecEntries (srv world_signing)))) 2].

(** The two draws [ChargeFees] may take, in [0, 100). *)
Definition first_draw (env : Env) (w : World) : Z :=
  RandRaw env (nRandCalls w) `mod` 100.

Definition second_draw (env : Env) (w : World) : Z :=
  RandRaw env (S (nRandCalls w)) `mod` 100.

(** The pool timed out with no entry at all: every participant is an
    offender.  All draws are 0, so no lenient branch is taken. *)
Definition env_timeout_no_luck : Env := env_later 1060 (λ _, 0).

(** ** Session invariants *)

(** Inputs and outputs are in the canonical order. *)
Definition canonical (tx : CMutableTransaction) : Prop :=
  StronglySorted input_key_le (vin tx) ∧ StronglySorted output_key_le (vout tx).

(** What holds of the server object between two messages: the state is
    never Error or Success; Idle, session id 0 and an empty collateral list
    go together; the id stays in its range; outside Signing there is no
    final transaction; the final transaction is canonically ordered and,
    in Signing, spends exactly the outpoints of the entries and pays
    exactly their outputs. *)
Definition session_inv (s : CPrivateSendServer) : Prop :=
  nState s ≠ POOL_STATE_ERROR ∧
  nState s ≠ POOL_STATE_SUCCESS ∧
  (nState s = POOL_STATE_IDLE ↔ nSessionID s = 0) ∧
  0 ≤ nSessionID s ≤ 999999 ∧
  (nState s = POOL_STATE_IDLE ↔ vecSessionCollaterals s = []) ∧
  (nState s ≠ POOL_STATE_SIGNING → finalMutableTransaction s = mkTx [] []) ∧
  canonical (finalMutableTransaction s) ∧
  (nState s = POOL_STATE_SIGNING →
   map prevout (vin (finalMutableTransaction s))
     ≡ₚ map prevout (entries_inputs (vecEntries s)) ∧
   vout (finalMutableTransaction s) ≡ₚ entries_outputs (vecEntries s)).

(** The advertisement a new session starts with and the one that opens
    the pool. *)
Definition session_dsq (env : Env) (denom : Z) (ready : bool) : CPrivateSendQueue :=
  mkQueue denom (activeMasternodeOutpoint env) (GetAdjustedTime env) ready
          (SignQueue env (mkQueue denom (activeMasternodeOutpoint env)
                                  (GetAdjustedTime env) ready [])).

(** ** More concrete data *)

Definition accept_of (k : Z) : CPrivateSendAccept := mkAccept 1 (collateral_of k).

(** A server object with session id 0 in a state other than Idle; no run
    of the server leads here, but the functions accept it. *)
Definition world_queue_without_id : World :=
  with_srv (with_state POOL_STATE_QUEUE 0 (srv init_world)) init_world.

(** One peer has joined. *)
Definition world_one_joined : World :=
  run env_all_up [(peer 1, dsa_of 1)] init_world.


(** ** Messages sent and nothing else *)

(** The world after the given events have gone out and nothing else has
    changed. *)
Definition notified (evs : list Event) (w : World) : World :=
  mkWorld (srv w) (mapDSTX w) (mempool w) (nDsqCount w) (mapLastDsq w)
          (nRandCalls w) (log w ++ evs).

(** The status update [PushStatus] builds from the session. *)
Definition status_of (s : CPrivateSendServer) (nStatusUpdate : PoolStatusUpdate)
           (nMessageID : PoolMessage) : CPrivateSendStatusUpdate :=
  mkStatusUpdate (nSessionID s) (nState s) 0 nStatusUpdate nMessageID.

(** The server is in operation: a synced masternode, not in lite mode. *)
Definition in_operation (env : Env) : Prop :=
  fMasternodeMode env = true ∧ fLiteMode env = false ∧
  IsBlockchainSynced env = true.

(** A peer that speaks a protocol version older than the pool accepts. *)
Definition old_peer : CNode := mkNode 9 9 70205.

(** A masternode that is switched off. *)
Definition env_not_masternode : Env :=
  mkEnv false false false true false 1000 1000 (mkOutPoint 77 0) 5 3
        (λ _, true) (λ _, true) (λ _ _ _ m, (true, m, false))
        (λ _ _ _ _, true) (λ _ _, true) example_hash (λ _, true) true true
        (λ _, Some (mkDMN 1 1 1)) 50 (λ _, 0) (λ l, l)
        (λ _, [1]) (λ _ _, true) (λ _, [2]).

(** An advertisement of another masternode, as it comes in with DSQUEUE. *)
Definition foreign_dsq : CPrivateSendQueue :=
  mkQueue 1 (mkOutPoint 88 0) 1000 false [9].


(** The inputs of the admitted entries that carry a signature. *)
Definition signed_count (l : list CPrivateSendEntry) : nat :=
  length (filter (λ d, fHasSig d = true) (flat_map vecTxDSIn l)).

(** Entry A with more inputs than an entry may have. *)
Definition entry_A_ten_inputs : CPrivateSendEntry :=
  mkEntry (vecTxDSIn entry_ten_inputs) [mkTxOut 100 [1]] (collateral_of 1) 1.

(** Only the peers 1 and 2 are connected. *)
Definition env_peer_3_gone : Env :=
  example_env 1031 (λ _, 0) (λ a, bool_decide (a ≠ 3)) (λ _ _ _ _, true).

(** ** A session from one step to the next *)

(** What a participant has put into an entry: the outpoints it spends,
    its outputs, its collateral and its address. *)
Definition entry_terms (e : CPrivateSendEntry)
  : list COutPoint * list CTxOut * CTransaction * CService :=
  (entry_outpoints e, vecTxOut e, txCollateral e, addr e).

(** The session goes on under its id and denomination, with the
    collaterals and entries it had and possibly more; or there is no
    session any more. *)
Definition continues : relation World := λ w w',
  (nSessionID (srv w') = nSessionID (srv w) ∧
   nSessionDenom (srv w') = nSessionDenom (srv w) ∧
   vecSessionCollaterals (srv w) `prefix_of` vecSessionCollaterals (srv w') ∧
   map entry_terms (vecEntries (srv w))
     `prefix_of` map entry_terms (vecEntries (srv w'))) ∨
  (nSessionID (srv w') = 0 ∧ nSessionDenom (srv w') = 0).

(** ** A session that waits for its last entry *)

(** Four peers have joined, the queue has timed out with the minimum of
    three reached, the tick has opened the pool, and three of the four
    have submitted: the fourth keeps the pool in AcceptingEntries. *)
Definition world_three_of_four : World :=
  run (env_later 1031 (λ _, 0))
      [(peer 1, DSVIN entry_A); (peer 2, DSVIN entry_B); (peer 3, DSVIN entry_C)]
      (exec (DoMaintenance (env_later 1030 (λ _, 0)))
            (run env_all_up [(peer 1, dsa_of 1); (peer 2, dsa_of 2);
                             (peer 3, dsa_of 3); (peer 4, dsa_of 4)] init_world)).

(** The clock is past the queue timeout and no participant is connected
    any more. *)
Definition env_all_gone_later : Env :=
  example_env 1061 (λ _, 0) (λ _, false) (λ _ _ _ _, true).

(** The signatures of a DSSIGNFINALTX message, applied one after the
    other. *)
Definition after_sigs (env : Env) (l : list CTxIn) (w : World) : World :=
  fold_left (λ w txin, exec (AddScriptSig env txin) w) l w.

(** Every one of them is accepted in its turn. *)
Fixpoint sigs_accepted (env : Env) (l : list CTxIn) (w : World) : bool :=
  match l with
  | [] => true
  | txin :: l' =>
      eval (AddScriptSig env txin) w &&
      sigs_accepted env l' (exec (AddScriptSig env txin) w)
  end.
(** * Proofs *)

(** ** The monad *)

Lemma exec_bind {A B} (m : M A) (k : A → M B) w :
  exec (m ≫= k) w = exec (k (eval m w)) (exec m w).
Proof. unfold exec, eval, mbind, M_bind. destruct (m w); reflexivity. Qed.

Lemma eval_bind {A B} (m : M A) (k : A → M B) w :
  eval (m ≫= k) w = eval (k (eval m w)) (exec m w).
Proof. unfold exec, eval, mbind, M_bind. destruct (m w); reflexivity. Qed.

Lemma exec_ret {A} (a : A) w : exec (mret a) w = w.
Proof. reflexivity. Qed.

Lemma exec_skip w : exec skip w = w.
Proof. reflexivity. Qed.

Lemma respects_ret {A} (R : relation World) `{!Reflexive R} (a : A) :
  respects R (mret a : M A).
Proof. intros w. rewrite exec_ret. reflexivity. Qed.

Lemma respects_skip (R : relation World) `{!Reflexive R} : respects R skip.
Proof. apply respects_ret; assumption. Qed.

Lemma respects_bind {A B} (R : relation World) `{!Transitive R}
      (m : M A) (k : A → M B) :
  respects R m → (∀ a, respects R (k a)) → respects R (m ≫= k).
Proof.
  intros Hm Hk w. rewrite exec_bind.
  transitivity (exec m w); [apply Hm | apply Hk].
Qed.

Lemma respects_get_srv (R : relation World) `{!Reflexive R} : respects R get_srv.
Proof. intros w. unfold exec; simpl. reflexivity. Qed.

Lemma respects_get_world (R : relation World) `{!Reflexive R} :
  respects R get_world.
Proof. intros w. unfold exec; simpl. reflexivity. Qed.

Lemma respects_for_each {A} (R : relation World) `{!PreOrder R}
      (l : list A) (body : A → M unit) :
  (∀ x, respects R (body x)) → respects R (for_each l body).
Proof.
  intros Hb. induction l as [|x l IH]; simpl.
  - apply respects_skip, _.
  - apply respects_bind; [apply _ | apply Hb | intros _; exact IH].
Qed.

#[global] Instance same_srv_preorder : PreOrder same_srv.
Proof.
  split; [intros w; reflexivity |].
  intros a b c Hab Hbc. unfold same_srv in *. congruence.
Qed.

#[global] Instance same_dstx_preorder : PreOrder same_dstx.
Proof.
  split; [intros w; reflexivity |].
  intros a b c Hab Hbc. unfold same_dstx in *. congruence.
Qed.

#[global] Instance logs_preorder P : PreOrder (logs P).
Proof.
  split.
  - intros w. exists []. rewrite app_nil_r. split; [reflexivity | constructor].
  - intros a b c (e1 & H1 & F1) (e2 & H2 & F2). exists (e1 ++ e2).
    rewrite H2, H1, app_assoc. split; [reflexivity |].
    apply Forall_app; split; assumption.
Qed.

#[global] Instance keeps_preorder I : PreOrder (keeps I).
Proof.
  split; [intros w H; exact H |].
  intros a b c Hab Hbc H. apply Hbc, Hab, H.
Qed.

Lemma same_srv_keeps I w w' : same_srv w w' → keeps I w w'.
Proof. unfold same_srv, keeps. intros ->. auto. Qed.

(** One step of decomposition of a goal [respects R m]. *)
Ltac respects_step :=
  lazymatch goal with
  | |- respects _ (mbind _ _) => apply respects_bind; [apply _ | | intros ]
  | |- respects _ (mret _) => apply respects_ret; apply _
  | |- respects _ skip => apply respects_skip; apply _
  | |- respects _ get_srv => apply respects_get_srv; apply _
  | |- respects _ get_world => apply respects_get_world; apply _
  | |- respects _ (if ?c then _ else _) => destruct c
  | |- respects _ (match ?x with _ => _ end) => destruct x
  end.

Create HintDb respects discriminated.

Ltac respects_auto :=
  repeat first [ respects_step | solve [eauto with respects] ].

(** ** What the primitive actions touch *)

Lemma emit_same_srv e : respects same_srv (emit e).
Proof. intros w. reflexivity. Qed.

Lemma emit_same_dstx e : respects same_dstx (emit e).
Proof. intros w. reflexivity. Qed.

Lemma emit_logs (P : Event → Prop) e : P e → respects (logs P) (emit e).
Proof. intros H w. exists [e]. split; [reflexivity | repeat constructor; exact H]. Qed.

Lemma modify_srv_same_dstx f : respects same_dstx (modify_srv f).
Proof. intros w. reflexivity. Qed.

Lemma modify_srv_logs P f : respects (logs P) (modify_srv f).
Proof. intros w. exists []. split; [symmetry; apply app_nil_r | constructor]. Qed.

Lemma modify_srv_keeps (I : CPrivateSendServer → Prop) f :
  (∀ s, I s → I (f s)) → respects (keeps I) (modify_srv f).
Proof. intros H w Hw. apply H, Hw. Qed.

Lemma mempool_add_same_srv tx : respects same_srv (mempool_add tx).
Proof. intros w. reflexivity. Qed.

Lemma mempool_add_same_dstx tx : respects same_dstx (mempool_add tx).
Proof. intros w. reflexivity. Qed.

Lemma mempool_add_logs P tx : respects (logs P) (mempool_add tx).
Proof. intros w. exists []. split; [symmetry; apply app_nil_r | constructor]. Qed.

Lemma GetRandInt_same_srv env n : respects same_srv (GetRandInt env n).
Proof. intros w. reflexivity. Qed.

Lemma GetRandInt_same_dstx env n : respects same_dstx (GetRandInt env n).
Proof. intros w. reflexivity. Qed.

Lemma GetRandInt_logs P env n : respects (logs P) (GetRandInt env n).
Proof. intros w. exists []. split; [symmetry; apply app_nil_r | constructor]. Qed.

Lemma GetDSTX_same_srv h : respects same_srv (GetDSTX h).
Proof. intros w. reflexivity. Qed.

Lemma GetDSTX_logs P h : respects (logs P) (GetDSTX h).
Proof. intros w. exists []. split; [symmetry; apply app_nil_r | constructor]. Qed.

Lemma AddDSTX_same_srv h d : respects same_srv (AddDSTX h d).
Proof. intros w. reflexivity. Qed.

Lemma AddDSTX_logs P h d : respects (logs P) (AddDSTX h d).
Proof. intros w. exists []. split; [symmetry; apply app_nil_r | constructor]. Qed.

Lemma GetLastDsq_same_srv h : respects same_srv (GetLastDsq h).
Proof. intros w. reflexivity. Qed.

Lemma AllowMixing_same_srv h : respects same_srv (AllowMixing h).
Proof. intros w. reflexivity. Qed.

Lemma respects_same_srv_keeps {A} I (m : M A) :
  respects same_srv m → respects (keeps I) m.
Proof. intros H w. apply same_srv_keeps, H. Qed.

#[global] Hint Resolve emit_same_srv emit_same_dstx modify_srv_same_dstx
  modify_srv_logs mempool_add_same_srv mempool_add_same_dstx mempool_add_logs
  GetRandInt_same_srv GetRandInt_same_dstx GetRandInt_logs GetDSTX_same_srv
  GetDSTX_logs AddDSTX_same_srv AddDSTX_logs GetLastDsq_same_srv
  AllowMixing_same_srv : respects.

(** ** What the server functions touch *)

Lemma PushStatus_same_srv to u m : respects same_srv (PushStatus to u m).
Proof. unfold PushStatus. respects_auto. Qed.

Lemma PushStatus_same_dstx to u m : respects same_dstx (PushStatus to u m).
Proof. unfold PushStatus. respects_auto. Qed.

Lemma ConsumeCollateral_same_srv env tx :
  respects same_srv (ConsumeCollateral env tx).
Proof. unfold ConsumeCollateral. respects_auto. Qed.

Lemma ConsumeCollateral_same_dstx env tx :
  respects same_dstx (ConsumeCollateral env tx).
Proof. unfold ConsumeCollateral. respects_auto. Qed.

#[global] Hint Resolve PushStatus_same_srv PushStatus_same_dstx
  ConsumeCollateral_same_srv ConsumeCollateral_same_dstx : respects.

Lemma logs_events_of {A} P (m : M A) w :
  logs P w (exec m w) → Forall P (events_of m w).
Proof.
  intros (evs & H & F). unfold events_of. rewrite H.
  rewrite drop_app_length. exact F.
Qed.

Lemma logs_weaken (P Q : Event → Prop) w w' :
  (∀ e, P e → Q e) → logs P w w' → logs Q w w'.
Proof.
  intros HPQ (evs & H & F). exists evs. split; [exact H |].
  eapply Forall_impl; eauto.
Qed.

Lemma SetNull_srv env w : srv (exec (SetNull env) w) = null_server (GetTime env).
Proof. reflexivity. Qed.

Lemma SetNull_same_dstx env : respects same_dstx (SetNull env).
Proof. intros w. reflexivity. Qed.

Lemma SetNull_logs (P : Event → Prop) env :
  P (EvState POOL_STATE_IDLE) → respects (logs P) (SetNull env).
Proof.
  intros H w. exists [EvState POOL_STATE_IDLE].
  split; [reflexivity | repeat constructor; exact H].
Qed.

Lemma pool_inv_null t : pool_inv (null_server t).
Proof. split; simpl; [lia | exact I]. Qed.

Lemma SetNull_keeps env : respects (keeps pool_inv) (SetNull env).
Proof. intros w _. rewrite SetNull_srv. apply pool_inv_null. Qed.

Lemma SetState_same_dstx env st : respects same_dstx (SetState env st).
Proof. unfold SetState. respects_auto. Qed.

Lemma SetState_keeps env st : respects (keeps pool_inv) (SetState env st).
Proof.
  unfold SetState. respects_auto.
  - apply modify_srv_keeps. intros s H. exact H.
  - apply respects_same_srv_keeps, emit_same_srv.
Qed.

Lemma SetState_logs (P : Event → Prop) env st :
  P (EvState st) → respects (logs P) (SetState env st).
Proof. intros H. unfold SetState. respects_auto. apply emit_logs, H. Qed.

#[global] Hint Resolve SetNull_same_dstx SetNull_keeps SetState_same_dstx
  SetState_keeps : respects.

(** *** [RelayStatus] *)

Lemma PushStatus_logs (P : Event → Prop) to u m :
  (∀ e, is_status e → P e) → respects (logs P) (PushStatus to u m).
Proof.
  intros H. unfold PushStatus. respects_auto. apply emit_logs, H. exact I.
Qed.

Lemma RelayStatus_count_same_srv env l u m n :
  respects same_srv (RelayStatus_count env l u m n).
Proof.
  revert n. induction l as [|e l IH]; intros n; simpl; respects_auto; apply IH.
Qed.

Lemma RelayStatus_count_same_dstx env l u m n :
  respects same_dstx (RelayStatus_count env l u m n).
Proof.
  revert n. induction l as [|e l IH]; intros n; simpl; respects_auto; apply IH.
Qed.

Lemma RelayStatus_count_logs (P : Event → Prop) env l u m n :
  (∀ e, is_status e → P e) → respects (logs P) (RelayStatus_count env l u m n).
Proof.
  intros H. revert n.
  induction l as [|e l IH]; intros n; simpl; respects_auto;
    solve [apply IH | apply PushStatus_logs, H].
Qed.

(** The counter ends at the number of entries whose peer is gone. *)
Lemma RelayStatus_count_eval env l u m n w :
  eval (RelayStatus_count env l u m n) w
  = n + Z.of_nat (length (filter (λ e, ForNode env (addr e) = false) l)).
Proof.
  revert n w. induction l as [|e l IH]; intros n w; simpl.
  - unfold eval; simpl. lia.
  - rewrite filter_cons. destruct (ForNode env (addr e)) eqn:E.
    + rewrite eval_bind, IH. rewrite decide_False by discriminate. reflexivity.
    + rewrite IH. rewrite decide_True by reflexivity. simpl length. lia.
Qed.

Lemma filter_length_all {A} (P : A → Prop) `{Hdec : !∀ x, Decision (P x)} (l : list A) :
  length (filter P l) = length l ↔ Forall P l.
Proof.
  induction l as [|x l IH]; simpl.
  - split; [constructor | reflexivity].
  - rewrite filter_cons. destruct (decide (P x)) as [Hx|Hx]; simpl.
    + split.
      * intros Hl. constructor; [exact Hx | apply IH; lia].
      * intros Hl. inversion Hl; subst. f_equal. apply IH. assumption.
    + split.
      * intros Hl. pose proof (length_filter P l). lia.
      * intros Hl. inversion Hl; subst. contradiction.
Qed.

Lemma all_disconnected_Forall env l :
  all_disconnected env l = true ↔ Forall (λ e, ForNode env (addr e) = false) l.
Proof.
  unfold all_disconnected. induction l as [|e l IH]; simpl.
  - split; [constructor | reflexivity].
  - rewrite andb_true_iff, negb_true_iff, IH. split.
    + intros [H1 H2]. constructor; assumption.
    + intros H. inversion H; subst. split; assumption.
Qed.

#[global] Instance quiet_preorder : PreOrder quiet.
Proof.
  split.
  - intros w. repeat split.
  - intros a b c (?&?&?&?&?) (?&?&?&?&?). unfold quiet. repeat split; congruence.
Qed.

Lemma emit_quiet e : respects quiet (emit e).
Proof. intros w. repeat split. Qed.

Lemma modify_srv_quiet f : respects quiet (modify_srv f).
Proof. intros w. repeat split. Qed.

Lemma SetNull_quiet env : respects quiet (SetNull env).
Proof. intros w. repeat split. Qed.

#[global] Hint Resolve emit_quiet modify_srv_quiet SetNull_quiet
  respects_same_srv_keeps : respects.

Lemma PushStatus_quiet to u m : respects quiet (PushStatus to u m).
Proof. unfold PushStatus. respects_auto. Qed.

#[global] Hint Resolve PushStatus_quiet : respects.

Lemma RelayStatus_count_quiet env l u m n :
  respects quiet (RelayStatus_count env l u m n).
Proof.
  revert n. induction l as [|e l IH]; intros n; simpl; respects_auto; apply IH.
Qed.

#[global] Hint Resolve RelayStatus_count_same_srv RelayStatus_count_same_dstx
  RelayStatus_count_quiet : respects.

Lemma notify_same_srv env l :
  respects same_srv
    (for_each l (λ entry : CPrivateSendEntry,
       if ForNode env (addr entry)
       then PushStatus (addr entry) STATUS_REJECTED MSG_NOERR else skip)).
Proof. apply respects_for_each; [apply _ |]. intros e. respects_auto. Qed.

Lemma notify_logs (P : Event → Prop) env l :
  (∀ e, is_status e → P e) →
  respects (logs P)
    (for_each l (λ entry : CPrivateSendEntry,
       if ForNode env (addr entry)
       then PushStatus (addr entry) STATUS_REJECTED MSG_NOERR else skip)).
Proof.
  intros H. apply respects_for_each; [apply _ |]. intros e. respects_auto.
  apply PushStatus_logs, H.
Qed.

Lemma RelayStatus_quiet env u m : respects quiet (RelayStatus env u m).
Proof.
  unfold RelayStatus. respects_auto.
  apply respects_for_each; [apply _ |]. intros e. respects_auto.
Qed.

Lemma RelayStatus_same_dstx env u m : respects same_dstx (RelayStatus env u m).
Proof.
  unfold RelayStatus. respects_auto.
  apply respects_for_each; [apply _ |]. intros e. respects_auto.
Qed.

Lemma RelayStatus_keeps env u m : respects (keeps pool_inv) (RelayStatus env u m).
Proof.
  unfold RelayStatus. respects_auto.
  apply respects_same_srv_keeps, notify_same_srv.
Qed.

Lemma RelayStatus_logs (P : Event → Prop) env u m :
  (∀ e, is_status e → P e) → P (EvState POOL_STATE_IDLE) →
  respects (logs P) (RelayStatus env u m).
Proof.
  intros H1 H2. unfold RelayStatus. respects_auto.
  - apply RelayStatus_count_logs, H1.
  - apply notify_logs, H1.
  - apply SetNull_logs, H2.
Qed.

#[global] Hint Resolve RelayStatus_quiet RelayStatus_same_dstx RelayStatus_keeps
  : respects.

(** The server object after a status relay: reset when there are entries
    and every peer is gone, untouched otherwise. *)
Lemma RelayStatus_srv env u m w :
  srv (exec (RelayStatus env u m) w)
  = if negb (bool_decide (vecEntries (srv w) = [])) &&
       all_disconnected env (vecEntries (srv w))
    then null_server (GetTime env) else srv w.
Proof.
  unfold RelayStatus. rewrite exec_bind.
  change (eval get_srv w) with (srv w). change (exec get_srv w) with w.
  rewrite exec_bind, RelayStatus_count_eval.
  set (l := vecEntries (srv w)).
  set (w1 := exec (RelayStatus_count env l u m 0) w).
  assert (H1 : srv w1 = srv w) by apply RelayStatus_count_same_srv.
  set (k := length (filter (λ e, ForNode env (addr e) = false) l)).
  assert (Hk : (k ≤ length l)%nat) by apply length_filter.
  assert (Hall : k = length l ↔ all_disconnected env l = true).
  { rewrite all_disconnected_Forall. apply filter_length_all. }
  destruct (0 + Z.of_nat k =? 0) eqn:E0.
  - rewrite exec_skip, H1. apply Z.eqb_eq in E0.
    destruct l as [|e l']; [reflexivity |].
    destruct (all_disconnected env (e :: l')).
    + assert (k = length (e :: l')) by (apply Hall; reflexivity).
      simpl in *. lia.
    + rewrite andb_false_r. reflexivity.
  - apply Z.eqb_neq in E0. rewrite exec_bind.
    set (w2 := exec (for_each l _) w1).
    assert (H2 : srv w2 = srv w1) by apply notify_same_srv.
    destruct (0 + Z.of_nat k =? Z.of_nat (length l)) eqn:E1.
    + apply Z.eqb_eq in E1. rewrite SetNull_srv.
      assert (Hkl : k = length l) by lia. apply Hall in Hkl. rewrite Hkl.
      destruct l; [simpl in *; lia | reflexivity].
    + apply Z.eqb_neq in E1. rewrite exec_skip, H2, H1.
      destruct (all_disconnected env l).
      * assert (k = length l) by (apply Hall; reflexivity). lia.
      * rewrite andb_false_r. reflexivity.
Qed.

Lemma consumed_nil {A} (m : M A) w :
  Forall not_consume (events_of m w) → consumed m w = [].
Proof.
  unfold consumed. induction (events_of m w) as [|e l IH]; intros H.
  - reflexivity.
  - inversion H as [|? ? He Hl]; subst. simpl.
    destruct e; try discriminate He; simpl; apply IH, Hl.
Qed.

Lemma RelayStatus_logs_connected env u m w :
  all_disconnected env (vecEntries (srv w)) = false →
  logs is_status w (exec (RelayStatus env u m) w).
Proof.
  intros Hc. unfold RelayStatus. rewrite exec_bind.
  change (eval get_srv w) with (srv w). change (exec get_srv w) with w.
  rewrite exec_bind, RelayStatus_count_eval.
  set (l := vecEntries (srv w)) in *.
  set (w1 := exec (RelayStatus_count env l u m 0) w).
  assert (H1 : logs is_status w w1) by (apply RelayStatus_count_logs; auto).
  set (k := length (filter (λ e, ForNode env (addr e) = false) l)).
  assert (Hne : k ≠ length l).
  { intros Hk. apply filter_length_all, all_disconnected_Forall in Hk.
    congruence. }
  destruct (0 + Z.of_nat k =? 0); [rewrite exec_skip; exact H1 |].
  rewrite exec_bind.
  destruct (0 + Z.of_nat k =? Z.of_nat (length l)) eqn:E1;
    [apply Z.eqb_eq in E1; lia |].
  rewrite exec_skip. etransitivity; [exact H1 |].
  apply notify_logs. auto.
Qed.

(** C10.  A status relay that finds the peer of every entry disconnected
    (the session holding at least one entry) resets the session to the
    null idle state, hands no collateral to [ConsumeCollateral] and leaves
    the mempool alone.  When at least one peer is still reachable, the
    relay leaves the whole server object (state, entries, collaterals) and
    everything but the log as it is, and all it logs are status updates. *)
Theorem RelayStatus_reset_iff_all_gone env u m w :
  (vecEntries (srv w) ≠ [] →
   Forall (λ e, ForNode env (addr e) = false) (vecEntries (srv w)) →
   srv (exec (RelayStatus env u m) w) = null_server (GetTime env) ∧
   consumed (RelayStatus env u m) w = [] ∧
   mempool (exec (RelayStatus env u m) w) = mempool w) ∧
  (Exists (λ e, ForNode env (addr e) = true) (vecEntries (srv w)) →
   srv (exec (RelayStatus env u m) w) = srv w ∧
   quiet w (exec (RelayStatus env u m) w) ∧
   Forall is_status (events_of (RelayStatus env u m) w)).
Proof.
  pose proof (RelayStatus_srv env u m w) as Hs.
  pose proof (RelayStatus_quiet env u m w) as Hq.
  split.
  - intros Hne Hall. apply all_disconnected_Forall in Hall.
    rewrite Hall, bool_decide_eq_false_2 in Hs by exact Hne.
    split; [exact Hs |]. split; [| apply Hq].
    apply consumed_nil, logs_events_of.
    apply RelayStatus_logs; [intros [] He; try contradiction |]; reflexivity.
  - intros Hex.
    assert (Hc : all_disconnected env (vecEntries (srv w)) = false).
    { apply not_true_is_false. intros Hall. apply all_disconnected_Forall in Hall.
      apply Exists_exists in Hex as (e & He & Hup).
      rewrite Forall_forall in Hall. specialize (Hall e He). congruence. }
    rewrite Hc, andb_false_r in Hs.
    split; [exact Hs |]. split; [exact Hq |].
    apply logs_events_of, RelayStatus_logs_connected, Hc.
Qed.

Lemma RelayStatus_reset_iff_all_gone_witness :
  (srv (exec (RelayStatus env_all_gone STATUS_ACCEPTED MSG_NOERR) world_one_entry)
     = null_server 1000 ∧
   consumed (RelayStatus env_all_gone STATUS_ACCEPTED MSG_NOERR) world_one_entry = [] ∧
   mempool (exec (RelayStatus env_all_gone STATUS_ACCEPTED MSG_NOERR) world_one_entry)
     = mempool world_one_entry) ∧
  (srv (exec (RelayStatus env_all_up STATUS_ACCEPTED MSG_NOERR) world_one_entry)
     = srv world_one_entry ∧
   quiet world_one_entry
         (exec (RelayStatus env_all_up STATUS_ACCEPTED MSG_NOERR) world_one_entry) ∧
   Forall is_status
          (events_of (RelayStatus env_all_up STATUS_ACCEPTED MSG_NOERR) world_one_entry)).
Proof.
  split.
  - apply (proj1 (RelayStatus_reset_iff_all_gone
                    env_all_gone STATUS_ACCEPTED MSG_NOERR world_one_entry)).
    + vm_compute. discriminate.
    + vm_compute. repeat constructor.
  - apply (proj2 (RelayStatus_reset_iff_all_gone
                    env_all_up STATUS_ACCEPTED MSG_NOERR world_one_entry)).
    vm_compute. apply Exists_cons_hd. reflexivity.
Defined.

(** ** The log of a composite computation *)

Lemma any_event_I e : any_event e.
Proof. exact I. Qed.

#[global] Hint Resolve any_event_I : respects.

#[global] Hint Extern 2 (respects (logs any_event) (emit _)) =>
  (apply emit_logs; exact I) : respects.
#[global] Hint Extern 2 (respects (logs any_event) (SetNull _)) =>
  (apply SetNull_logs; exact I) : respects.
#[global] Hint Extern 2 (respects (logs any_event) (SetState _ _)) =>
  (apply SetState_logs; exact I) : respects.
#[global] Hint Extern 2 (respects (logs any_event) (PushStatus _ _ _)) =>
  (apply PushStatus_logs; intros; exact I) : respects.
#[global] Hint Extern 2 (respects (logs any_event) (RelayStatus _ _ _)) =>
  (apply RelayStatus_logs; intros; exact I) : respects.

Lemma ConsumeCollateral_logging env tx :
  respects (logs any_event) (ConsumeCollateral env tx).
Proof. unfold ConsumeCollateral. respects_auto. Qed.

#[global] Hint Resolve ConsumeCollateral_logging : respects.

Lemma events_of_bind {A B} (m : M A) (k : A → M B) w :
  respects (logs any_event) m → (∀ a, respects (logs any_event) (k a)) →
  events_of (m ≫= k) w
  = events_of m w ++ events_of (k (eval m w)) (exec m w).
Proof.
  intros Hm Hk. unfold events_of at 1. rewrite exec_bind.
  destruct (Hm w) as (e1 & H1 & _).
  destruct (Hk (eval m w) (exec m w)) as (e2 & H2 & _).
  unfold events_of. rewrite H2, H1, <- app_assoc, !drop_app_length.
  rewrite app_assoc, drop_app_length. reflexivity.
Qed.

Lemma consumed_bind {A B} (m : M A) (k : A → M B) w :
  respects (logs any_event) m → (∀ a, respects (logs any_event) (k a)) →
  consumed (m ≫= k) w = consumed m w ++ consumed (k (eval m w)) (exec m w).
Proof.
  intros Hm Hk. unfold consumed. rewrite events_of_bind by assumption.
  apply omap_app.
Qed.

Lemma events_of_silent {A} (m : M A) w :
  log (exec m w) = log w → events_of m w = [].
Proof. intros H. unfold events_of. rewrite H. apply drop_all. Qed.

Lemma consumed_silent {A} (m : M A) w :
  log (exec m w) = log w → consumed m w = [].
Proof. intros H. unfold consumed. rewrite events_of_silent by exact H. reflexivity. Qed.

(** Unfolds the monad so that a computation applied to a world reduces. *)
Ltac unfold_m :=
  unfold exec, eval, mbind, M_bind, mret, M_ret, skip, emit, get_world,
    get_srv, modify_srv, mempool_add, GetRandInt, GetDSTX, AddDSTX in *;
  simpl in *.

Lemma events_of_ConsumeCollateral env tx w :
  events_of (ConsumeCollateral env tx) w
  = EvConsumeCollateral tx ::
    (if AcceptToMemoryPool env (mempool w) tx then [EvRelayTransaction tx] else []).
Proof.
  unfold events_of, ConsumeCollateral. unfold_m.
  destruct (AcceptToMemoryPool env (mempool w) tx); simpl.
  - rewrite <- app_assoc, drop_app_length. reflexivity.
  - rewrite drop_app_length. reflexivity.
Qed.

Lemma consumed_ConsumeCollateral env tx w :
  consumed (ConsumeCollateral env tx) w = [tx].
Proof.
  unfold consumed. rewrite events_of_ConsumeCollateral.
  destruct (AcceptToMemoryPool env (mempool w) tx); reflexivity.
Qed.

(** ** C7: advertisements out of their time bounds *)

Lemma IsTimeOutOfBounds_two_sided env q :
  IsTimeOutOfBounds env q = true
  ↔ nTime q - GetAdjustedTime env > PRIVATESEND_QUEUE_TIMEOUT ∨
    GetAdjustedTime env - nTime q > PRIVATESEND_QUEUE_TIMEOUT.
Proof. unfold IsTimeOutOfBounds. rewrite Z.gtb_gt. lia. Qed.

(** The DSQUEUE handler drops an advertisement that its time check
    reports out of bounds: nothing at all changes. *)
Lemma DSQUEUE_out_of_bounds_dropped env pfrom dsq w :
  obsolete pfrom = false →
  IsTimeOutOfBounds env dsq = true →
  exec (ProcessMessage env pfrom (DSQUEUE dsq)) w = w.
Proof.
  intros Hv Ht. unfold ProcessMessage, ProcessMessage_DSQUEUE.
  rewrite Hv, Ht.
  destruct (negb (fMasternodeMode env)); [reflexivity |].
  destruct (fLiteMode env); [reflexivity |].
  destruct (negb (IsBlockchainSynced env)); [reflexivity |].
  destruct (negb (tryLock_cs_vecqueue env)); [reflexivity |].
  unfold_m. destruct (existsb _ _); reflexivity.
Qed.

(** A message from an obsolete peer gets a REJECT and nothing else. *)
Lemma DSQUEUE_obsolete env pfrom dsq w :
  obsolete pfrom = true →
  exec (ProcessMessage env pfrom (DSQUEUE dsq)) w = w ∨
  exec (ProcessMessage env pfrom (DSQUEUE dsq)) w
  = exec (emit (EvReject (node_addr pfrom))) w.
Proof.
  intros Hv. unfold ProcessMessage, ProcessMessage_DSQUEUE. rewrite Hv.
  destruct (negb (fMasternodeMode env)); [left; reflexivity |].
  destruct (fLiteMode env); [left; reflexivity |].
  destruct (negb (IsBlockchainSynced env)); [left; reflexivity |].
  right. reflexivity.
Qed.

(** C7.  The time check of an advertisement is true exactly when the
    clock and the timestamp are more than [PRIVATESEND_QUEUE_TIMEOUT]
    (30 s) apart, whichever of the two is ahead.  The DSQUEUE handler
    drops an advertisement stamped more than 30 s in the future just as
    one stamped more than 30 s in the past: from a peer of an accepted
    version the message has no effect at all, and from any peer it
    leaves the session, the advertisement ledger, the mempool and the
    broadcast index as they were, is not relayed, and causes at most the
    REJECT that an obsolete peer gets for any advertisement. *)
Theorem DSQUEUE_drops_out_of_bounds env pfrom dsq w :
  (IsTimeOutOfBounds env dsq = true
   ↔ Z.abs (GetAdjustedTime env - nTime dsq) > PRIVATESEND_QUEUE_TIMEOUT) ∧
  (nTime dsq - GetAdjustedTime env > PRIVATESEND_QUEUE_TIMEOUT ∨
   GetAdjustedTime env - nTime dsq > PRIVATESEND_QUEUE_TIMEOUT →
   (MIN_PRIVATESEND_PEER_PROTO_VERSION ≤ nVersion pfrom →
    exec (ProcessMessage env pfrom (DSQUEUE dsq)) w = w) ∧
   srv (exec (ProcessMessage env pfrom (DSQUEUE dsq)) w) = srv w ∧
   nDsqCount (exec (ProcessMessage env pfrom (DSQUEUE dsq)) w) = nDsqCount w ∧
   mapLastDsq (exec (ProcessMessage env pfrom (DSQUEUE dsq)) w) = mapLastDsq w ∧
   mempool (exec (ProcessMessage env pfrom (DSQUEUE dsq)) w) = mempool w ∧
   mapDSTX (exec (ProcessMessage env pfrom (DSQUEUE dsq)) w) = mapDSTX w ∧
   (events_of (ProcessMessage env pfrom (DSQUEUE dsq)) w = [] ∨
    events_of (ProcessMessage env pfrom (DSQUEUE dsq)) w
    = [EvReject (node_addr pfrom)])).
Proof.
  split.
  - unfold IsTimeOutOfBounds. rewrite Z.gtb_gt. lia.
  - intros Hfar. apply IsTimeOutOfBounds_two_sided in Hfar.
    destruct (obsolete pfrom) eqn:Hv.
    + split.
      { intros Hok. apply Z.ltb_lt in Hv. lia. }
      destruct (DSQUEUE_obsolete env pfrom dsq w Hv) as [E | E].
      * unfold events_of. rewrite E, drop_all.
        repeat split; try reflexivity. left. reflexivity.
      * unfold events_of. rewrite E. simpl. rewrite drop_app_length.
        repeat split; try reflexivity. right. reflexivity.
    + pose proof (DSQUEUE_out_of_bounds_dropped env pfrom dsq w Hv Hfar) as E.
      unfold events_of. rewrite E, drop_all.
      repeat split; try reflexivity. left. reflexivity.
Qed.

(** An advertisement stamped 31 s ahead of the clock, and one stamped
    31 s behind it. *)
Lemma DSQUEUE_drops_out_of_bounds_witness :
  exec (ProcessMessage env_all_up (peer 1)
          (DSQUEUE (mkQueue 1 (mkOutPoint 88 0) 1031 false [9]))) init_world
  = init_world ∧
  exec (ProcessMessage env_all_up (peer 1)
          (DSQUEUE (mkQueue 1 (mkOutPoint 88 0) 969 false [9]))) init_world
  = init_world.
Proof.
  destruct (DSQUEUE_drops_out_of_bounds env_all_up (peer 1)
              (mkQueue 1 (mkOutPoint 88 0) 1031 false [9]) init_world)
    as [_ H1].
  destruct (DSQUEUE_drops_out_of_bounds env_all_up (peer 1)
              (mkQueue 1 (mkOutPoint 88 0) 969 false [9]) init_world)
    as [_ H2].
  split.
  - apply H1; [left; vm_compute; reflexivity | vm_compute; discriminate].
  - apply H2; [right; vm_compute; reflexivity | vm_compute; discriminate].
Defined.

(** ** Relays to the participants *)

Lemma relay_or_reject_respects (R : relation World) `{!PreOrder R} env l push :
  (∀ to, respects R (push to)) →
  respects R (RelayStatus env STATUS_REJECTED MSG_NOERR) →
  respects R (relay_or_reject env l push).
Proof.
  intros Hp Hr. induction l as [|e l IH]; simpl; respects_auto.
Qed.

Lemma RelayFinalTransaction_respects (R : relation World) `{!PreOrder R} env tx :
  (∀ e, respects R (emit e)) →
  respects R (RelayStatus env STATUS_REJECTED MSG_NOERR) →
  respects R (RelayFinalTransaction env tx).
Proof.
  intros He Hr. unfold RelayFinalTransaction. respects_auto.
  apply relay_or_reject_respects; auto.
Qed.

Lemma RelayCompletedTransaction_respects (R : relation World) `{!PreOrder R}
      env msg :
  (∀ e, respects R (emit e)) →
  respects R (RelayStatus env STATUS_REJECTED MSG_NOERR) →
  respects R (RelayCompletedTransaction env msg).
Proof.
  intros He Hr. unfold RelayCompletedTransaction. respects_auto.
  apply relay_or_reject_respects; auto.
Qed.

Lemma emit_keeps I e : respects (keeps I) (emit e).
Proof. apply respects_same_srv_keeps, emit_same_srv. Qed.

Lemma emit_logging e : respects (logs any_event) (emit e).
Proof. apply emit_logs. exact I. Qed.

Lemma RelayFinalTransaction_keeps env tx :
  respects (keeps pool_inv) (RelayFinalTransaction env tx).
Proof.
  apply RelayFinalTransaction_respects;
    [apply _ | apply emit_keeps | apply RelayStatus_keeps].
Qed.

Lemma RelayCompletedTransaction_keeps env msg :
  respects (keeps pool_inv) (RelayCompletedTransaction env msg).
Proof.
  apply RelayCompletedTransaction_respects;
    [apply _ | apply emit_keeps | apply RelayStatus_keeps].
Qed.

Lemma RelayCompletedTransaction_same_dstx env msg :
  respects same_dstx (RelayCompletedTransaction env msg).
Proof.
  apply RelayCompletedTransaction_respects;
    [apply _ | apply emit_same_dstx | apply RelayStatus_same_dstx].
Qed.

Lemma RelayCompletedTransaction_logging env msg :
  respects (logs any_event) (RelayCompletedTransaction env msg).
Proof.
  apply RelayCompletedTransaction_respects;
    [apply _ | apply emit_logging | apply RelayStatus_logs; intros; exact I].
Qed.

Lemma RelayFinalTransaction_logging env tx :
  respects (logs any_event) (RelayFinalTransaction env tx).
Proof.
  apply RelayFinalTransaction_respects;
    [apply _ | apply emit_logging | apply RelayStatus_logs; intros; exact I].
Qed.

#[global] Hint Resolve RelayFinalTransaction_keeps RelayCompletedTransaction_keeps
  RelayCompletedTransaction_same_dstx RelayCompletedTransaction_logging
  RelayFinalTransaction_logging : respects.

(** ** The random charge after a successful mix *)

Lemma ChargeRandomFees_loop_respects (R : relation World) `{!PreOrder R} env l :
  respects R (GetRandInt env 100) →
  (∀ tx, respects R (ConsumeCollateral env tx)) →
  respects R (ChargeRandomFees_loop env l).
Proof.
  intros Hr Hc. induction l as [|tx l IH]; simpl; respects_auto.
Qed.

Lemma ChargeRandomFees_respects (R : relation World) `{!PreOrder R} env :
  respects R (GetRandInt env 100) →
  (∀ tx, respects R (ConsumeCollateral env tx)) →
  respects R (ChargeRandomFees env).
Proof.
  intros Hr Hc. unfold ChargeRandomFees. respects_auto.
  apply ChargeRandomFees_loop_respects; auto.
Qed.

Lemma ChargeRandomFees_same_srv env : respects same_srv (ChargeRandomFees env).
Proof. apply ChargeRandomFees_respects; [apply _ | |]; auto with respects. Qed.

Lemma ChargeRandomFees_same_dstx env : respects same_dstx (ChargeRandomFees env).
Proof. apply ChargeRandomFees_respects; [apply _ | |]; auto with respects. Qed.

Lemma ChargeRandomFees_logging env :
  respects (logs any_event) (ChargeRandomFees env).
Proof. apply ChargeRandomFees_respects; [apply _ | |]; auto with respects. Qed.

#[global] Hint Resolve ChargeRandomFees_same_srv ChargeRandomFees_same_dstx
  ChargeRandomFees_logging : respects.

Lemma ConsumeCollateral_nRandCalls env tx w :
  nRandCalls (exec (ConsumeCollateral env tx) w) = nRandCalls w.
Proof.
  unfold ConsumeCollateral. unfold_m.
  destruct (AcceptToMemoryPool env (mempool w) tx); reflexivity.
Qed.

Lemma ConsumeCollateral_srv env tx w :
  srv (exec (ConsumeCollateral env tx) w) = srv w.
Proof. apply ConsumeCollateral_same_srv. Qed.

(** The loop charges a prefix of the list: it stops at the first draw
    above 10 and never looks at the collaterals behind it. *)
Lemma ChargeRandomFees_loop_consumed env l w :
  consumed (ChargeRandomFees_loop env l) w
  = take (charged_prefix env (nRandCalls w) (length l)) l.
Proof.
  revert w. induction l as [|tx l IH]; intros w; simpl.
  - apply consumed_silent. reflexivity.
  - rewrite consumed_bind; [| auto with respects |].
    2:{ intros r. respects_auto.
        apply ChargeRandomFees_loop_respects; [apply _ | |]; auto with respects. }
    rewrite (consumed_silent (GetRandInt env 100)) by reflexivity. simpl.
    change (eval (GetRandInt env 100) w) with (RandRaw env (nRandCalls w) `mod` 100).
    destruct (RandRaw env (nRandCalls w) `mod` 100 >? 10).
    + apply consumed_silent. reflexivity.
    + rewrite consumed_bind; [| auto with respects |].
      2:{ intros _. apply ChargeRandomFees_loop_respects; [apply _ | |];
            auto with respects. }
      rewrite consumed_ConsumeCollateral, IH, ConsumeCollateral_nRandCalls.
      reflexivity.
Qed.

Lemma ChargeRandomFees_consumed env w :
  fMasternodeMode env = true →
  consumed (ChargeRandomFees env) w
  = take (charged_prefix env (nRandCalls w)
                         (length (vecSessionCollaterals (srv w))))
         (vecSessionCollaterals (srv w)).
Proof.
  intros Hmn. unfold ChargeRandomFees. rewrite Hmn. simpl.
  rewrite consumed_bind; [| respects_auto |].
  2:{ intros s. apply ChargeRandomFees_loop_respects; [apply _ | |];
        auto with respects. }
  rewrite (consumed_silent get_srv) by reflexivity. simpl.
  apply ChargeRandomFees_loop_consumed.
Qed.

(** C9, the code at the failing input.  Three collaterals, draws 5, 50, 5:
    [ChargeRandomFees] charges the first collateral, returns at the second
    draw and never draws for the third, so only two draws are taken; the
    spec's per-collateral coin flip charges the first and the third.  The
    same shows on the whole path, when the last signature arrives. *)
Theorem ChargeRandomFees_early_return :
  vecSessionCollaterals (srv world_two_signed)
    = [collateral_of 1; collateral_of 2; collateral_of 3] ∧
  consumed (ChargeRandomFees env_last_signature) world_two_signed
    = [collateral_of 1] ∧
  nRandCalls (exec (ChargeRandomFees env_last_signature)
                   world_two_signed)
    = (nRandCalls world_two_signed + 2)%nat ∧
  consumed (charge_random_fees_spec env_last_signature
              (vecSessionCollaterals (srv world_two_signed))) world_two_signed
    = [collateral_of 1; collateral_of 3] ∧
  consumed (ProcessMessage env_last_signature (peer 3)
              (DSSIGNFINALTX [signed 3 2 [71; 4]])) world_two_signed
    = [collateral_of 1].
Proof.
  split; [vm_compute; reflexivity |].
  split; [vm_compute; reflexivity |].
  split; [vm_compute; reflexivity |].
  split; vm_compute; reflexivity.
Qed.

(** ** C1: committing the final transaction *)

Lemma ConsumeCollateral_logs (P : Event → Prop) env tx :
  P (EvConsumeCollateral tx) → P (EvRelayTransaction tx) →
  respects (logs P) (ConsumeCollateral env tx).
Proof.
  intros H1 H2. unfold ConsumeCollateral. respects_auto; apply emit_logs; assumption.
Qed.

Lemma only_idle_state_other e :
  (∀ st, e ≠ EvState st) → only_idle_state e.
Proof. intros H st E. destruct (H st E). Qed.

Lemma CommitFinalTransaction_logs_idle env :
  respects (logs only_idle_state) (CommitFinalTransaction env).
Proof.
  assert (Hemit : ∀ e, (∀ st, e ≠ EvState st) →
                       respects (logs only_idle_state) (emit e)).
  { intros e He. apply emit_logs, only_idle_state_other, He. }
  assert (Hidle : only_idle_state (EvState POOL_STATE_IDLE)).
  { intros st E. congruence. }
  assert (Hrelay : ∀ msg, respects (logs only_idle_state)
                            (RelayCompletedTransaction env msg)).
  { intros msg. unfold RelayCompletedTransaction. respects_auto.
    apply relay_or_reject_respects; [apply _ | |].
    - intros to. apply Hemit. discriminate.
    - apply RelayStatus_logs; [| exact Hidle].
      intros [] He; try contradiction. apply only_idle_state_other. discriminate. }
  unfold CommitFinalTransaction. respects_auto;
    try solve [apply SetNull_logs, Hidle | apply Hrelay
              | apply Hemit; discriminate].
  apply ChargeRandomFees_respects; [apply _ | auto with respects |].
  intros tx. apply ConsumeCollateral_logs; apply only_idle_state_other; discriminate.
Qed.

Lemma CheckPool_signing env w :
  fMasternodeMode env = true →
  nState (srv w) = POOL_STATE_SIGNING →
  IsSignaturesComplete (srv w) = true →
  CheckPool env w = CommitFinalTransaction env w.
Proof.
  intros Hmn Hst Hsig. unfold CheckPool. rewrite Hmn. unfold_m.
  rewrite Hst, Hsig. reflexivity.
Qed.

(** The part of a successful commit that follows the bookkeeping of the
    broadcast record touches neither the record index nor, in the end,
    leaves anything of the session. *)
Lemma commit_tail_same_dstx env h :
  respects same_dstx
    (emit (EvRelayInv h) ;; RelayCompletedTransaction env MSG_SUCCESS ;;
     ChargeRandomFees env ;; SetNull env).
Proof. respects_auto. Qed.

Lemma commit_tail_srv env h w :
  srv (exec (emit (EvRelayInv h) ;; RelayCompletedTransaction env MSG_SUCCESS ;;
             ChargeRandomFees env ;; SetNull env) w)
  = null_server (GetTime env).
Proof. rewrite !exec_bind. apply SetNull_srv. Qed.

Lemma commit_tail_events env h w :
  EvRelayInv h ∈
    events_of (emit (EvRelayInv h) ;; RelayCompletedTransaction env MSG_SUCCESS ;;
               ChargeRandomFees env ;; SetNull env) w.
Proof.
  rewrite events_of_bind; [| apply emit_logging | intros _; respects_auto].
  apply elem_of_app. left. unfold events_of. unfold_m.
  rewrite drop_app_length. apply list_elem_of_here.
Qed.

(** With the lock taken and the transaction accepted, the commit puts the
    transaction into the mempool, files the broadcast record unless the
    hash is already filed, and runs the relays, the random charge and the
    reset from there. *)
Lemma CommitFinalTransaction_accepted env w :
  fMasternodeMode env = true →
  tryLock_cs_main env = true →
  AcceptToMemoryPool env (mempool w) (finalMutableTransaction (srv w)) = true →
  let final := finalMutableTransaction (srv w) in
  let h := GetHash env final in
  let dstxNew := mkDSTX final (activeMasternodeOutpoint env)
                   (SignBroadcastTx env
                      (mkDSTX final (activeMasternodeOutpoint env) []
                              (GetAdjustedTime env)))
                   (GetAdjustedTime env) in
  exec (CommitFinalTransaction env) w
  = exec (emit (EvRelayInv h) ;; RelayCompletedTransaction env MSG_SUCCESS ;;
          ChargeRandomFees env ;; SetNull env)
         (mkWorld (srv w)
                  (match mapDSTX w !! h with
                   | Some _ => mapDSTX w
                   | None => <[h := dstxNew]> (mapDSTX w)
                   end)
                  (mempool w ++ [final]) (nDsqCount w) (mapLastDsq w)
                  (nRandCalls w) (log w)).
Proof.
  intros Hmn Hlock Hacc final h dstxNew.
  unfold CommitFinalTransaction. rewrite Hmn. simpl negb. cbv iota.
  rewrite exec_bind. change (eval get_srv w) with (srv w).
  change (exec get_srv w) with w.
  rewrite exec_bind. change (eval get_world w) with w.
  change (exec get_world w) with w. cbv zeta.
  rewrite Hlock, Hacc. simpl orb. cbv iota.
  fold final. fold h.
  rewrite exec_bind. set (w1 := exec (mempool_add final) w).
  rewrite exec_bind. change (eval (GetDSTX h) w1) with (mapDSTX w !! h).
  change (exec (GetDSTX h) w1) with w1.
  rewrite exec_bind. f_equal.
  destruct (mapDSTX w !! h) eqn:E.
  - reflexivity.
  - unfold exec, AddDSTX, w1, mempool_add. simpl. rewrite E. reflexivity.
Qed.

(** C1, as stated, fails: with the world in Signing, every input signed
    and the mempool accepting, [CheckPool] commits, yet the session is
    never put into [POOL_STATE_SUCCESS]: no such assignment is logged, the
    session ends in Idle, and [SetState] refuses the value. *)
Lemma commit_never_success_counterexample :
  nState (srv world_all_signed) = POOL_STATE_SIGNING ∧
  IsSignaturesComplete (srv world_all_signed) = true ∧
  AcceptToMemoryPool env_last_signature
    (mempool world_all_signed)
    (finalMutableTransaction (srv world_all_signed)) = true ∧
  ¬ (EvState POOL_STATE_SUCCESS
       ∈ events_of (CheckPool env_last_signature) world_all_signed
     ∨ nState (srv (exec (CheckPool env_last_signature)
                         world_all_signed)) = POOL_STATE_SUCCESS) ∧
  nState (srv (exec (SetState env_last_signature
                              POOL_STATE_SUCCESS) world_all_signed))
    = POOL_STATE_SIGNING.
Proof.
  split; [vm_compute; reflexivity |]. split; [vm_compute; reflexivity |].
  split; [vm_compute; reflexivity |].
  split; [| vm_compute; reflexivity].
  intros [H | H].
  - vm_compute in H. repeat (apply elem_of_cons in H as [H | H]; [discriminate H |]).
    inversion H.
  - vm_compute in H. discriminate H.
Qed.

(** C1, amended.  When the session is in Signing, every input of every
    entry carries a signature, the chain lock is taken and the mempool
    accepts the final transaction, [CheckPool] commits: the session is
    reset to the null idle state, every state assignment logged on the
    way is a reset to Idle (the server never takes the state Success),
    the inventory of the transaction is relayed, and afterwards the
    broadcast index holds exactly one record under the hash of the final
    transaction: a new record of that transaction if the hash was not
    filed, the record that was there, unchanged, if it was.  Other hashes
    are not touched. *)
Theorem CheckPool_commits_final_transaction env w :
  fMasternodeMode env = true →
  nState (srv w) = POOL_STATE_SIGNING →
  IsSignaturesComplete (srv w) = true →
  tryLock_cs_main env = true →
  AcceptToMemoryPool env (mempool w) (finalMutableTransaction (srv w)) = true →
  srv (exec (CheckPool env) w) = null_server (GetTime env) ∧
  Forall only_idle_state (events_of (CheckPool env) w) ∧
  EvRelayInv (GetHash env (finalMutableTransaction (srv w)))
    ∈ events_of (CheckPool env) w ∧
  (∃ d, mapDSTX (exec (CheckPool env) w)
          !! GetHash env (finalMutableTransaction (srv w)) = Some d ∧
        (mapDSTX w !! GetHash env (finalMutableTransaction (srv w)) = None →
         dstx_tx d = finalMutableTransaction (srv w) ∧
         dstx_masternodeOutpoint d = activeMasternodeOutpoint env ∧
         sigTime d = GetAdjustedTime env) ∧
        (∀ d0, mapDSTX w !! GetHash env (finalMutableTransaction (srv w)) = Some d0 →
               d = d0)) ∧
  (∀ k, k ≠ GetHash env (finalMutableTransaction (srv w)) →
        mapDSTX (exec (CheckPool env) w) !! k = mapDSTX w !! k).
Proof.
  intros Hmn Hst Hsig Hlock Hacc.
  assert (Hcp : exec (CheckPool env) w = exec (CommitFinalTransaction env) w).
  { unfold exec. rewrite CheckPool_signing by assumption. reflexivity. }
  assert (Hev : events_of (CheckPool env) w
                = events_of (CommitFinalTransaction env) w).
  { unfold events_of. rewrite Hcp. reflexivity. }
  rewrite Hev, Hcp.
  pose proof (CommitFinalTransaction_accepted env w Hmn Hlock Hacc) as Heq.
  cbv zeta in Heq.
  set (h := GetHash env (finalMutableTransaction (srv w))) in *.
  split; [rewrite Heq; apply commit_tail_srv |].
  split; [apply logs_events_of, CommitFinalTransaction_logs_idle |].
  split.
  { unfold events_of. rewrite Heq.
    match goal with
    | |- context [exec _ ?w2] => exact (commit_tail_events env h w2)
    end. }
  rewrite Heq. rewrite (commit_tail_same_dstx env h). simpl mapDSTX.
  destruct (mapDSTX w !! h) as [d0|] eqn:E.
  - split.
    + exists d0. split; [exact E |]. split; [discriminate |].
      intros d1 Hd1. congruence.
    + intros k _. reflexivity.
  - split.
    + eexists. split; [apply lookup_insert_eq |].
      split; [intros _; repeat split | discriminate].
    + intros k Hk. apply lookup_insert_ne. congruence.
Qed.

Lemma CheckPool_commits_final_transaction_witness :
  srv (exec (CheckPool env_last_signature) world_all_signed)
    = null_server (GetTime env_last_signature) ∧
  Forall only_idle_state (events_of (CheckPool env_last_signature) world_all_signed) ∧
  EvRelayInv (GetHash env_last_signature
                (finalMutableTransaction (srv world_all_signed)))
    ∈ events_of (CheckPool env_last_signature) world_all_signed ∧
  (∃ d, mapDSTX (exec (CheckPool env_last_signature) world_all_signed)
          !! GetHash env_last_signature
               (finalMutableTransaction (srv world_all_signed)) = Some d ∧
        (mapDSTX world_all_signed
           !! GetHash env_last_signature
                (finalMutableTransaction (srv world_all_signed)) = None →
         dstx_tx d = finalMutableTransaction (srv world_all_signed) ∧
         dstx_masternodeOutpoint d = activeMasternodeOutpoint env_last_signature ∧
         sigTime d = GetAdjustedTime env_last_signature) ∧
        (∀ d0, mapDSTX world_all_signed
                 !! GetHash env_last_signature
                      (finalMutableTransaction (srv world_all_signed)) = Some d0 →
               d = d0)) ∧
  (∀ k, k ≠ GetHash env_last_signature
              (finalMutableTransaction (srv world_all_signed)) →
        mapDSTX (exec (CheckPool env_last_signature) world_all_signed) !! k
        = mapDSTX world_all_signed !! k).
Proof.
  apply (CheckPool_commits_final_transaction env_last_signature world_all_signed);
    vm_compute; reflexivity.
Defined.

(** ** C4: the canonical order of the final transaction *)

Lemma input_key_le_not_after a b :
  not_after CompareInputBIP69 a b ↔ input_key_le a b.
Proof.
  unfold not_after, CompareInputBIP69, input_key_le.
  rewrite orb_false_iff, andb_false_iff, !Z.ltb_ge, Z.eqb_neq. lia.
Qed.

#[global] Instance CompareInputBIP69_total : Total (not_after CompareInputBIP69).
Proof.
  intros a b. rewrite !input_key_le_not_after. unfold input_key_le. lia.
Qed.

#[global] Instance CompareInputBIP69_trans :
  Transitive (not_after CompareInputBIP69).
Proof.
  intros a b c. rewrite !input_key_le_not_after. unfold input_key_le. lia.
Qed.

Lemma script_ltb_asym a b : script_ltb a b = true → script_ltb b a = false.
Proof.
  revert b. induction a as [|x a IH]; intros [|y b]; simpl; try congruence.
  rewrite orb_true_iff, andb_true_iff, orb_false_iff, andb_false_iff.
  rewrite !Z.ltb_lt, !Z.ltb_ge, Z.eqb_eq, Z.eqb_neq.
  intros [H | [H1 H2]]; [split; lia |].
  split; [lia |]. right. apply IH, H2.
Qed.

Lemma script_le_trans a b c :
  script_ltb b a = false → script_ltb c b = false → script_ltb c a = false.
Proof.
  revert b c. induction a as [|x a IH]; intros [|y b] [|z c]; simpl;
    try congruence.
  rewrite !orb_false_iff, !andb_false_iff, !Z.ltb_ge, !Z.eqb_neq.
  intros [H1 H2] [H3 H4]. split; [lia |].
  destruct (decide (z = x)) as [->|Hzx]; [| left; exact Hzx].
  right. assert (y = x) by lia. subst y.
  destruct H2 as [? | H2]; [lia |]. destruct H4 as [? | H4]; [lia |].
  eapply IH; eassumption.
Qed.

Lemma output_key_le_not_after a b :
  not_after CompareOutputBIP69 a b ↔ output_key_le a b.
Proof.
  unfold not_after, CompareOutputBIP69, output_key_le.
  rewrite orb_false_iff, andb_false_iff, Z.ltb_ge, Z.eqb_neq.
  destruct (script_ltb (scriptPubKey b) (scriptPubKey a)); split; intros H.
  - destruct H as [H1 [H2 | H2]]; [left; lia | discriminate].
  - destruct H as [H | [_ H]]; [lia | discriminate].
  - destruct H as [H1 _]. destruct (decide (nValue a = nValue b)); [right | left];
      (split || idtac); auto; lia.
  - split; [lia | right; reflexivity].
Qed.

#[global] Instance CompareOutputBIP69_total : Total (not_after CompareOutputBIP69).
Proof.
  intros a b. rewrite !output_key_le_not_after. unfold output_key_le.
  destruct (Z.lt_trichotomy (nValue a) (nValue b)) as [H | [H | H]];
    [left; left; exact H | | right; left; exact H].
  destruct (script_ltb (scriptPubKey b) (scriptPubKey a)) eqn:E.
  - right. right. split; [lia |]. apply script_ltb_asym, E.
  - left. right. split; [exact H | reflexivity].
Qed.

#[global] Instance CompareOutputBIP69_trans :
  Transitive (not_after CompareOutputBIP69).
Proof.
  intros a b c. rewrite !output_key_le_not_after. unfold output_key_le.
  intros [H1 | [H1 H2]] [H3 | [H3 H4]]; try (left; lia).
  right. split; [lia |]. eapply script_le_trans; eassumption.
Qed.

Lemma StronglySorted_weaken {A} (R S : relation A) (l : list A) :
  (∀ a b, R a b → S a b) → StronglySorted R l → StronglySorted S l.
Proof.
  intros H. induction 1 as [|x l Hl IH Hx]; constructor.
  - exact IH.
  - eapply Forall_impl; [exact Hx | intros y; apply H].
Qed.

Lemma std_sort_Permutation {A} (comp : A → A → bool) l :
  std_sort comp l ≡ₚ l.
Proof. apply merge_sort_Permutation. Qed.

Lemma std_sort_inputs_sorted l :
  StronglySorted input_key_le (std_sort CompareInputBIP69 l).
Proof.
  apply StronglySorted_weaken with (R := not_after CompareInputBIP69).
  - intros a b. apply input_key_le_not_after.
  - apply StronglySorted_merge_sort; apply _.
Qed.

Lemma std_sort_outputs_sorted l :
  StronglySorted output_key_le (std_sort CompareOutputBIP69 l).
Proof.
  apply StronglySorted_weaken with (R := not_after CompareOutputBIP69).
  - intros a b. apply output_key_le_not_after.
  - apply StronglySorted_merge_sort; apply _.
Qed.

(** The two loops collect the inputs and the outputs in entry order. *)
Lemma fold_push_entry l tx :
  fold_left push_entry l tx
  = mkTx (vin tx ++ entries_inputs l) (vout tx ++ entries_outputs l).
Proof.
  revert tx. induction l as [|e l IH]; intros tx; simpl.
  - rewrite !app_nil_r. destruct tx; reflexivity.
  - rewrite IH. unfold push_entry. simpl. rewrite <- !app_assoc. reflexivity.
Qed.

Lemma relay_or_reject_srv env l push w :
  (∀ to, respects same_srv (push to)) →
  srv (exec (relay_or_reject env l push) w)
  = if existsb (λ e, negb (ForNode env (addr e))) l &&
       (negb (bool_decide (vecEntries (srv w) = [])) &&
        all_disconnected env (vecEntries (srv w)))
    then null_server (GetTime env) else srv w.
Proof.
  intros Hp. revert w. induction l as [|e l IH]; intros w; simpl.
  - reflexivity.
  - destruct (ForNode env (addr e)); simpl.
    + rewrite exec_bind, IH. rewrite (Hp (addr e) w). reflexivity.
    + apply RelayStatus_srv.
Qed.

Lemma all_disconnected_existsb env l :
  l ≠ [] → all_disconnected env l = true →
  existsb (λ e, negb (ForNode env (addr e))) l = true.
Proof.
  destruct l as [|e l]; [congruence |]. intros _. unfold all_disconnected. simpl.
  intros H. apply andb_true_iff in H as [-> _]. reflexivity.
Qed.

(** After a relay to the participants of the session the server object
    is as before, unless there are entries and all their peers are gone. *)
Lemma relay_entries_srv env push w :
  (∀ to, respects same_srv (push to)) →
  srv (exec (relay_or_reject env (vecEntries (srv w)) push) w)
  = if negb (bool_decide (vecEntries (srv w) = [])) &&
       all_disconnected env (vecEntries (srv w))
    then null_server (GetTime env) else srv w.
Proof.
  intros Hp. rewrite relay_or_reject_srv by exact Hp.
  destruct (bool_decide (vecEntries (srv w) = [])) eqn:E; simpl.
  - rewrite andb_false_r. reflexivity.
  - apply bool_decide_eq_false in E.
    destruct (all_disconnected env (vecEntries (srv w))) eqn:Ea.
    + rewrite all_disconnected_existsb by assumption. reflexivity.
    + rewrite andb_false_r. reflexivity.
Qed.

Lemma SetState_srv env st w :
  srv (exec (SetState env st) w)
  = if negb (fMasternodeMode env) ||
       bool_decide (st = POOL_STATE_ERROR) || bool_decide (st = POOL_STATE_SUCCESS)
    then srv w else with_state st (GetTime env) (srv w).
Proof.
  unfold SetState. destruct (fMasternodeMode env); simpl; [| reflexivity].
  destruct (bool_decide (st = POOL_STATE_ERROR) ||
            bool_decide (st = POOL_STATE_SUCCESS)); reflexivity.
Qed.

(** The transaction [CreateFinalTransaction] assembles from the entries. *)
Lemma CreateFinalTransaction_srv env w :
  let txNew := mkTx (std_sort CompareInputBIP69
                       (entries_inputs (vecEntries (srv w))))
                    (std_sort CompareOutputBIP69
                       (entries_outputs (vecEntries (srv w)))) in
  srv (exec (CreateFinalTransaction env) w)
  = if negb (bool_decide (vecEntries (srv w) = [])) &&
       all_disconnected env (vecEntries (srv w))
    then null_server (GetTime env)
    else if fMasternodeMode env
         then with_state POOL_STATE_SIGNING (GetTime env)
                         (with_final txNew (srv w))
         else with_final txNew (srv w).
Proof.
  intros txNew. unfold CreateFinalTransaction.
  rewrite exec_bind. change (eval get_srv w) with (srv w).
  change (exec get_srv w) with w. cbv zeta.
  rewrite fold_push_entry. simpl vin. simpl vout. fold txNew.
  rewrite exec_bind.
  set (w1 := exec (modify_srv (with_final txNew)) w).
  rewrite exec_bind.
  set (w2 := exec (SetState env POOL_STATE_SIGNING) w1).
  assert (H2 : srv w2 = if fMasternodeMode env
                        then with_state POOL_STATE_SIGNING (GetTime env)
                                        (with_final txNew (srv w))
                        else with_final txNew (srv w)).
  { unfold w2. rewrite SetState_srv. destruct (fMasternodeMode env); reflexivity. }
  assert (He : vecEntries (srv w2) = vecEntries (srv w)).
  { rewrite H2. destruct (fMasternodeMode env); reflexivity. }
  unfold RelayFinalTransaction. rewrite exec_bind.
  change (eval get_srv w2) with (srv w2). change (exec get_srv w2) with w2.
  rewrite relay_entries_srv by (intros to; apply emit_same_srv).
  rewrite He, H2. reflexivity.
Qed.

(** C4, as stated, fails: the pool holds three entries with four inputs
    and every participant has disconnected.  [CreateFinalTransaction]
    assembles the transaction, finds nobody to relay it to, and
    [RelayStatus] resets the session: on return the final transaction is
    empty and not the sorted inputs of the three entries.  The
    maintenance tick reaches this through [CheckPool] once the pool has
    timed out. *)
Lemma CreateFinalTransaction_all_gone_counterexample :
  vecEntries (srv world_three_of_four) = [entry_A; entry_B; entry_C] ∧
  nState (srv world_three_of_four) = POOL_STATE_ACCEPTING_ENTRIES ∧
  finalMutableTransaction
    (srv (exec (CreateFinalTransaction env_all_gone_later) world_three_of_four))
  = mkTx [] [] ∧
  ¬ (vin (finalMutableTransaction
            (srv (exec (CreateFinalTransaction env_all_gone_later)
                       world_three_of_four)))
     ≡ₚ entries_inputs (vecEntries (srv world_three_of_four))) ∧
  srv (exec (DoMaintenance env_all_gone_later) world_three_of_four)
  = null_server 1061.
Proof.
  split; [vm_compute; reflexivity |].
  split; [vm_compute; reflexivity |].
  split; [vm_compute; reflexivity |].
  split; [| vm_compute; reflexivity].
  intros H. apply Permutation_length in H. vm_compute in H. discriminate H.
Qed.

(** Every DSFINALTX that [CreateFinalTransaction] sends carries the
    transaction handed to the relay. *)
Lemma CreateFinalTransaction_relays env w :
  Forall (λ e, ∀ to id tx, e = EvFinalTx to id tx →
               tx = mkTx (std_sort CompareInputBIP69
                            (entries_inputs (vecEntries (srv w))))
                         (std_sort CompareOutputBIP69
                            (entries_outputs (vecEntries (srv w)))))
         (events_of (CreateFinalTransaction env) w).
Proof.
  apply logs_events_of. unfold CreateFinalTransaction.
  rewrite exec_bind. change (eval get_srv w) with (srv w).
  change (exec get_srv w) with w. cbv zeta.
  rewrite fold_push_entry. simpl vin. simpl vout.
  set (txNew := mkTx _ _).
  set (P := λ e : Event, ∀ to id tx, e = EvFinalTx to id tx → tx = txNew).
  assert (H : respects (logs P)
                (modify_srv (with_final txNew) ;;
                 SetState env POOL_STATE_SIGNING ;;
                 RelayFinalTransaction env txNew)); [| apply H].
  respects_auto.
  - apply SetState_logs. intros to id tx E. discriminate E.
  - unfold RelayFinalTransaction. respects_auto.
    apply relay_or_reject_respects; [apply _ | |].
    + intros to. apply emit_logs. intros to' id tx E. congruence.
    + apply RelayStatus_logs.
      * intros [] He; try contradiction. intros to' id tx E. discriminate E.
      * intros to' id tx E. discriminate E.
Qed.

(** C4, amended.  [CreateFinalTransaction] assembles one transaction from
    the entries it finds, whatever their number: its inputs are a
    rearrangement of the inputs of all entries and ascend by
    (prev_hash, prev_index), its outputs are a rearrangement of the
    outputs of all entries and ascend by (amount, script); this is the
    only transaction it relays as final.  On return the final
    transaction of the session is this transaction and the entries are
    as they were, unless there are entries and the relay has found every
    participant disconnected: then the session has been reset to the
    null idle state, which holds no entry and no final transaction. *)
Theorem CreateFinalTransaction_canonical env w :
  ∃ txNew : CMutableTransaction,
    vin txNew ≡ₚ entries_inputs (vecEntries (srv w)) ∧
    vout txNew ≡ₚ entries_outputs (vecEntries (srv w)) ∧
    StronglySorted input_key_le (vin txNew) ∧
    StronglySorted output_key_le (vout txNew) ∧
    Forall (λ e, ∀ to id tx, e = EvFinalTx to id tx → tx = txNew)
           (events_of (CreateFinalTransaction env) w) ∧
    (vecEntries (srv w) = [] ∨ all_disconnected env (vecEntries (srv w)) = false →
     finalMutableTransaction (srv (exec (CreateFinalTransaction env) w)) = txNew ∧
     vecEntries (srv (exec (CreateFinalTransaction env) w)) = vecEntries (srv w) ∧
     (fMasternodeMode env = true →
      nState (srv (exec (CreateFinalTransaction env) w)) = POOL_STATE_SIGNING)) ∧
    (vecEntries (srv w) ≠ [] →
     all_disconnected env (vecEntries (srv w)) = true →
     srv (exec (CreateFinalTransaction env) w) = null_server (GetTime env)).
Proof.
  exists (mkTx (std_sort CompareInputBIP69 (entries_inputs (vecEntries (srv w))))
               (std_sort CompareOutputBIP69 (entries_outputs (vecEntries (srv w))))).
  pose proof (CreateFinalTransaction_srv env w) as H. cbv zeta in H.
  split; [apply std_sort_Permutation |].
  split; [apply std_sort_Permutation |].
  split; [apply std_sort_inputs_sorted |].
  split; [apply std_sort_outputs_sorted |].
  split; [apply CreateFinalTransaction_relays |].
  split.
  - intros Hc. rewrite H.
    assert (E : negb (bool_decide (vecEntries (srv w) = []))
                && all_disconnected env (vecEntries (srv w)) = false).
    { destruct Hc as [Hc | Hc].
      - rewrite (bool_decide_eq_true_2 _ Hc). reflexivity.
      - rewrite Hc. apply andb_false_r. }
    rewrite E. destruct (fMasternodeMode env); simpl.
    + split; [reflexivity |]. split; reflexivity.
    + split; [reflexivity |]. split; [reflexivity | discriminate].
  - intros Hne Hgone. rewrite H, Hgone, (bool_decide_eq_false_2 _ Hne). reflexivity.
Qed.

(** Three entries: with the participants connected the session keeps the
    assembled transaction, with all of them gone it is reset. *)
Lemma CreateFinalTransaction_canonical_witness :
  (vin (finalMutableTransaction
          (srv (exec (CreateFinalTransaction env_all_up) world_three_of_four)))
   ≡ₚ entries_inputs (vecEntries (srv world_three_of_four)) ∧
   StronglySorted input_key_le
     (vin (finalMutableTransaction
             (srv (exec (CreateFinalTransaction env_all_up) world_three_of_four)))) ∧
   vout (finalMutableTransaction
           (srv (exec (CreateFinalTransaction env_all_up) world_three_of_four)))
   ≡ₚ entries_outputs (vecEntries (srv world_three_of_four)) ∧
   StronglySorted output_key_le
     (vout (finalMutableTransaction
              (srv (exec (CreateFinalTransaction env_all_up) world_three_of_four))))) ∧
  srv (exec (CreateFinalTransaction env_all_gone_later) world_three_of_four)
  = null_server (GetTime env_all_gone_later).
Proof.
  destruct (CreateFinalTransaction_canonical env_all_up world_three_of_four)
    as (tx & Hin & Hout & Hsin & Hsout & _ & Hkept & _).
  destruct (CreateFinalTransaction_canonical env_all_gone_later world_three_of_four)
    as (_ & _ & _ & _ & _ & _ & _ & Hreset).
  split.
  - destruct Hkept as (E & _ & _); [right; vm_compute; reflexivity |].
    rewrite E. split; [exact Hin |]. split; [exact Hsin |].
    split; [exact Hout | exact Hsout].
  - apply Hreset; [vm_compute; discriminate | vm_compute; reflexivity].
Defined.

(** Scenario S6 of the spec: the entries offer (2,0), (1,5) and (1,1);
    the final transaction lists (1,1), (1,5), (2,0). *)
Example CreateFinalTransaction_S6 :
  map prevout (vin (finalMutableTransaction (srv world_signing)))
  = [mkOutPoint 1 1; mkOutPoint 1 5; mkOutPoint 2 0; mkOutPoint 3 2] ∧
  map prevout (entries_inputs (vecEntries (srv world_signing)))
  = [mkOutPoint 2 0; mkOutPoint 1 5; mkOutPoint 1 1; mkOutPoint 3 2].
Proof. split; vm_compute; reflexivity. Qed.

(** ** The pool invariant *)

Lemma pool_inv_mono s s' :
  vecEntries s' = vecEntries s →
  (length (vecSessionCollaterals s) ≤ length (vecSessionCollaterals s'))%nat →
  pool_inv s → pool_inv s'.
Proof. unfold pool_inv. intros -> Hc [H1 H2]. split; [lia | exact H2]. Qed.

Ltac keeps_modify :=
  apply modify_srv_keeps;
  let s := fresh "s" in let Hs := fresh "Hs" in
  intros s Hs; apply (pool_inv_mono s);
  [ reflexivity | simpl; rewrite ?length_app; lia | exact Hs ].

#[global] Hint Extern 3 (respects (keeps pool_inv) (modify_srv _)) =>
  keeps_modify : respects.

Lemma pairwise_disjoint_snoc l e :
  pairwise_disjoint l →
  Forall (λ e', ∀ o, o ∈ entry_outpoints e' → o ∉ entry_outpoints e) l →
  pairwise_disjoint (l ++ [e]).
Proof.
  induction l as [|x l IH]; simpl; intros H F.
  - split; [constructor | exact I].
  - destruct H as [Hx Hl]. inversion F as [|? ? Fx Fl]; subst.
    split; [| apply IH; assumption].
    apply Forall_app. split; [exact Hx |]. constructor; [exact Fx | constructor].
Qed.

Lemma pairwise_disjoint_ext l l' :
  map entry_outpoints l' = map entry_outpoints l →
  pairwise_disjoint l → pairwise_disjoint l'.
Proof.
  revert l'. induction l as [|x l IH]; intros [|x' l'] E; simpl in *;
    try discriminate; [auto |].
  injection E as Ex El. intros [Hx Hl]. split; [| apply IH; assumption].
  rewrite Ex. clear IH Hl Ex.
  revert l' El. induction Hx as [|y l Hy Hl IH]; intros [|y' l'] El;
    simpl in *; try discriminate; constructor.
  - injection El as Ey _. rewrite Ey. exact Hy.
  - injection El as _ El. apply IH, El.
Qed.

(** An entry none of whose inputs is in the pool shares no outpoint with
    an entry of the pool. *)
Lemma input_in_pool_false s entry :
  existsb (input_in_pool s) (vecTxDSIn entry) = false →
  Forall (λ e', ∀ o, o ∈ entry_outpoints e' → o ∉ entry_outpoints entry)
         (vecEntries s).
Proof.
  intros H. apply Forall_forall. intros e' He' o Ho Ho'.
  unfold entry_outpoints in Ho, Ho'.
  apply list_elem_of_fmap in Ho as (d' & -> & Hd').
  apply list_elem_of_fmap in Ho' as (d & Hd & Hdin).
  assert (Hex : existsb (input_in_pool s) (vecTxDSIn entry) = true);
    [| congruence].
  apply existsb_exists. exists d. split; [apply list_elem_of_In, Hdin |].
  unfold input_in_pool. apply existsb_exists. exists e'.
  split; [apply list_elem_of_In, He' |].
  apply existsb_exists. exists d'. split; [apply list_elem_of_In, Hd' |].
  apply bool_decide_eq_true. congruence.
Qed.

(** What [AddEntry] does to the server object: it appends the entry when
    it accepts it, and nothing else. *)
Lemma AddEntry_srv env entry msg w :
  srv (exec (AddEntry env entry msg) w)
  = if (eval (AddEntry env entry msg) w).1
    then with_entries (vecEntries (srv w) ++ [entry]) (srv w)
    else srv w.
Proof.
  unfold AddEntry, ConsumeCollateral. unfold_m.
  destruct (fMasternodeMode env); simpl; [| reflexivity].
  destruct (_ >=? _); simpl; [reflexivity |].
  destruct (IsCollateralValid env (txCollateral entry)); simpl; [| reflexivity].
  destruct (_ >? _); simpl.
  { destruct (AcceptToMemoryPool _ _ _); reflexivity. }
  destruct (existsb _ _); simpl; [reflexivity |].
  destruct (IsValidInOuts _ _ _ _ _) as [[ok m] c].
  destruct ok; simpl; [reflexivity |].
  destruct c; simpl; [destruct (AcceptToMemoryPool _ _ _) |]; reflexivity.
Qed.

(** [AddEntry] accepts only below the number of collaterals and only
    inputs that are new to the pool. *)
Lemma AddEntry_accepts env entry msg w :
  (eval (AddEntry env entry msg) w).1 = true →
  fMasternodeMode env = true ∧
  (length (vecEntries (srv w)) < length (vecSessionCollaterals (srv w)))%nat ∧
  IsCollateralValid env (txCollateral entry) = true ∧
  Z.of_nat (length (vecTxDSIn entry)) ≤ PRIVATESEND_ENTRY_MAX_SIZE ∧
  existsb (input_in_pool (srv w)) (vecTxDSIn entry) = false ∧
  (eval (AddEntry env entry msg) w).2 = MSG_ENTRIES_ADDED.
Proof.
  unfold AddEntry, ConsumeCollateral. unfold_m.
  destruct (fMasternodeMode env); simpl; [| discriminate].
  destruct (_ >=? _) eqn:E1; simpl; [discriminate |].
  destruct (IsCollateralValid env (txCollateral entry)); simpl; [| discriminate].
  destruct (_ >? _) eqn:E2; simpl.
  { destruct (AcceptToMemoryPool _ _ _); simpl; discriminate. }
  destruct (existsb _ _); simpl; [discriminate |].
  destruct (IsValidInOuts _ _ _ _ _) as [[ok m] c]. destruct ok; simpl.
  - intros _. rewrite Z.geb_leb in E1. apply Z.leb_gt in E1.
    rewrite Z.gtb_ltb in E2. apply Z.ltb_ge in E2.
    repeat split; try reflexivity; lia.
  - destruct c; simpl; [destruct (AcceptToMemoryPool _ _ _) |]; simpl; discriminate.
Qed.

Lemma AddEntry_keeps env entry msg :
  respects (keeps pool_inv) (AddEntry env entry msg).
Proof.
  intros w [H1 H2]. rewrite AddEntry_srv.
  destruct (eval (AddEntry env entry msg) w).1 eqn:E; [| split; assumption].
  apply AddEntry_accepts in E as (_ & Hlt & _ & _ & Hnew & _).
  split; simpl.
  - rewrite length_app. simpl. lia.
  - apply pairwise_disjoint_snoc; [exact H2 |]. apply input_in_pool_false, Hnew.
Qed.

(** *** [AddScriptSig] *)

Lemma sign_first_outpoints txin l l' :
  sign_first txin l = Some l' →
  map (λ d, prevout (dsin_txin d)) l' = map (λ d, prevout (dsin_txin d)) l.
Proof.
  revert l'. induction l as [|d l IH]; intros l'; simpl; [discriminate |].
  destruct (matches_input txin (dsin_txin d)).
  - destruct (fHasSig d); [discriminate |]. intros [= <-]. reflexivity.
  - destruct (sign_first txin l) as [r|]; simpl; [| discriminate].
    intros [= <-]. simpl. f_equal. apply IH. reflexivity.
Qed.

Lemma Entry_AddScriptSig_outpoints txin e e' :
  Entry_AddScriptSig txin e = Some e' → entry_outpoints e' = entry_outpoints e.
Proof.
  unfold Entry_AddScriptSig. destruct (sign_first txin (vecTxDSIn e)) as [ins|] eqn:E;
    simpl; [| discriminate].
  intros [= <-]. unfold entry_outpoints. simpl. apply (sign_first_outpoints txin), E.
Qed.

Lemma sign_first_entry_outpoints txin l l' :
  sign_first_entry txin l = Some l' →
  map entry_outpoints l' = map entry_outpoints l.
Proof.
  revert l'. induction l as [|e l IH]; intros l'; simpl; [discriminate |].
  destruct (Entry_AddScriptSig txin e) as [e'|] eqn:E.
  - intros [= <-]. simpl. f_equal. apply (Entry_AddScriptSig_outpoints txin), E.
  - destruct (sign_first_entry txin l) as [r|]; simpl; [| discriminate].
    intros [= <-]. simpl. f_equal. apply IH. reflexivity.
Qed.

(** [AddScriptSig] on a world, step by step. *)
Lemma AddScriptSig_run env txin w :
  AddScriptSig env txin w
  = if existsb (λ entry,
         existsb (λ txdsin,
                    bool_decide (scriptSig (dsin_txin txdsin) = scriptSig txin))
                 (vecTxDSIn entry))
         (vecEntries (srv w))
    then (false, w) else
    if negb (IsInputScriptSigValid env (srv w) txin) then (false, w) else
    let final :=
      mkTx (map (λ x, if matches_input txin x
                      then set_scriptSig (scriptSig txin) x else x)
                (vin (finalMutableTransaction (srv w))))
           (vout (finalMutableTransaction (srv w))) in
    match sign_first_entry txin (vecEntries (srv w)) with
    | Some entries' =>
        (true, with_srv (with_entries entries' (with_final final (srv w))) w)
    | None => (false, with_srv (with_final final (srv w)) w)
    end.
Proof.
  unfold AddScriptSig. unfold_m.
  destruct (existsb _ _); [reflexivity |].
  destruct (IsInputScriptSigValid env (srv w) txin); simpl; [| reflexivity].
  destruct (sign_first_entry txin (vecEntries (srv w))); reflexivity.
Qed.

Lemma AddScriptSig_keeps env txin :
  respects (keeps pool_inv) (AddScriptSig env txin).
Proof.
  intros w [H1 H2]. unfold exec. rewrite AddScriptSig_run.
  destruct (existsb _ _); [split; assumption |].
  destruct (negb _); [split; assumption |]. cbv zeta.
  destruct (sign_first_entry txin (vecEntries (srv w))) as [es|] eqn:E;
    [| split; assumption].
  apply sign_first_entry_outpoints in E. split; simpl.
  - apply (f_equal length) in E. rewrite !length_map in E. lia.
  - eapply pairwise_disjoint_ext; eassumption.
Qed.

#[global] Hint Resolve AddEntry_keeps AddScriptSig_keeps : respects.

(** *** Every operation keeps the invariant *)

Ltac keeps_auto :=
  repeat first [ respects_step | progress cbv zeta | solve [eauto with respects] ].

Lemma ChargeFees_same_srv env : respects same_srv (ChargeFees env).
Proof. unfold ChargeFees. keeps_auto. Qed.

Lemma ChargeFees_logging env : respects (logs any_event) (ChargeFees env).
Proof. unfold ChargeFees. keeps_auto. Qed.

#[global] Hint Resolve ChargeFees_same_srv ChargeFees_logging : respects.

Lemma CreateFinalTransaction_keeps env :
  respects (keeps pool_inv) (CreateFinalTransaction env).
Proof. unfold CreateFinalTransaction. keeps_auto. Qed.

Lemma CommitFinalTransaction_keeps env :
  respects (keeps pool_inv) (CommitFinalTransaction env).
Proof. unfold CommitFinalTransaction. keeps_auto. Qed.

#[global] Hint Resolve CreateFinalTransaction_keeps CommitFinalTransaction_keeps
  : respects.

Lemma CheckPool_keeps env : respects (keeps pool_inv) (CheckPool env).
Proof. unfold CheckPool. keeps_auto. Qed.

Lemma CheckQueue_keeps env : respects (keeps pool_inv) (CheckQueue env).
Proof. unfold CheckQueue. keeps_auto. Qed.

#[global] Hint Resolve CheckPool_keeps CheckQueue_keeps : respects.

Lemma CheckTimeout_keeps env : respects (keeps pool_inv) (CheckTimeout env).
Proof. unfold CheckTimeout. keeps_auto. Qed.

Lemma CheckForCompleteQueue_keeps env :
  respects (keeps pool_inv) (CheckForCompleteQueue env).
Proof. unfold CheckForCompleteQueue. keeps_auto. Qed.

Lemma CreateNewSession_keeps env dsa msg :
  respects (keeps pool_inv) (CreateNewSession env dsa msg).
Proof. unfold CreateNewSession. keeps_auto. Qed.

Lemma AddUserToExistingSession_keeps env dsa msg :
  respects (keeps pool_inv) (AddUserToExistingSession env dsa msg).
Proof. unfold AddUserToExistingSession. keeps_auto. Qed.

#[global] Hint Resolve CheckTimeout_keeps CheckForCompleteQueue_keeps
  CreateNewSession_keeps AddUserToExistingSession_keeps : respects.

Lemma DSSIGNFINALTX_loop_keeps env l :
  respects (keeps pool_inv) (DSSIGNFINALTX_loop env l).
Proof. induction l as [|txin l IH]; simpl; keeps_auto. Qed.

#[global] Hint Resolve DSSIGNFINALTX_loop_keeps : respects.

Lemma ProcessMessage_keeps env pfrom msg :
  respects (keeps pool_inv) (ProcessMessage env pfrom msg).
Proof.
  unfold ProcessMessage, ProcessMessage_DSACCEPT, ProcessMessage_DSQUEUE,
    ProcessMessage_DSVIN, ProcessMessage_DSSIGNFINALTX.
  keeps_auto.
Qed.

Lemma DoMaintenance_keeps env : respects (keeps pool_inv) (DoMaintenance env).
Proof. unfold DoMaintenance. keeps_auto. Qed.

(** The pool invariant holds in every reachable world. *)
Lemma reachable_pool_inv w : reachable w → pool_inv (srv w).
Proof.
  induction 1 as [w t H | w w' Hr IH Hs].
  - rewrite H. apply pool_inv_null.
  - destruct Hs as [env pfrom msg w | env w | w w' E].
    + apply ProcessMessage_keeps, IH.
    + apply DoMaintenance_keeps, IH.
    + rewrite E. exact IH.
Qed.

Lemma reachable_run env l w : reachable w → reachable (run env l w).
Proof.
  revert w. induction l as [|[pfrom msg] l IH]; intros w H; simpl; [exact H |].
  apply IH. eapply reachable_step; [exact H | apply step_message].
Qed.

Lemma reachable_init_world : reachable init_world.
Proof. apply (reachable_init init_world 0). reflexivity. Qed.

(** ** C2: entries never outnumber collaterals *)

Lemma AddEntry_full env entry msg w :
  fMasternodeMode env = true →
  (length (vecSessionCollaterals (srv w)) ≤ length (vecEntries (srv w)))%nat →
  AddEntry env entry msg w = (false, ERR_ENTRIES_FULL, w).
Proof.
  intros Hmn Hfull. unfold AddEntry. rewrite Hmn. unfold_m.
  destruct (_ >=? _) eqn:E; [reflexivity |].
  rewrite Z.geb_leb in E. apply Z.leb_gt in E. lia.
Qed.

Lemma DSVIN_not_ready env pfrom entry w :
  IsSessionReady env (srv w) = false →
  srv (exec (ProcessMessage env pfrom (DSVIN entry)) w) = srv w.
Proof.
  intros Hr. unfold ProcessMessage, ProcessMessage_DSVIN.
  destruct (negb (fMasternodeMode env)); [reflexivity |].
  destruct (fLiteMode env); [reflexivity |].
  destruct (negb (IsBlockchainSynced env)); [reflexivity |].
  destruct (obsolete pfrom); [reflexivity |].
  rewrite exec_bind. change (eval get_srv w) with (srv w).
  change (exec get_srv w) with w. rewrite Hr. reflexivity.
Qed.

(** C2, as stated, fails: five join requests fill the queue; before any
    maintenance tick has moved the session to AcceptingEntries, a DSVIN
    is handled, passes [IsSessionReady] and [AddEntry] appends the entry
    while the state is still [POOL_STATE_QUEUE]. *)
Lemma AddEntry_in_queue_state_counterexample :
  reachable world_full_queue ∧
  nState (srv world_full_queue) = POOL_STATE_QUEUE ∧
  vecEntries (srv (exec (ProcessMessage env_all_up (peer 1) (DSVIN entry_A))
                        world_full_queue)) = [entry_A] ∧
  nState (srv (exec (ProcessMessage env_all_up (peer 1) (DSVIN entry_A))
                    world_full_queue)) = POOL_STATE_QUEUE ∧
  ¬ ((eval (AddEntry env_all_up entry_A MSG_NOERR) world_full_queue).1 = true →
     nState (srv world_full_queue) = POOL_STATE_ACCEPTING_ENTRIES).
Proof.
  split; [apply reachable_run, reachable_init_world |].
  split; [vm_compute; reflexivity |].
  split; [vm_compute; reflexivity |].
  split; [vm_compute; reflexivity |].
  intros H.
  assert (Ht : (eval (AddEntry env_all_up entry_A MSG_NOERR) world_full_queue).1
               = true) by (vm_compute; reflexivity).
  apply H in Ht. vm_compute in Ht. discriminate Ht.
Qed.

(** C2, amended.  [AddEntry] appends an entry only when the number of
    entries is strictly below the number of collaterals, and then appends
    exactly that entry; the DSVIN handler reaches it only when
    [IsSessionReady] holds (state AcceptingEntries, or state Queue with the
    queue full or timed out with the minimum reached) and otherwise leaves
    the session as it is.  When the number of entries is not below the
    number of collaterals, [AddEntry] fails with [ERR_ENTRIES_FULL] and
    changes nothing.  In every reachable world the entries do not
    outnumber the collaterals. *)
Theorem AddEntry_below_collaterals env pfrom entry msg w :
  ((eval (AddEntry env entry msg) w).1 = true →
   (length (vecEntries (srv w)) < length (vecSessionCollaterals (srv w)))%nat ∧
   vecEntries (srv (exec (AddEntry env entry msg) w))
     = vecEntries (srv w) ++ [entry]) ∧
  ((eval (AddEntry env entry msg) w).1 = false →
   srv (exec (AddEntry env entry msg) w) = srv w) ∧
  (IsSessionReady env (srv w) = false →
   srv (exec (ProcessMessage env pfrom (DSVIN entry)) w) = srv w) ∧
  (fMasternodeMode env = true →
   (length (vecSessionCollaterals (srv w)) ≤ length (vecEntries (srv w)))%nat →
   eval (AddEntry env entry msg) w = (false, ERR_ENTRIES_FULL) ∧
   exec (AddEntry env entry msg) w = w) ∧
  (reachable w →
   (length (vecEntries (srv w)) ≤ length (vecSessionCollaterals (srv w)))%nat).
Proof.
  split; [| split; [| split; [| split]]].
  - intros H. rewrite AddEntry_srv, H.
    apply AddEntry_accepts in H as (_ & Hlt & _). split; [exact Hlt | reflexivity].
  - intros H. rewrite AddEntry_srv, H. reflexivity.
  - apply DSVIN_not_ready.
  - intros Hmn Hfull. unfold eval, exec.
    rewrite AddEntry_full by assumption. split; reflexivity.
  - intros H. apply reachable_pool_inv in H as [H _]. exact H.
Qed.

Lemma AddEntry_below_collaterals_witness :
  ((length (vecEntries (srv world_full_queue))
    < length (vecSessionCollaterals (srv world_full_queue)))%nat ∧
   vecEntries (srv (exec (AddEntry env_all_up entry_A MSG_NOERR) world_full_queue))
     = vecEntries (srv world_full_queue) ++ [entry_A]) ∧
  srv (exec (AddEntry env_all_up entry_D MSG_NOERR) world_signing)
    = srv world_signing ∧
  srv (exec (ProcessMessage env_all_up (peer 1) (DSVIN entry_A)) world_three_joined)
    = srv world_three_joined ∧
  (eval (AddEntry env_all_up entry_D MSG_NOERR) world_signing
     = (false, ERR_ENTRIES_FULL) ∧
   exec (AddEntry env_all_up entry_D MSG_NOERR) world_signing = world_signing) ∧
  (length (vecEntries (srv world_full_queue))
   ≤ length (vecSessionCollaterals (srv world_full_queue)))%nat.
Proof.
  destruct (AddEntry_below_collaterals env_all_up (peer 1) entry_A MSG_NOERR
              world_full_queue) as (H1 & _ & _ & _ & H5).
  destruct (AddEntry_below_collaterals env_all_up (peer 1) entry_D MSG_NOERR
              world_signing) as (_ & H2 & _ & H4 & _).
  destruct (AddEntry_below_collaterals env_all_up (peer 1) entry_A MSG_NOERR
              world_three_joined) as (_ & _ & H3 & _ & _).
  split; [apply H1; vm_compute; reflexivity |].
  split; [apply H2; vm_compute; reflexivity |].
  split; [apply H3; vm_compute; reflexivity |].
  split; [apply H4; [vm_compute; reflexivity | vm_compute; lia] |].
  apply H5, reachable_run, reachable_init_world.
Defined.

(** ** C3: no outpoint in two entries *)

Lemma shares_input_existsb entry s :
  shares_input entry s → existsb (input_in_pool s) (vecTxDSIn entry) = true.
Proof.
  intros (d & e' & d' & Hd & He' & Hd' & E).
  apply existsb_exists. exists d. split; [apply list_elem_of_In, Hd |].
  unfold input_in_pool. apply existsb_exists. exists e'.
  split; [apply list_elem_of_In, He' |].
  apply existsb_exists. exists d'. split; [apply list_elem_of_In, Hd' |].
  apply bool_decide_eq_true, E.
Qed.

Lemma AddEntry_already_have env entry msg w :
  fMasternodeMode env = true →
  (length (vecEntries (srv w)) < length (vecSessionCollaterals (srv w)))%nat →
  IsCollateralValid env (txCollateral entry) = true →
  Z.of_nat (length (vecTxDSIn entry)) ≤ PRIVATESEND_ENTRY_MAX_SIZE →
  shares_input entry (srv w) →
  AddEntry env entry msg w = (false, ERR_ALREADY_HAVE, w).
Proof.
  intros Hmn Hlt Hcol Hmax Hsh. unfold AddEntry. rewrite Hmn, Hcol. unfold_m.
  destruct (_ >=? _) eqn:E1.
  { rewrite Z.geb_leb in E1. apply Z.leb_le in E1. lia. }
  destruct (_ >? _) eqn:E2.
  { apply Z.gtb_gt in E2. lia. }
  rewrite (shares_input_existsb _ _ Hsh). reflexivity.
Qed.

(** C3, as stated, fails: peer 2 submits ten inputs, one of them already
    in the pool.  The size check comes first: the entry is refused with
    [ERR_MAXIMUM], not [ERR_ALREADY_HAVE], and the collateral of peer 2 is
    handed to [ConsumeCollateral]. *)
Lemma AddEntry_too_many_inputs_counterexample :
  nState (srv world_accepting_one) = POOL_STATE_ACCEPTING_ENTRIES ∧
  eval (AddEntry (env_later 1031 (λ _, 0)) entry_ten_inputs MSG_NOERR)
       world_accepting_one = (false, ERR_MAXIMUM) ∧
  consumed (ProcessMessage (env_later 1031 (λ _, 0)) (peer 2)
              (DSVIN entry_ten_inputs)) world_accepting_one
    = [collateral_of 2] ∧
  ¬ (shares_input entry_ten_inputs (srv world_accepting_one) →
     eval (AddEntry (env_later 1031 (λ _, 0)) entry_ten_inputs MSG_NOERR)
          world_accepting_one = (false, ERR_ALREADY_HAVE) ∧
     consumed (AddEntry (env_later 1031 (λ _, 0)) entry_ten_inputs MSG_NOERR)
              world_accepting_one = []).
Proof.
  split; [vm_compute; reflexivity |].
  split; [vm_compute; reflexivity |].
  split; [vm_compute; reflexivity |].
  intros H.
  assert (Hs : shares_input entry_ten_inputs (srv world_accepting_one)).
  { exists (unsigned_in 2 0), entry_A, (unsigned_in 2 0).
    split; [apply list_elem_of_here |].
    split; [vm_compute; apply list_elem_of_here |].
    split; [apply list_elem_of_here | reflexivity]. }
  apply H in Hs as [Hs _]. vm_compute in Hs. discriminate Hs.
Qed.

(** C3, amended.  A submitted entry that passes the earlier checks of
    [AddEntry] (the pool is not full, the collateral is valid, there are
    at most [PRIVATESEND_ENTRY_MAX_SIZE] inputs) and spends an outpoint
    that an entry of the pool already spends is refused with
    [ERR_ALREADY_HAVE] and the world is left exactly as it was: nothing is
    appended, nothing is sent to the mempool.  Whatever the other checks
    say, such an entry is never appended.  In every reachable world no
    outpoint is spent by two entries. *)
Theorem AddEntry_rejects_known_input env entry msg w :
  (fMasternodeMode env = true →
   (length (vecEntries (srv w)) < length (vecSessionCollaterals (srv w)))%nat →
   IsCollateralValid env (txCollateral entry) = true →
   Z.of_nat (length (vecTxDSIn entry)) ≤ PRIVATESEND_ENTRY_MAX_SIZE →
   shares_input entry (srv w) →
   eval (AddEntry env entry msg) w = (false, ERR_ALREADY_HAVE) ∧
   exec (AddEntry env entry msg) w = w ∧
   consumed (AddEntry env entry msg) w = []) ∧
  (shares_input entry (srv w) →
   (eval (AddEntry env entry msg) w).1 = false ∧
   srv (exec (AddEntry env entry msg) w) = srv w) ∧
  (reachable w → pairwise_disjoint (vecEntries (srv w))).
Proof.
  split; [| split].
  - intros Hmn Hlt Hcol Hmax Hsh.
    pose proof (AddEntry_already_have env entry msg w Hmn Hlt Hcol Hmax Hsh) as E.
    unfold eval, exec, consumed, events_of, exec. rewrite E. simpl.
    split; [reflexivity |]. split; [reflexivity |].
    rewrite drop_all. reflexivity.
  - intros Hsh.
    assert (E : (eval (AddEntry env entry msg) w).1 = false).
    { apply not_true_is_false. intros H.
      apply AddEntry_accepts in H as (_ & _ & _ & _ & Hnew & _).
      rewrite (shares_input_existsb _ _ Hsh) in Hnew. discriminate. }
    split; [exact E |]. rewrite AddEntry_srv, E. reflexivity.
  - intros H. apply reachable_pool_inv in H as [_ H]. exact H.
Qed.

Lemma shares_input_clash : shares_input entry_B_clash (srv world_accepting_one).
Proof.
  exists (unsigned_in 2 0), entry_A, (unsigned_in 2 0).
  split; [apply list_elem_of_further, list_elem_of_here |].
  split; [vm_compute; apply list_elem_of_here |].
  split; [apply list_elem_of_here | reflexivity].
Qed.

Lemma AddEntry_rejects_known_input_witness :
  (eval (AddEntry env_all_up entry_B_clash MSG_NOERR) world_accepting_one
     = (false, ERR_ALREADY_HAVE) ∧
   exec (AddEntry env_all_up entry_B_clash MSG_NOERR) world_accepting_one
     = world_accepting_one ∧
   consumed (AddEntry env_all_up entry_B_clash MSG_NOERR) world_accepting_one = []) ∧
  ((eval (AddEntry env_all_up entry_B_clash MSG_NOERR) world_accepting_one).1 = false ∧
   srv (exec (AddEntry env_all_up entry_B_clash MSG_NOERR) world_accepting_one)
     = srv world_accepting_one) ∧
  pairwise_disjoint (vecEntries (srv world_signing)).
Proof.
  destruct (AddEntry_rejects_known_input env_all_up entry_B_clash MSG_NOERR
              world_accepting_one) as (H1 & H2 & _).
  destruct (AddEntry_rejects_known_input env_all_up entry_B_clash MSG_NOERR
              world_signing) as (_ & _ & H3).
  split.
  { apply H1; [vm_compute; reflexivity | vm_compute; lia | vm_compute; reflexivity
              | vm_compute; discriminate | apply shares_input_clash]. }
  split; [apply H2, shares_input_clash |].
  apply H3. unfold world_signing. apply reachable_run.
  unfold world_accepting. eapply reachable_step; [| apply step_tick].
  unfold world_three_joined. apply reachable_run, reachable_init_world.
Defined.

(** ** C5 and C6: [AddScriptSig] and [IsInputScriptSigValid] *)

Lemma find_last_input_app txin a b i found :
  find_last_input txin (a ++ b) i found
  = find_last_input txin b (i + Z.of_nat (length a))
                    (find_last_input txin a i found).
Proof.
  revert i found. induction a as [|d a IH]; intros i found; simpl.
  - f_equal. lia.
  - rewrite IH. f_equal. lia.
Qed.

Lemma find_last_input_no_match txin ins i found :
  Forall (λ d, prevout (dsin_txin d) ≠ prevout txin) ins →
  find_last_input txin ins i found = found.
Proof.
  intros H. revert i. induction H as [|d ins Hd _ IH]; intros i; simpl.
  - reflexivity.
  - rewrite bool_decide_eq_false_2 by exact Hd. apply IH.
Qed.

Lemma scan_input_fold txin ins tx i idx key :
  fold_left (scan_input txin) ins (tx, i, idx, key)
  = (mkTx (vin tx ++ map dsin_txin ins) (vout tx),
     i + Z.of_nat (length ins),
     (find_last_input txin ins i (idx, key)).1,
     (find_last_input txin ins i (idx, key)).2).
Proof.
  revert tx i idx key. induction ins as [|d ins IH]; intros tx i idx key.
  - simpl. rewrite app_nil_r, Z.add_0_r. destruct tx; reflexivity.
  - simpl fold_left. simpl find_last_input.
    replace (i + Z.of_nat (length (d :: ins)))
      with (i + 1 + Z.of_nat (length ins)) by (simpl length; lia).
    destruct (bool_decide (prevout (dsin_txin d) = prevout txin));
      rewrite IH; simpl; rewrite <- app_assoc; reflexivity.
Qed.

(** The scan walks the inputs of all entries in entry order. *)
Lemma scan_entry_fold txin l tx i idx key :
  fold_left (scan_entry txin) l (tx, i, idx, key)
  = (mkTx (vin tx ++ entries_inputs l) (vout tx ++ entries_outputs l),
     i + Z.of_nat (length (entries_inputs l)),
     (find_last_input txin (flat_map vecTxDSIn l) i (idx, key)).1,
     (find_last_input txin (flat_map vecTxDSIn l) i (idx, key)).2).
Proof.
  revert tx i idx key. induction l as [|e l IH]; intros tx i idx key.
  - simpl. rewrite !app_nil_r, Z.add_0_r. destruct tx; reflexivity.
  - simpl fold_left. rewrite scan_input_fold, IH.
    simpl. rewrite find_last_input_app, <- !app_assoc, length_app, !length_map.
    replace (i + Z.of_nat (length (vecTxDSIn e) + length (entries_inputs l)))
      with (i + Z.of_nat (length (vecTxDSIn e))
            + Z.of_nat (length (entries_inputs l))) by lia.
    destruct (find_last_input txin (vecTxDSIn e) i (idx, key)) as [idx' key'].
    reflexivity.
Qed.

(** The transaction [IsInputScriptSigValid] hands to the script
    interpreter holds the inputs and outputs of the entries in the order
    the entries came in; [finalMutableTransaction] is not consulted. *)
Lemma IsInputScriptSigValid_entry_order env s txin :
  IsInputScriptSigValid env s txin
  = let found := find_last_input txin (flat_map vecTxDSIn (vecEntries s)) 0 (-1, []) in
    if found.1 >=? 0
    then VerifyScript env (scriptSig txin) found.2
           (mkTx (alter (set_scriptSig (scriptSig txin)) (Z.to_nat found.1)
                        (entries_inputs (vecEntries s)))
                 (entries_outputs (vecEntries s)))
           found.1
    else false.
Proof.
  unfold IsInputScriptSigValid. rewrite scan_entry_fold. reflexivity.
Qed.

Lemma IsInputScriptSigValid_no_match env s txin :
  no_input_matches txin (vecEntries s) → IsInputScriptSigValid env s txin = false.
Proof.
  intros H. rewrite IsInputScriptSigValid_entry_order.
  rewrite find_last_input_no_match; [reflexivity |].
  unfold no_input_matches in H. induction H as [|e l He _ IH]; simpl.
  - constructor.
  - apply Forall_app. split; assumption.
Qed.

(** C5, the code at the failing input.  In the Signing world of the happy
    path the final transaction lists the outpoint (1,1) first, the entries
    list it third.  The signature of peer 2 made on the final transaction
    verifies against it and is refused by [AddScriptSig]; the signature
    made on the entry-order transaction does not verify against the final
    transaction and is accepted, and lands in the final transaction and
    in the entry. *)
Theorem AddScriptSig_checks_entry_order :
  map prevout (vin (finalMutableTransaction (srv world_signing)))
    = [mkOutPoint 1 1; mkOutPoint 1 5; mkOutPoint 2 0; mkOutPoint 3 2] ∧
  VerifyScript env_toy_sig sig_on_final [118; 1]
               (finalMutableTransaction (srv world_signing)) 0 = true ∧
  eval (AddScriptSig env_toy_sig (signed 1 1 sig_on_final)) world_signing = false ∧
  VerifyScript env_toy_sig sig_on_entry_order [118; 1]
               (finalMutableTransaction (srv world_signing)) 0 = false ∧
  eval (AddScriptSig env_toy_sig (signed 1 1 sig_on_entry_order)) world_signing
    = true ∧
  vin (finalMutableTransaction
         (srv (exec (AddScriptSig env_toy_sig (signed 1 1 sig_on_entry_order))
                    world_signing))) !! 0%nat
    = Some (signed 1 1 sig_on_entry_order) ∧
  vecTxDSIn <$> (vecEntries
         (srv (exec (AddScriptSig env_toy_sig (signed 1 1 sig_on_entry_order))
                    world_signing)) !! 1%nat)
    = Some [mkTxDSIn (signed 1 1 sig_on_entry_order) [118; 1] true 0].
Proof.
  split; [vm_compute; reflexivity |].
  split; [vm_compute; reflexivity |].
  split; [vm_compute; reflexivity |].
  split; [vm_compute; reflexivity |].
  split; [vm_compute; reflexivity |].
  split; vm_compute; reflexivity.
Qed.

(** C6, as stated, fails: while the session is accepting entries, peer 1
    sends a DSSIGNFINALTX for its input (2,0); [AddScriptSig] accepts it
    and the entry is changed. *)
Lemma AddScriptSig_while_accepting_counterexample :
  nState (srv world_accepting_one) = POOL_STATE_ACCEPTING_ENTRIES ∧
  vecEntries (srv world_accepting_one) = [entry_A] ∧
  nState (srv (exec (ProcessMessage (env_later 1031 (λ _, 0)) (peer 1)
                       (DSSIGNFINALTX [signed 2 0 [71; 1]]))
                    world_accepting_one)) = POOL_STATE_ACCEPTING_ENTRIES ∧
  vecEntries (srv (exec (ProcessMessage (env_later 1031 (λ _, 0)) (peer 1)
                           (DSSIGNFINALTX [signed 2 0 [71; 1]]))
                        world_accepting_one))
    = [mkEntry [mkTxDSIn (signed 2 0 [71; 1]) [118; 2] true 0; unsigned_in 1 5]
               [mkTxOut 100 [1]] (collateral_of 1) 1] ∧
  ¬ (nState (srv world_accepting_one) ≠ POOL_STATE_SIGNING →
     eval (AddScriptSig env_all_up (signed 2 0 [71; 1])) world_accepting_one
       = false ∧
     vecEntries (srv (exec (AddScriptSig env_all_up (signed 2 0 [71; 1]))
                           world_accepting_one))
       = vecEntries (srv world_accepting_one)).
Proof.
  split; [vm_compute; reflexivity |].
  split; [vm_compute; reflexivity |].
  split; [vm_compute; reflexivity |].
  split; [vm_compute; reflexivity |].
  intros H.
  assert (Hs : nState (srv world_accepting_one) ≠ POOL_STATE_SIGNING)
    by (vm_compute; discriminate).
  apply H in Hs as [Hs _]. vm_compute in Hs. discriminate Hs.
Qed.

(** C6, amended.  [AddScriptSig] does not look at the session state: in
    worlds that differ in [nState] (and the step time) alone its verdict
    is the same and it changes entries and final transaction in the same
    way.  It refuses a submitted input and leaves the world exactly as it
    was whenever no input of an entry of the session spends the submitted
    outpoint, which is the case in every state in which the session holds
    no entries. *)
Theorem AddScriptSig_ignores_state env txin w :
  (∀ st t,
     eval (AddScriptSig env txin) (with_srv (with_state st t (srv w)) w)
     = eval (AddScriptSig env txin) w ∧
     srv (exec (AddScriptSig env txin) (with_srv (with_state st t (srv w)) w))
     = with_state st t (srv (exec (AddScriptSig env txin) w))) ∧
  (no_input_matches txin (vecEntries (srv w)) →
   eval (AddScriptSig env txin) w = false ∧
   exec (AddScriptSig env txin) w = w).
Proof.
  split.
  - intros st t. unfold eval, exec. rewrite !AddScriptSig_run.
    replace (IsInputScriptSigValid env (srv (with_srv (with_state st t (srv w)) w)) txin)
      with (IsInputScriptSigValid env (srv w) txin) by reflexivity.
    simpl. destruct (existsb _ _); [split; reflexivity |].
    destruct (negb _); [split; reflexivity |].
    destruct (sign_first_entry txin (vecEntries (srv w))); split; reflexivity.
  - intros H. unfold eval, exec. rewrite AddScriptSig_run.
    rewrite (IsInputScriptSigValid_no_match env (srv w) txin H). simpl.
    destruct (existsb _ _); split; reflexivity.
Qed.

Lemma AddScriptSig_ignores_state_witness :
  (∀ st t,
     eval (AddScriptSig env_all_up (signed 2 0 [71; 1]))
          (with_srv (with_state st t (srv world_three_joined)) world_three_joined)
     = eval (AddScriptSig env_all_up (signed 2 0 [71; 1])) world_three_joined ∧
     srv (exec (AddScriptSig env_all_up (signed 2 0 [71; 1]))
               (with_srv (with_state st t (srv world_three_joined))
                         world_three_joined))
     = with_state st t
         (srv (exec (AddScriptSig env_all_up (signed 2 0 [71; 1]))
                    world_three_joined))) ∧
  (eval (AddScriptSig env_all_up (signed 2 0 [71; 1])) world_three_joined = false ∧
   exec (AddScriptSig env_all_up (signed 2 0 [71; 1])) world_three_joined
   = world_three_joined).
Proof.
  destruct (AddScriptSig_ignores_state env_all_up (signed 2 0 [71; 1])
              world_three_joined) as [H1 H2].
  split; [exact H1 |]. apply H2. vm_compute. constructor.
Defined.

(** ** C8: charging an offender *)

(** What [ChargeFees] hands to [ConsumeCollateral], from the two draws, the
    offenders and the number of collaterals. *)
Lemma ChargeFees_consumed env w :
  fMasternodeMode env = true →
  consumed (ChargeFees env) w
  = let offenders := vecOffendersCollaterals env (srv w) in
    let n := length (vecSessionCollaterals (srv w)) in
    let r1 := RandRaw env (nRandCalls w) `mod` 100 in
    let r2 := RandRaw env (S (nRandCalls w)) `mod` 100 in
    if (r1 >? 33) || bool_decide (offenders = []) ||
       ((Z.of_nat (length offenders) >=? size_minus_one n) && (r2 >? 33)) ||
       (Z.of_nat (length offenders) >=? Z.of_nat n)
    then []
    else match random_shuffle env offenders with
         | tx :: _ => [tx]
         | [] => []
         end.
Proof.
  intros Hmn. cbv zeta. unfold consumed, events_of, ChargeFees.
  rewrite Hmn. unfold_m.
  destruct (_ >? 33); simpl; [rewrite drop_all; reflexivity |].
  destruct (bool_decide (vecOffendersCollaterals env (srv w) = [])) eqn:Eo;
    simpl; [rewrite drop_all; reflexivity |].
  assert (Hst : bool_decide (nState (srv w) = POOL_STATE_ACCEPTING_ENTRIES)
                || bool_decide (nState (srv w) = POOL_STATE_SIGNING) = true).
  { apply bool_decide_eq_false in Eo. unfold vecOffendersCollaterals in Eo.
    destruct (bool_decide (nState (srv w) = POOL_STATE_ACCEPTING_ENTRIES));
      [reflexivity |].
    destruct (bool_decide (nState (srv w) = POOL_STATE_SIGNING));
      [reflexivity | contradiction]. }
  destruct (_ >=? size_minus_one _); simpl.
  - destruct (_ >? 33); simpl; [rewrite drop_all; reflexivity |].
    destruct (_ >=? _); simpl; [rewrite drop_all; reflexivity |].
    rewrite Hst. destruct (random_shuffle env _) as [|tx l]; simpl;
      [rewrite drop_all; reflexivity |].
    unfold ConsumeCollateral. unfold_m.
    destruct (AcceptToMemoryPool _ _ _); simpl;
      rewrite <- ?app_assoc, drop_app_length; reflexivity.
  - destruct (_ >=? _); simpl; [rewrite drop_all; reflexivity |].
    rewrite Hst. destruct (random_shuffle env _) as [|tx l]; simpl;
      [rewrite drop_all; reflexivity |].
    unfold ConsumeCollateral. unfold_m.
    destruct (AcceptToMemoryPool _ _ _); simpl;
      rewrite <- ?app_assoc, drop_app_length; reflexivity.
Qed.

(** C8, as stated, fails: the pool has timed out with three collaterals
    and no entry, so all three participants are offenders; both draws are
    0, neither leniency applies, and still nothing is consumed, because
    [ChargeFees] returns whenever the offenders are as many as the
    collaterals. *)
Lemma ChargeFees_everyone_offends_counterexample :
  vecOffendersCollaterals env_timeout_no_luck (srv world_accepting)
    = [collateral_of 1; collateral_of 2; collateral_of 3] ∧
  vecSessionCollaterals (srv world_accepting)
    = [collateral_of 1; collateral_of 2; collateral_of 3] ∧
  consumed (DoMaintenance env_timeout_no_luck) world_accepting = [] ∧
  ¬ (vecOffendersCollaterals env_timeout_no_luck (srv world_accepting) ≠ [] →
     first_draw env_timeout_no_luck world_accepting ≤ 33 →
     second_draw env_timeout_no_luck world_accepting ≤ 33 →
     length (consumed (ChargeFees env_timeout_no_luck) world_accepting) = 1%nat).
Proof.
  split; [vm_compute; reflexivity |].
  split; [vm_compute; reflexivity |].
  split; [vm_compute; reflexivity |].
  intros H.
  assert (H1 : vecOffendersCollaterals env_timeout_no_luck (srv world_accepting)
               ≠ []) by (vm_compute; discriminate).
  assert (H2 : first_draw env_timeout_no_luck world_accepting ≤ 33)
    by (vm_compute; discriminate).
  assert (H3 : second_draw env_timeout_no_luck world_accepting ≤ 33)
    by (vm_compute; discriminate).
  specialize (H H1 H2 H3). vm_compute in H. discriminate H.
Qed.

(** Who is on the offender list.  While entries are accepted: every
    collateral of the session, in its order, that no entry has sent
    (transactions compare by hash). *)
Lemma offenders_accepting_spec env s :
  offenders_accepting env s
  = filter (λ txColl, Forall (λ entry, GetHash env (txCollateral entry)
                                        ≠ GetHash env txColl) (vecEntries s))
           (vecSessionCollaterals s).
Proof.
  unfold offenders_accepting. apply list_filter_iff. intros c.
  induction (vecEntries s) as [|e l IH]; simpl.
  - split; [constructor | reflexivity].
  - unfold tx_eqb at 1. rewrite orb_false_iff, IH, Forall_cons, Z.eqb_neq.
    reflexivity.
Qed.

(** While signing: entry by entry, the collateral of the entry once for
    each of its inputs that carries no signature. *)
Lemma offenders_signing_spec s :
  offenders_signing s
  = flat_map (λ entry,
                replicate (length (filter (λ txdsin, fHasSig txdsin = false)
                                          (vecTxDSIn entry)))
                          (txCollateral entry))
             (vecEntries s).
Proof.
  unfold offenders_signing.
  induction (vecEntries s) as [|e l IH]; simpl; [reflexivity |].
  rewrite IH. f_equal. clear IH.
  induction (vecTxDSIn e) as [|d ins IH]; simpl; [reflexivity |].
  destruct (fHasSig d) eqn:Ed; simpl.
  - rewrite filter_cons_False by (rewrite Ed; discriminate). exact IH.
  - rewrite filter_cons_True by exact Ed. simpl. rewrite IH. reflexivity.
Qed.

(** C8, amended.  On a masternode, with a shuffle that rearranges its
    argument, [ChargeFees] hands at most one collateral to
    [ConsumeCollateral] per call.  It does nothing when the first draw of
    [GetRandInt(100)] is above 33 (66 of the 100 values); it does nothing
    when the offender list is at least as long as the number of
    collaterals minus one (computed in [size_t]) and the second draw is
    above 33; and it always does nothing when the offender list is at
    least as long as the collateral list.  In the remaining case, with a
    non-empty offender list, it consumes exactly one collateral, the
    first of the shuffled offender list, which is one of the offenders'.
    The offender list holds, in AcceptingEntries, every collateral of the
    session that no entry has sent, once each and in session order; in
    Signing, the collateral of an entry once for each of its unsigned
    inputs, in entry order; in any other state it is empty and nothing
    is consumed. *)
Theorem ChargeFees_at_most_one env w :
  fMasternodeMode env = true →
  (∀ l, random_shuffle env l ≡ₚ l) →
  (length (consumed (ChargeFees env) w) ≤ 1)%nat ∧
  (first_draw env w > 33 → consumed (ChargeFees env) w = []) ∧
  (size_minus_one (length (vecSessionCollaterals (srv w)))
     ≤ Z.of_nat (length (vecOffendersCollaterals env (srv w))) →
   second_draw env w > 33 → consumed (ChargeFees env) w = []) ∧
  (Z.of_nat (length (vecSessionCollaterals (srv w)))
     ≤ Z.of_nat (length (vecOffendersCollaterals env (srv w))) →
   consumed (ChargeFees env) w = []) ∧
  (first_draw env w ≤ 33 →
   vecOffendersCollaterals env (srv w) ≠ [] →
   Z.of_nat (length (vecOffendersCollaterals env (srv w)))
     < Z.of_nat (length (vecSessionCollaterals (srv w))) →
   Z.of_nat (length (vecOffendersCollaterals env (srv w)))
     < size_minus_one (length (vecSessionCollaterals (srv w)))
   ∨ second_draw env w ≤ 33 →
   ∃ tx, consumed (ChargeFees env) w = [tx] ∧
         head (random_shuffle env (vecOffendersCollaterals env (srv w))) = Some tx ∧
         tx ∈ vecOffendersCollaterals env (srv w)) ∧
  length (filter (λ r, r > 33) (seqZ 0 100)) = 66%nat ∧
  (nState (srv w) = POOL_STATE_ACCEPTING_ENTRIES →
   vecOffendersCollaterals env (srv w)
   = filter (λ txColl, Forall (λ entry, GetHash env (txCollateral entry)
                                         ≠ GetHash env txColl)
                              (vecEntries (srv w)))
            (vecSessionCollaterals (srv w))) ∧
  (nState (srv w) = POOL_STATE_SIGNING →
   vecOffendersCollaterals env (srv w)
   = flat_map (λ entry,
                 replicate (length (filter (λ txdsin, fHasSig txdsin = false)
                                           (vecTxDSIn entry)))
                           (txCollateral entry))
              (vecEntries (srv w))) ∧
  (nState (srv w) ≠ POOL_STATE_ACCEPTING_ENTRIES →
   nState (srv w) ≠ POOL_STATE_SIGNING →
   vecOffendersCollaterals env (srv w) = [] ∧
   consumed (ChargeFees env) w = []).
Proof.
  intros Hmn Hshuffle.
  pose proof (ChargeFees_consumed env w Hmn) as E. cbv zeta in E.
  fold (first_draw env w) in E. fold (second_draw env w) in E.
  assert (Hacc : nState (srv w) = POOL_STATE_ACCEPTING_ENTRIES →
                 vecOffendersCollaterals env (srv w) = offenders_accepting env (srv w)).
  { intros Hs. unfold vecOffendersCollaterals. rewrite Hs. simpl.
    apply app_nil_r. }
  assert (Hsig : nState (srv w) = POOL_STATE_SIGNING →
                 vecOffendersCollaterals env (srv w) = offenders_signing (srv w)).
  { intros Hs. unfold vecOffendersCollaterals. rewrite Hs. reflexivity. }
  assert (Hnone : nState (srv w) ≠ POOL_STATE_ACCEPTING_ENTRIES →
                  nState (srv w) ≠ POOL_STATE_SIGNING →
                  vecOffendersCollaterals env (srv w) = []).
  { intros H1 H2. unfold vecOffendersCollaterals.
    rewrite (bool_decide_eq_false_2 _ H1), (bool_decide_eq_false_2 _ H2).
    reflexivity. }
  set (offenders := vecOffendersCollaterals env (srv w)) in *.
  set (n := length (vecSessionCollaterals (srv w))) in *.
  split; [| split; [| split; [| split; [| split; [| split; [| split; [| split]]]]]]].
  - rewrite E. destruct (_ || _); [simpl; lia |].
    destruct (random_shuffle env offenders); simpl; lia.
  - intros H. rewrite E. apply Z.gt_lt, Z.gtb_lt in H. rewrite H. reflexivity.
  - intros H1 H2. rewrite E. apply Z.geb_le in H1.
    apply Z.gt_lt, Z.gtb_lt in H2. rewrite H1, H2. simpl.
    rewrite orb_true_r. reflexivity.
  - intros H. rewrite E. apply Z.geb_le in H. rewrite H.
    rewrite orb_true_r. reflexivity.
  - intros H1 Hne H3 H4. rewrite E.
    assert (G1 : (first_draw env w >? 33) = false).
    { apply not_true_is_false. rewrite Z.gtb_gt. lia. }
    assert (G2 : bool_decide (offenders = []) = false)
      by (apply bool_decide_eq_false; exact Hne).
    assert (G3 : (Z.of_nat (length offenders) >=? Z.of_nat n) = false).
    { apply not_true_is_false. rewrite Z.geb_ge. lia. }
    assert (G4 : (Z.of_nat (length offenders) >=? size_minus_one n)
                 && (second_draw env w >? 33) = false).
    { apply andb_false_iff. destruct H4 as [H4 | H4]; [left | right];
        apply not_true_is_false; rewrite ?Z.geb_ge, ?Z.gtb_gt; lia. }
    rewrite G1, G2, G3, G4. simpl.
    pose proof (Hshuffle offenders) as Hp.
    destruct (random_shuffle env offenders) as [|tx l] eqn:Es.
    + apply Permutation_nil_l in Hp. congruence.
    + exists tx. split; [reflexivity |]. split; [reflexivity |].
      rewrite <- Hp. apply list_elem_of_here.
  - vm_compute. reflexivity.
  - intros Hs. rewrite (Hacc Hs). apply offenders_accepting_spec.
  - intros Hs. rewrite (Hsig Hs). apply offenders_signing_spec.
  - intros H1 H2. split; [apply Hnone; assumption |].
    rewrite E, (Hnone H1 H2). simpl. rewrite orb_true_r. reflexivity.
Qed.

(** Scenario S3 of the spec: peers 1 and 2 have signed, peer 3 has not;
    the first draw is 5 and the collateral of peer 3 is consumed. *)
Lemma ChargeFees_at_most_one_witness :
  (length (consumed (ChargeFees env_last_signature) world_two_signed) ≤ 1)%nat ∧
  (first_draw env_last_signature world_two_signed > 33 →
   consumed (ChargeFees env_last_signature) world_two_signed = []) ∧
  (size_minus_one (length (vecSessionCollaterals (srv world_two_signed)))
     ≤ Z.of_nat (length (vecOffendersCollaterals env_last_signature
                           (srv world_two_signed))) →
   second_draw env_last_signature world_two_signed > 33 →
   consumed (ChargeFees env_last_signature) world_two_signed = []) ∧
  (Z.of_nat (length (vecSessionCollaterals (srv world_two_signed)))
     ≤ Z.of_nat (length (vecOffendersCollaterals env_last_signature
                           (srv world_two_signed))) →
   consumed (ChargeFees env_last_signature) world_two_signed = []) ∧
  (first_draw env_last_signature world_two_signed ≤ 33 →
   vecOffendersCollaterals env_last_signature (srv world_two_signed) ≠ [] →
   Z.of_nat (length (vecOffendersCollaterals env_last_signature
                       (srv world_two_signed)))
     < Z.of_nat (length (vecSessionCollaterals (srv world_two_signed))) →
   Z.of_nat (length (vecOffendersCollaterals env_last_signature
                       (srv world_two_signed)))
     < size_minus_one (length (vecSessionCollaterals (srv world_two_signed)))
   ∨ second_draw env_last_signature world_two_signed ≤ 33 →
   ∃ tx, consumed (ChargeFees env_last_signature) world_two_signed = [tx] ∧
         head (random_shuffle env_last_signature
                 (vecOffendersCollaterals env_last_signature (srv world_two_signed)))
         = Some tx ∧
         tx ∈ vecOffendersCollaterals env_last_signature (srv world_two_signed)) ∧
  length (filter (λ r, r > 33) (seqZ 0 100)) = 66%nat ∧
  (nState (srv world_two_signed) = POOL_STATE_ACCEPTING_ENTRIES →
   vecOffendersCollaterals env_last_signature (srv world_two_signed)
   = filter (λ txColl, Forall (λ entry, GetHash env_last_signature (txCollateral entry)
                                         ≠ GetHash env_last_signature txColl)
                              (vecEntries (srv world_two_signed)))
            (vecSessionCollaterals (srv world_two_signed))) ∧
  (nState (srv world_two_signed) = POOL_STATE_SIGNING →
   vecOffendersCollaterals env_last_signature (srv world_two_signed)
   = flat_map (λ entry,
                 replicate (length (filter (λ txdsin, fHasSig txdsin = false)
                                           (vecTxDSIn entry)))
                           (txCollateral entry))
              (vecEntries (srv world_two_signed))) ∧
  (nState (srv world_two_signed) ≠ POOL_STATE_ACCEPTING_ENTRIES →
   nState (srv world_two_signed) ≠ POOL_STATE_SIGNING →
   vecOffendersCollaterals env_last_signature (srv world_two_signed) = [] ∧
   consumed (ChargeFees env_last_signature) world_two_signed = []).
Proof.
  apply (ChargeFees_at_most_one env_last_signature world_two_signed).
  - vm_compute. reflexivity.
  - intros l. reflexivity.
Defined.

Example ChargeFees_S3 :
  consumed (ChargeFees env_last_signature) world_two_signed = [collateral_of 3].
Proof. vm_compute. reflexivity. Qed.

(** Peer 1 has sent its entry, peers 2 and 3 have not: they are the
    offenders while entries are accepted. *)
Example ChargeFees_offenders_accepting :
  nState (srv world_accepting_one) = POOL_STATE_ACCEPTING_ENTRIES ∧
  vecOffendersCollaterals env_timeout_no_luck (srv world_accepting_one)
  = [collateral_of 2; collateral_of 3].
Proof. split; vm_compute; reflexivity. Qed.

(** * Further properties of the server *)

(** ** Joining a session *)

Lemma CreateNewSession_run env dsa msg w :
  CreateNewSession env dsa msg w
  = if negb (fMasternodeMode env) || negb (nSessionID (srv w) =? 0)
    then (false, msg, w) else
    if negb (bool_decide (nState (srv w) = POOL_STATE_IDLE))
    then (false, ERR_MODE, w) else
    if negb (IsAcceptableDSA env dsa msg).1
    then (false, (IsAcceptableDSA env dsa msg).2, w) else
    (true, MSG_NOERR,
     mkWorld
       (mkServer (vecSessionCollaterals (srv w) ++ [dsa_txCollateral dsa])
                 (if fUnitTest env then vecPrivateSendQueue (srv w)
                  else vecPrivateSendQueue (srv w)
                       ++ [session_dsq env (dsa_nDenom dsa) false])
                 (vecEntries (srv w)) POOL_STATE_QUEUE (GetTime env)
                 (RandRaw env (nRandCalls w) `mod` 999999 + 1) (dsa_nDenom dsa)
                 (finalMutableTransaction (srv w)))
       (mapDSTX w) (mempool w) (nDsqCount w) (mapLastDsq w) (S (nRandCalls w))
       (log w ++ EvState POOL_STATE_QUEUE ::
          (if fUnitTest env then []
           else [EvRelayQueue (session_dsq env (dsa_nDenom dsa) false)]))).
Proof.
  unfold CreateNewSession, SetState. unfold_m.
  destruct (fMasternodeMode env) eqn:Hmn; simpl; [| reflexivity].
  destruct (negb (nSessionID (srv w) =? 0)); simpl; [reflexivity |].
  destruct (negb (bool_decide (nState (srv w) = POOL_STATE_IDLE))); simpl;
    [reflexivity |].
  destruct (IsAcceptableDSA env dsa msg) as [ok m]. simpl.
  destruct ok; simpl; [| reflexivity].
  destruct (fUnitTest env); simpl.
  - reflexivity.
  - rewrite <- app_assoc. reflexivity.
Qed.

(** X1.  [CreateNewSession] succeeds exactly on a masternode whose session
    id is 0 and whose state is Idle, for a request that [IsAcceptableDSA]
    passes.  It then leaves the session in Queue with an id in
    1..999999, the requested denomination, the clock as step time and the
    collateral appended, answers [MSG_NOERR], and, unless in unit-test
    mode, relays and stores one advertisement that is not ready.  When it
    fails it changes nothing, and it answers [ERR_MODE] to a request that
    finds id 0 in a state other than Idle. *)
Theorem CreateNewSession_contract env dsa msg w :
  ((eval (CreateNewSession env dsa msg) w).1 = true ↔
   fMasternodeMode env = true ∧ nSessionID (srv w) = 0 ∧
   nState (srv w) = POOL_STATE_IDLE ∧ (IsAcceptableDSA env dsa msg).1 = true) ∧
  ((eval (CreateNewSession env dsa msg) w).1 = true →
   (eval (CreateNewSession env dsa msg) w).2 = MSG_NOERR ∧
   nState (srv (exec (CreateNewSession env dsa msg) w)) = POOL_STATE_QUEUE ∧
   1 ≤ nSessionID (srv (exec (CreateNewSession env dsa msg) w)) ≤ 999999 ∧
   nSessionDenom (srv (exec (CreateNewSession env dsa msg) w)) = dsa_nDenom dsa ∧
   nTimeLastSuccessfulStep (srv (exec (CreateNewSession env dsa msg) w))
     = GetTime env ∧
   vecSessionCollaterals (srv (exec (CreateNewSession env dsa msg) w))
     = vecSessionCollaterals (srv w) ++ [dsa_txCollateral dsa] ∧
   vecEntries (srv (exec (CreateNewSession env dsa msg) w)) = vecEntries (srv w) ∧
   (fUnitTest env = false →
    vecPrivateSendQueue (srv (exec (CreateNewSession env dsa msg) w))
      = vecPrivateSendQueue (srv w) ++ [session_dsq env (dsa_nDenom dsa) false] ∧
    events_of (CreateNewSession env dsa msg) w
      = [EvState POOL_STATE_QUEUE;
         EvRelayQueue (session_dsq env (dsa_nDenom dsa) false)])) ∧
  ((eval (CreateNewSession env dsa msg) w).1 = false →
   exec (CreateNewSession env dsa msg) w = w) ∧
  (fMasternodeMode env = true → nSessionID (srv w) = 0 →
   nState (srv w) ≠ POOL_STATE_IDLE →
   eval (CreateNewSession env dsa msg) w = (false, ERR_MODE)).
Proof.
  unfold eval, exec, events_of, exec. rewrite CreateNewSession_run.
  destruct (fMasternodeMode env); simpl.
  2:{ repeat split; try discriminate; try reflexivity; intros; intuition discriminate. }
  destruct (nSessionID (srv w) =? 0) eqn:Eid; simpl.
  2:{ apply Z.eqb_neq in Eid.
      repeat split; try discriminate; try reflexivity; intros; intuition congruence. }
  apply Z.eqb_eq in Eid.
  destruct (bool_decide (nState (srv w) = POOL_STATE_IDLE)) eqn:Est; simpl.
  2:{ apply bool_decide_eq_false in Est.
      repeat split; try discriminate; try reflexivity; intros; intuition congruence. }
  apply bool_decide_eq_true in Est.
  destruct (IsAcceptableDSA env dsa msg) as [ok m]. simpl.
  destruct ok; simpl.
  2:{ repeat split; try discriminate; try reflexivity; intros; intuition congruence. }
  assert (Hr : 0 ≤ RandRaw env (nRandCalls w) `mod` 999999 < 999999)
    by (apply Z.mod_pos_bound; lia).
  split; [split; intros; auto |].
  split.
  { intros _. split; [reflexivity |]. split; [reflexivity |].
    split; [lia |]. split; [reflexivity |]. split; [reflexivity |].
    split; [reflexivity |]. split; [reflexivity |].
    intros ->. split; [reflexivity |]. rewrite drop_app_length. reflexivity. }
  split; [discriminate |]. intros _ _ H. contradiction.
Qed.

Lemma CreateNewSession_contract_witness :
  ((eval (CreateNewSession env_all_up (accept_of 1) MSG_NOERR) init_world).2
     = MSG_NOERR ∧
   nState (srv (exec (CreateNewSession env_all_up (accept_of 1) MSG_NOERR) init_world))
     = POOL_STATE_QUEUE ∧
   1 ≤ nSessionID (srv (exec (CreateNewSession env_all_up (accept_of 1) MSG_NOERR)
                             init_world)) ≤ 999999 ∧
   nSessionDenom (srv (exec (CreateNewSession env_all_up (accept_of 1) MSG_NOERR)
                            init_world)) = dsa_nDenom (accept_of 1) ∧
   nTimeLastSuccessfulStep
     (srv (exec (CreateNewSession env_all_up (accept_of 1) MSG_NOERR) init_world))
     = GetTime env_all_up ∧
   vecSessionCollaterals
     (srv (exec (CreateNewSession env_all_up (accept_of 1) MSG_NOERR) init_world))
     = vecSessionCollaterals (srv init_world) ++ [dsa_txCollateral (accept_of 1)] ∧
   vecEntries (srv (exec (CreateNewSession env_all_up (accept_of 1) MSG_NOERR)
                         init_world)) = vecEntries (srv init_world) ∧
   (fUnitTest env_all_up = false →
    vecPrivateSendQueue
      (srv (exec (CreateNewSession env_all_up (accept_of 1) MSG_NOERR) init_world))
      = vecPrivateSendQueue (srv init_world)
        ++ [session_dsq env_all_up (dsa_nDenom (accept_of 1)) false] ∧
    events_of (CreateNewSession env_all_up (accept_of 1) MSG_NOERR) init_world
      = [EvState POOL_STATE_QUEUE;
         EvRelayQueue (session_dsq env_all_up (dsa_nDenom (accept_of 1)) false)])) ∧
  exec (CreateNewSession env_all_up (accept_of 4) MSG_NOERR) world_three_joined
    = world_three_joined ∧
  eval (CreateNewSession env_all_up (accept_of 1) MSG_NOERR) world_queue_without_id
    = (false, ERR_MODE).
Proof.
  destruct (CreateNewSession_contract env_all_up (accept_of 1) MSG_NOERR init_world)
    as (_ & H2 & _ & _).
  destruct (CreateNewSession_contract env_all_up (accept_of 4) MSG_NOERR
              world_three_joined) as (_ & _ & H3 & _).
  destruct (CreateNewSession_contract env_all_up (accept_of 1) MSG_NOERR
              world_queue_without_id) as (_ & _ & _ & H4).
  split; [apply H2; vm_compute; reflexivity |].
  split; [apply H3; vm_compute; reflexivity |].
  apply H4; [vm_compute; reflexivity | vm_compute; reflexivity
            | vm_compute; discriminate].
Defined.

Lemma AddUserToExistingSession_run env dsa msg w :
  AddUserToExistingSession env dsa msg w
  = if negb (fMasternodeMode env) || (nSessionID (srv w) =? 0)
       || IsSessionReady env (srv w)
    then (false, msg, w) else
    if negb (IsAcceptableDSA env dsa msg).1
    then (false, (IsAcceptableDSA env dsa msg).2, w) else
    if negb (bool_decide (nState (srv w) = POOL_STATE_QUEUE))
    then (false, ERR_MODE, w) else
    if negb (dsa_nDenom dsa =? nSessionDenom (srv w))
    then (false, ERR_DENOM, w) else
    (true, MSG_NOERR,
     with_srv (with_collaterals
                 (vecSessionCollaterals (srv w) ++ [dsa_txCollateral dsa]) (srv w))
              w).
Proof.
  unfold AddUserToExistingSession. unfold_m.
  destruct (_ || _); [reflexivity |].
  destruct (IsAcceptableDSA env dsa msg) as [ok m]. simpl.
  destruct ok; simpl; [| reflexivity].
  destruct (negb (bool_decide _)); [reflexivity |].
  destruct (negb (_ =? _)); reflexivity.
Qed.

(** X2.  [AddUserToExistingSession] succeeds exactly on a masternode with
    a session (id not 0) in state Queue that is not yet ready, for a
    request that [IsAcceptableDSA] passes and that names the session's
    denomination.  It then appends the collateral and changes nothing
    else.  When it fails it changes nothing; a wrong state is answered
    with [ERR_MODE], a wrong denomination with [ERR_DENOM]. *)
Theorem AddUserToExistingSession_contract env dsa msg w :
  ((eval (AddUserToExistingSession env dsa msg) w).1 = true ↔
   fMasternodeMode env = true ∧ nSessionID (srv w) ≠ 0 ∧
   IsSessionReady env (srv w) = false ∧
   (IsAcceptableDSA env dsa msg).1 = true ∧
   nState (srv w) = POOL_STATE_QUEUE ∧
   dsa_nDenom dsa = nSessionDenom (srv w)) ∧
  ((eval (AddUserToExistingSession env dsa msg) w).1 = true →
   eval (AddUserToExistingSession env dsa msg) w = (true, MSG_NOERR) ∧
   exec (AddUserToExistingSession env dsa msg) w
   = with_srv (with_collaterals
                 (vecSessionCollaterals (srv w) ++ [dsa_txCollateral dsa]) (srv w))
              w) ∧
  ((eval (AddUserToExistingSession env dsa msg) w).1 = false →
   exec (AddUserToExistingSession env dsa msg) w = w) ∧
  (fMasternodeMode env = true → nSessionID (srv w) ≠ 0 →
   IsSessionReady env (srv w) = false →
   (IsAcceptableDSA env dsa msg).1 = true →
   (nState (srv w) ≠ POOL_STATE_QUEUE →
    eval (AddUserToExistingSession env dsa msg) w = (false, ERR_MODE)) ∧
   (nState (srv w) = POOL_STATE_QUEUE →
    dsa_nDenom dsa ≠ nSessionDenom (srv w) →
    eval (AddUserToExistingSession env dsa msg) w = (false, ERR_DENOM))).
Proof.
  unfold eval, exec. rewrite AddUserToExistingSession_run.
  destruct (fMasternodeMode env); simpl.
  2:{ repeat split; try discriminate; intros; intuition discriminate. }
  destruct (nSessionID (srv w) =? 0) eqn:Eid; simpl.
  2: apply Z.eqb_neq in Eid.
  1:{ apply Z.eqb_eq in Eid.
      repeat split; try discriminate; intros; intuition congruence. }
  destruct (IsSessionReady env (srv w)) eqn:Er; simpl.
  1:{ repeat split; try discriminate; intros; intuition congruence. }
  destruct (IsAcceptableDSA env dsa msg) as [ok m]. simpl.
  destruct ok; simpl.
  2:{ repeat split; try discriminate; intros; intuition congruence. }
  destruct (bool_decide (nState (srv w) = POOL_STATE_QUEUE)) eqn:Est; simpl.
  2:{ apply bool_decide_eq_false in Est.
      repeat split; try discriminate; intros; intuition congruence. }
  apply bool_decide_eq_true in Est.
  destruct (dsa_nDenom dsa =? nSessionDenom (srv w)) eqn:Ed; simpl.
  - apply Z.eqb_eq in Ed.
    repeat split; try discriminate; intros; intuition congruence.
  - apply Z.eqb_neq in Ed.
    repeat split; try discriminate; intros; intuition congruence.
Qed.

Lemma AddUserToExistingSession_contract_witness :
  (eval (AddUserToExistingSession env_all_up (accept_of 2) MSG_NOERR) world_one_joined
     = (true, MSG_NOERR) ∧
   exec (AddUserToExistingSession env_all_up (accept_of 2) MSG_NOERR) world_one_joined
   = with_srv (with_collaterals
                 (vecSessionCollaterals (srv world_one_joined)
                  ++ [dsa_txCollateral (accept_of 2)]) (srv world_one_joined))
              world_one_joined) ∧
  exec (AddUserToExistingSession env_all_up (accept_of 2) MSG_NOERR) init_world
    = init_world ∧
  eval (AddUserToExistingSession env_all_up (accept_of 4) MSG_NOERR) world_signing
    = (false, ERR_MODE) ∧
  eval (AddUserToExistingSession env_all_up (mkAccept 2 (collateral_of 2)) MSG_NOERR)
       world_one_joined = (false, ERR_DENOM).
Proof.
  destruct (AddUserToExistingSession_contract env_all_up (accept_of 2) MSG_NOERR
              world_one_joined) as (_ & H2 & _ & _).
  destruct (AddUserToExistingSession_contract env_all_up (accept_of 2) MSG_NOERR
              init_world) as (_ & _ & H3 & _).
  destruct (AddUserToExistingSession_contract env_all_up (accept_of 4) MSG_NOERR
              world_signing) as (_ & _ & _ & H4).
  destruct (AddUserToExistingSession_contract env_all_up
              (mkAccept 2 (collateral_of 2)) MSG_NOERR world_one_joined)
    as (_ & _ & _ & H5).
  split; [apply H2; vm_compute; reflexivity |].
  split; [apply H3; vm_compute; reflexivity |].
  split.
  - apply H4; [vm_compute; reflexivity | vm_compute; discriminate
              | vm_compute; reflexivity | vm_compute; reflexivity
              | vm_compute; discriminate].
  - apply H5; [vm_compute; reflexivity | vm_compute; discriminate
              | vm_compute; reflexivity | vm_compute; reflexivity
              | vm_compute; reflexivity | vm_compute; discriminate].
Defined.

(** ** Invariants of the session *)

Create HintDb session discriminated.

Lemma session_inv_null t : session_inv (null_server t).
Proof.
  unfold session_inv, canonical. simpl.
  repeat split; try discriminate; try lia; try constructor; try reflexivity;
    intros; congruence.
Qed.

Lemma SetNull_keeps_session env : respects (keeps session_inv) (SetNull env).
Proof. intros w _. rewrite SetNull_srv. apply session_inv_null. Qed.

#[global] Hint Resolve SetNull_keeps_session : session.

#[global] Hint Extern 3 (respects (keeps session_inv) (modify_srv _)) =>
  (apply modify_srv_keeps; let s := fresh "s" in let H := fresh "H" in
   intros s H; exact H) : session.

Ltac session_auto :=
  repeat first [ respects_step | progress cbv zeta
               | solve [eauto with respects session] ].

Lemma RelayStatus_keeps_session env u m :
  respects (keeps session_inv) (RelayStatus env u m).
Proof.
  unfold RelayStatus. session_auto.
  apply respects_same_srv_keeps, notify_same_srv.
Qed.

#[global] Hint Resolve RelayStatus_keeps_session : session.

Lemma RelayFinalTransaction_keeps_session env tx :
  respects (keeps session_inv) (RelayFinalTransaction env tx).
Proof.
  apply RelayFinalTransaction_respects;
    [apply _ | apply emit_keeps | apply RelayStatus_keeps_session].
Qed.

Lemma RelayCompletedTransaction_keeps_session env msg :
  respects (keeps session_inv) (RelayCompletedTransaction env msg).
Proof.
  apply RelayCompletedTransaction_respects;
    [apply _ | apply emit_keeps | apply RelayStatus_keeps_session].
Qed.

#[global] Hint Resolve RelayFinalTransaction_keeps_session
  RelayCompletedTransaction_keeps_session : session.

Lemma CommitFinalTransaction_keeps_session env :
  respects (keeps session_inv) (CommitFinalTransaction env).
Proof. unfold CommitFinalTransaction. session_auto. Qed.

Lemma CheckQueue_keeps_session env : respects (keeps session_inv) (CheckQueue env).
Proof. unfold CheckQueue. session_auto. Qed.

#[global] Hint Resolve CommitFinalTransaction_keeps_session
  CheckQueue_keeps_session : session.

Lemma CheckTimeout_keeps_session env :
  respects (keeps session_inv) (CheckTimeout env).
Proof. unfold CheckTimeout. session_auto. Qed.

(** The outpoints of the inputs of a list of entries, entry by entry. *)
Lemma entries_inputs_outpoints l :
  map prevout (entries_inputs l) = concat (map entry_outpoints l).
Proof.
  induction l as [|e l IH]; simpl; [reflexivity |].
  rewrite map_app, IH. unfold entry_outpoints. rewrite map_map. reflexivity.
Qed.

Lemma sign_first_entry_outputs txin l l' :
  sign_first_entry txin l = Some l' → map vecTxOut l' = map vecTxOut l.
Proof.
  revert l'. induction l as [|e l IH]; intros l'; simpl; [discriminate |].
  unfold Entry_AddScriptSig.
  destruct (sign_first txin (vecTxDSIn e)) as [ins|]; simpl.
  - intros [= <-]. reflexivity.
  - destruct (sign_first_entry txin l) as [r|]; simpl; [| discriminate].
    intros [= <-]. simpl. f_equal. apply IH. reflexivity.
Qed.

Lemma entries_outputs_concat l : entries_outputs l = concat (map vecTxOut l).
Proof.
  induction l as [|e l IH]; simpl; [reflexivity |]. rewrite IH. reflexivity.
Qed.

Lemma sorted_inputs_map (f : CTxIn → CTxIn) l :
  (∀ x, prevout (f x) = prevout x) →
  StronglySorted input_key_le l → StronglySorted input_key_le (map f l).
Proof.
  intros Hf. induction 1 as [|x l Hl IH Hx]; simpl; constructor.
  - exact IH.
  - apply Forall_map. eapply Forall_impl; [exact Hx |].
    intros y Hy. unfold input_key_le in *. rewrite !Hf. exact Hy.
Qed.

Lemma resign_prevout txin x :
  prevout (if matches_input txin x then set_scriptSig (scriptSig txin) x else x)
  = prevout x.
Proof. destruct (matches_input txin x); reflexivity. Qed.

Lemma AddScriptSig_keeps_session env txin :
  respects (keeps session_inv) (AddScriptSig env txin).
Proof.
  intros w H. unfold exec. rewrite AddScriptSig_run.
  destruct (existsb _ _); [exact H |].
  destruct (negb _); [exact H |]. cbv zeta.
  destruct H as (H1 & H2 & H3 & H4 & H5 & H6 & [H7 H7'] & H8).
  assert (Hp : map prevout
                 (map (λ x, if matches_input txin x
                            then set_scriptSig (scriptSig txin) x else x)
                      (vin (finalMutableTransaction (srv w))))
               = map prevout (vin (finalMutableTransaction (srv w)))).
  { rewrite map_map. apply map_ext. intros x. apply resign_prevout. }
  assert (Hfinal : nState (srv w) ≠ POOL_STATE_SIGNING →
                   mkTx (map (λ x, if matches_input txin x
                                   then set_scriptSig (scriptSig txin) x else x)
                             (vin (finalMutableTransaction (srv w))))
                        (vout (finalMutableTransaction (srv w))) = mkTx [] []).
  { intros Hs. rewrite (H6 Hs). reflexivity. }
  assert (Hsorted : StronglySorted input_key_le
                      (map (λ x, if matches_input txin x
                                 then set_scriptSig (scriptSig txin) x else x)
                           (vin (finalMutableTransaction (srv w))))).
  { apply sorted_inputs_map; [apply resign_prevout | exact H7]. }
  destruct (sign_first_entry txin (vecEntries (srv w))) as [es|] eqn:E; simpl.
  - unfold session_inv, canonical. simpl.
    split; [exact H1 |]. split; [exact H2 |]. split; [exact H3 |].
    split; [exact H4 |]. split; [exact H5 |]. split; [exact Hfinal |].
    split; [split; assumption |].
    intros Hs. destruct (H8 Hs) as [Ha Hb]. rewrite Hp.
    rewrite entries_inputs_outpoints, (sign_first_entry_outpoints _ _ _ E),
      <- entries_inputs_outpoints.
    rewrite entries_outputs_concat, (sign_first_entry_outputs _ _ _ E),
      <- entries_outputs_concat.
    split; assumption.
  - unfold session_inv, canonical. simpl.
    split; [exact H1 |]. split; [exact H2 |]. split; [exact H3 |].
    split; [exact H4 |]. split; [exact H5 |]. split; [exact Hfinal |].
    split; [split; assumption |].
    intros Hs. destruct (H8 Hs) as [Ha Hb]. rewrite Hp. split; assumption.
Qed.

#[global] Hint Resolve CheckTimeout_keeps_session AddScriptSig_keeps_session
  : session.

Lemma CreateFinalTransaction_session env w :
  fMasternodeMode env = true →
  nState (srv w) ≠ POOL_STATE_IDLE →
  session_inv (srv w) →
  session_inv (srv (exec (CreateFinalTransaction env) w)).
Proof.
  intros Hmn Hst (H1 & H2 & H3 & H4 & H5 & H6 & H7 & H8).
  pose proof (CreateFinalTransaction_srv env w) as E. cbv zeta in E.
  rewrite E, Hmn. clear E.
  destruct (_ && _); [apply session_inv_null |].
  unfold session_inv, canonical. simpl.
  split; [discriminate |]. split; [discriminate |].
  split; [split; [discriminate | intros Hid; apply H3 in Hid; contradiction] |].
  split; [exact H4 |].
  split; [split; [discriminate | intros Hc; apply H5 in Hc; contradiction] |].
  split; [intros Hs; contradiction |].
  split; [split; [apply std_sort_inputs_sorted | apply std_sort_outputs_sorted] |].
  intros _. split; [| apply std_sort_Permutation].
  apply Permutation_map, std_sort_Permutation.
Qed.

Lemma CheckPool_keeps_session env : respects (keeps session_inv) (CheckPool env).
Proof.
  intros w H. unfold CheckPool.
  destruct (fMasternodeMode env) eqn:Hmn; simpl; [| exact H].
  rewrite exec_bind. change (eval get_srv w) with (srv w).
  change (exec get_srv w) with w.
  destruct (bool_decide (nState (srv w) = POOL_STATE_ACCEPTING_ENTRIES)) eqn:Est;
    simpl.
  - apply bool_decide_eq_true in Est.
    assert (Hni : nState (srv w) ≠ POOL_STATE_IDLE) by congruence.
    destruct (bool_decide _).
    { apply CreateFinalTransaction_session; assumption. }
    destruct (_ && _).
    + rewrite exec_bind. apply CreateFinalTransaction_session; [exact Hmn | |];
        rewrite (ChargeFees_same_srv env w); assumption.
    + rewrite Est. simpl. exact H.
  - destruct (_ && _); [| exact H].
    apply CommitFinalTransaction_keeps_session, H.
Qed.

Lemma CheckForCompleteQueue_keeps_session env :
  respects (keeps session_inv) (CheckForCompleteQueue env).
Proof.
  intros w H. unfold CheckForCompleteQueue.
  destruct (fMasternodeMode env) eqn:Hmn; simpl; [| exact H].
  rewrite exec_bind. change (eval get_srv w) with (srv w).
  change (exec get_srv w) with w.
  destruct (bool_decide (nState (srv w) = POOL_STATE_QUEUE)) eqn:Est; simpl;
    [| exact H].
  apply bool_decide_eq_true in Est.
  destruct (IsSessionReady env (srv w)); [| exact H].
  rewrite exec_bind. cbv zeta.
  rewrite (emit_same_srv _ _), SetState_srv, Hmn. simpl.
  destruct H as (H1 & H2 & H3 & H4 & H5 & H6 & H7 & H8).
  unfold session_inv. simpl.
  split; [discriminate |]. split; [discriminate |].
  split; [split; [discriminate | intros Hid; apply H3 in Hid; congruence] |].
  split; [exact H4 |].
  split; [split; [discriminate | intros Hc; apply H5 in Hc; congruence] |].
  split; [intros _; apply H6; congruence |].
  split; [exact H7 | discriminate].
Qed.

Lemma CreateNewSession_keeps_session env dsa msg :
  respects (keeps session_inv) (CreateNewSession env dsa msg).
Proof.
  intros w H. unfold exec. rewrite CreateNewSession_run.
  destruct (_ || _); [exact H |].
  destruct (bool_decide (nState (srv w) = POOL_STATE_IDLE)) eqn:Est; simpl;
    [| exact H].
  apply bool_decide_eq_true in Est.
  destruct (negb _); [exact H |]. simpl.
  destruct H as (H1 & H2 & H3 & H4 & H5 & H6 & H7 & H8).
  assert (Hr : 0 ≤ RandRaw env (nRandCalls w) `mod` 999999 < 999999)
    by (apply Z.mod_pos_bound; lia).
  unfold session_inv. simpl.
  split; [discriminate |]. split; [discriminate |].
  split; [split; [discriminate | lia] |].
  split; [lia |].
  split; [split; [discriminate | intros Hc; destruct (app_cons_not_nil _ _ _ (eq_sym Hc))] |].
  split; [intros _; apply H6; congruence |].
  split; [exact H7 | discriminate].
Qed.

Lemma AddUserToExistingSession_keeps_session env dsa msg :
  respects (keeps session_inv) (AddUserToExistingSession env dsa msg).
Proof.
  intros w H. unfold exec. rewrite AddUserToExistingSession_run.
  destruct (_ || _); [exact H |].
  destruct (negb _); [exact H |].
  destruct (bool_decide (nState (srv w) = POOL_STATE_QUEUE)) eqn:Est; simpl;
    [| exact H].
  apply bool_decide_eq_true in Est.
  destruct (negb _); [exact H |]. simpl.
  destruct H as (H1 & H2 & H3 & H4 & H5 & H6 & H7 & H8).
  unfold session_inv. simpl.
  split; [exact H1 |]. split; [exact H2 |]. split; [exact H3 |].
  split; [exact H4 |].
  split; [split; [congruence | intros Hc; destruct (app_cons_not_nil _ _ _ (eq_sym Hc))] |].
  split; [exact H6 |]. split; [exact H7 | exact H8].
Qed.

#[global] Hint Resolve CheckPool_keeps_session CheckForCompleteQueue_keeps_session
  CreateNewSession_keeps_session AddUserToExistingSession_keeps_session : session.

(** Outside Signing an accepted entry leaves the invariant in place. *)
Lemma AddEntry_session env entry msg w :
  nState (srv w) ≠ POOL_STATE_SIGNING →
  session_inv (srv w) → session_inv (srv (exec (AddEntry env entry msg) w)).
Proof.
  intros Hs H. rewrite AddEntry_srv.
  destruct (eval (AddEntry env entry msg) w).1; [| exact H].
  destruct H as (H1 & H2 & H3 & H4 & H5 & H6 & H7 & H8).
  unfold session_inv. simpl.
  split; [exact H1 |]. split; [exact H2 |]. split; [exact H3 |].
  split; [exact H4 |]. split; [exact H5 |]. split; [exact H6 |].
  split; [exact H7 |]. intros Hs'. contradiction.
Qed.

Lemma IsSessionReady_states env s :
  IsSessionReady env s = true →
  nState s = POOL_STATE_QUEUE ∨ nState s = POOL_STATE_ACCEPTING_ENTRIES.
Proof.
  unfold IsSessionReady.
  destruct (bool_decide (nState s = POOL_STATE_QUEUE)) eqn:E; simpl.
  - intros _. left. apply bool_decide_eq_true in E. exact E.
  - intros H. right. apply bool_decide_eq_true in H. exact H.
Qed.

Lemma DSSIGNFINALTX_loop_keeps_session env l :
  respects (keeps session_inv) (DSSIGNFINALTX_loop env l).
Proof. induction l as [|txin l IH]; simpl; session_auto. Qed.

#[global] Hint Resolve DSSIGNFINALTX_loop_keeps_session : session.

Lemma ProcessMessage_DSVIN_keeps_session env pfrom entry :
  respects (keeps session_inv) (ProcessMessage_DSVIN env pfrom entry).
Proof.
  intros w H. unfold ProcessMessage_DSVIN. cbv zeta.
  destruct (obsolete pfrom).
  { rewrite exec_bind, (PushStatus_same_srv _ _ _ _). exact H. }
  rewrite exec_bind. change (eval get_srv w) with (srv w).
  change (exec get_srv w) with w.
  destruct (IsSessionReady env (srv w)) eqn:Er; cbn [negb].
  2:{ rewrite (PushStatus_same_srv _ _ _ _). exact H. }
  assert (Hs : nState (srv w) ≠ POOL_STATE_SIGNING).
  { apply IsSessionReady_states in Er as [Er | Er]; congruence. }
  rewrite exec_bind.
  pose proof (AddEntry_session env (with_addr (node_addr pfrom) entry)
                MSG_NOERR w Hs H) as Ha.
  set (w1 := exec (AddEntry _ _ _) w) in *.
  destruct (eval (AddEntry _ _ _) w) as [ok m]. destruct ok.
  - rewrite !exec_bind. apply RelayStatus_keeps_session, CheckPool_keeps_session.
    rewrite (PushStatus_same_srv _ _ _ _). exact Ha.
  - rewrite (PushStatus_same_srv _ _ _ _). exact Ha.
Qed.

#[global] Hint Resolve ProcessMessage_DSVIN_keeps_session : session.

Lemma ProcessMessage_keeps_session env pfrom msg :
  respects (keeps session_inv) (ProcessMessage env pfrom msg).
Proof.
  unfold ProcessMessage, ProcessMessage_DSACCEPT, ProcessMessage_DSQUEUE,
    ProcessMessage_DSSIGNFINALTX.
  session_auto.
Qed.

Lemma DoMaintenance_keeps_session env :
  respects (keeps session_inv) (DoMaintenance env).
Proof. unfold DoMaintenance. session_auto. Qed.

(** The session invariant holds in every reachable world. *)
Lemma reachable_session_inv w : reachable w → session_inv (srv w).
Proof.
  induction 1 as [w t H | w w' Hr IH Hs].
  - rewrite H. apply session_inv_null.
  - destruct Hs as [env pfrom msg w | env w | w w' E].
    + apply ProcessMessage_keeps_session, IH.
    + apply DoMaintenance_keeps_session, IH.
    + rewrite E. exact IH.
Qed.

Lemma reachable_world_signing : reachable world_signing.
Proof.
  unfold world_signing. apply reachable_run. unfold world_accepting.
  eapply reachable_step; [| apply step_tick].
  unfold world_three_joined. apply reachable_run, reachable_init_world.
Qed.

(** X3. In every world the server can reach from a null session by
    handling messages and maintenance ticks, the state is never Error nor
    Success, the session id lies in [0, 999999], and the three marks of
    an idle server go together: state Idle, session id 0, no collateral
    held.  An idle server holds no entry and no final transaction. *)
Theorem session_state_invariant w :
  reachable w →
  nState (srv w) ≠ POOL_STATE_ERROR ∧
  nState (srv w) ≠ POOL_STATE_SUCCESS ∧
  0 ≤ nSessionID (srv w) ≤ 999999 ∧
  (nState (srv w) = POOL_STATE_IDLE ↔ nSessionID (srv w) = 0) ∧
  (nState (srv w) = POOL_STATE_IDLE ↔ vecSessionCollaterals (srv w) = []) ∧
  (nState (srv w) = POOL_STATE_IDLE →
   vecEntries (srv w) = [] ∧ finalMutableTransaction (srv w) = mkTx [] []).
Proof.
  intros H.
  destruct (reachable_session_inv w H) as (H1 & H2 & H3 & H4 & H5 & H6 & _).
  destruct (reachable_pool_inv w H) as [Hle _].
  split; [exact H1 |]. split; [exact H2 |]. split; [exact H4 |].
  split; [exact H3 |]. split; [exact H5 |].
  intros Hi. split; [| apply H6; congruence].
  apply H5 in Hi. rewrite Hi in Hle. simpl in Hle.
  destruct (vecEntries (srv w)); [reflexivity | simpl in Hle; lia].
Qed.

Lemma session_state_invariant_witness :
  nState (srv world_signing) ≠ POOL_STATE_ERROR ∧
  nState (srv world_signing) ≠ POOL_STATE_SUCCESS ∧
  0 ≤ nSessionID (srv world_signing) ≤ 999999 ∧
  (nState (srv world_signing) = POOL_STATE_IDLE ↔ nSessionID (srv world_signing) = 0) ∧
  (nState (srv world_signing) = POOL_STATE_IDLE
   ↔ vecSessionCollaterals (srv world_signing) = []) ∧
  (nState (srv world_signing) = POOL_STATE_IDLE →
   vecEntries (srv world_signing) = [] ∧
   finalMutableTransaction (srv world_signing) = mkTx [] []).
Proof. apply (session_state_invariant world_signing), reachable_world_signing. Defined.

(** X4. In every reachable world the final transaction is empty unless
    the state is Signing, its inputs and outputs are in the canonical
    order, and in Signing it spends exactly the outpoints of the admitted
    entries and pays exactly their outputs (as multisets), however many
    signatures have come in since it was assembled. *)
Theorem final_transaction_invariant w :
  reachable w →
  (nState (srv w) ≠ POOL_STATE_SIGNING →
   finalMutableTransaction (srv w) = mkTx [] []) ∧
  StronglySorted input_key_le (vin (finalMutableTransaction (srv w))) ∧
  StronglySorted output_key_le (vout (finalMutableTransaction (srv w))) ∧
  (nState (srv w) = POOL_STATE_SIGNING →
   map prevout (vin (finalMutableTransaction (srv w)))
     ≡ₚ concat (map entry_outpoints (vecEntries (srv w))) ∧
   vout (finalMutableTransaction (srv w))
     ≡ₚ entries_outputs (vecEntries (srv w))).
Proof.
  intros H.
  destruct (reachable_session_inv w H) as (_ & _ & _ & _ & _ & H6 & [H7 H7'] & H8).
  split; [exact H6 |]. split; [exact H7 |]. split; [exact H7' |].
  intros Hs. rewrite <- entries_inputs_outpoints. apply H8, Hs.
Qed.

Lemma final_transaction_invariant_witness :
  (nState (srv world_signing) ≠ POOL_STATE_SIGNING →
   finalMutableTransaction (srv world_signing) = mkTx [] []) ∧
  StronglySorted input_key_le (vin (finalMutableTransaction (srv world_signing))) ∧
  StronglySorted output_key_le (vout (finalMutableTransaction (srv world_signing))) ∧
  (nState (srv world_signing) = POOL_STATE_SIGNING →
   map prevout (vin (finalMutableTransaction (srv world_signing)))
     ≡ₚ concat (map entry_outpoints (vecEntries (srv world_signing))) ∧
   vout (finalMutableTransaction (srv world_signing))
     ≡ₚ entries_outputs (vecEntries (srv world_signing))).
Proof. apply (final_transaction_invariant world_signing), reachable_world_signing. Defined.

(** ** Replies and refusals *)

Lemma notified_nil w : notified [] w = w.
Proof. destruct w. unfold notified. simpl. rewrite app_nil_r. reflexivity. Qed.

Lemma notified_app a b w : notified b (notified a w) = notified (a ++ b) w.
Proof. unfold notified. simpl. rewrite app_assoc. reflexivity. Qed.

Lemma exec_emit e w : exec (emit e) w = notified [e] w.
Proof. reflexivity. Qed.

Lemma exec_PushStatus to u m w :
  exec (PushStatus to u m) w = notified [EvStatusUpdate to (status_of (srv w) u m)] w.
Proof. reflexivity. Qed.

Lemma events_of_notified {A} (m : M A) evs w :
  exec m w = notified evs w → events_of m w = evs.
Proof.
  intros E. unfold events_of. rewrite E. simpl. apply drop_app_length.
Qed.

Lemma in_operation_run env pfrom msg :
  in_operation env →
  ProcessMessage env pfrom msg
  = match msg with
    | DSACCEPT dsa => ProcessMessage_DSACCEPT env pfrom dsa
    | DSQUEUE dsq => ProcessMessage_DSQUEUE env pfrom dsq
    | DSVIN entry => ProcessMessage_DSVIN env pfrom entry
    | DSSIGNFINALTX vecTxIn => ProcessMessage_DSSIGNFINALTX env pfrom vecTxIn
    | OtherCommand => skip
    end.
Proof. intros (H1 & H2 & H3). unfold ProcessMessage. rewrite H1, H2, H3. reflexivity. Qed.

(** X5. A peer below the minimum protocol version gets a REJECT for
    every pool command, preceded by nothing and followed, for DSACCEPT
    and DSVIN only, by a status update REJECTED with ERR_VERSION; the
    session, the mempool, the broadcast index and the advertisement
    ledger are left as they were, whatever the message carries and
    whatever the state. *)
Theorem ProcessMessage_obsolete_peer env pfrom msg w :
  in_operation env →
  nVersion pfrom < MIN_PRIVATESEND_PEER_PROTO_VERSION →
  exec (ProcessMessage env pfrom msg) w
  = notified
      match msg with
      | DSACCEPT _ | DSVIN _ =>
          [EvReject (node_addr pfrom);
           EvStatusUpdate (node_addr pfrom)
                          (status_of (srv w) STATUS_REJECTED ERR_VERSION)]
      | DSQUEUE _ | DSSIGNFINALTX _ => [EvReject (node_addr pfrom)]
      | OtherCommand => []
      end w.
Proof.
  intros Hop Hv. rewrite (in_operation_run env pfrom msg Hop).
  assert (Ho : obsolete pfrom = true) by (apply Z.ltb_lt, Hv).
  destruct msg; simpl.
  - unfold ProcessMessage_DSACCEPT. cbv zeta. rewrite Ho.
    rewrite exec_bind, exec_emit, exec_PushStatus, notified_app. reflexivity.
  - unfold ProcessMessage_DSQUEUE. rewrite Ho. reflexivity.
  - unfold ProcessMessage_DSVIN. cbv zeta. rewrite Ho.
    rewrite exec_bind, exec_emit, exec_PushStatus, notified_app. reflexivity.
  - unfold ProcessMessage_DSSIGNFINALTX. rewrite Ho. reflexivity.
  - rewrite exec_skip, notified_nil. reflexivity.
Qed.

Lemma in_operation_env_all_up : in_operation env_all_up.
Proof. split; [reflexivity | split; reflexivity]. Qed.

Lemma ProcessMessage_obsolete_peer_witness :
  exec (ProcessMessage env_all_up old_peer (DSVIN entry_A)) world_signing
  = notified
      [EvReject (node_addr old_peer);
       EvStatusUpdate (node_addr old_peer)
                      (status_of (srv world_signing) STATUS_REJECTED ERR_VERSION)]
      world_signing.
Proof.
  apply (ProcessMessage_obsolete_peer env_all_up old_peer (DSVIN entry_A)
           world_signing in_operation_env_all_up).
  vm_compute. reflexivity.
Defined.

(** X6. Off a masternode every entry point of the server returns at once:
    messages and ticks, the pool checks, the fee functions, the commit and
    the state setter leave the world as it is, the timeout test is false,
    and the functions that take a join request or an entry refuse it with
    the message id they were handed. *)
Theorem not_masternode_noop env w :
  fMasternodeMode env = false →
  (∀ pfrom msg, exec (ProcessMessage env pfrom msg) w = w) ∧
  exec (DoMaintenance env) w = w ∧
  exec (CheckForCompleteQueue env) w = w ∧
  exec (CheckPool env) w = w ∧
  exec (CheckTimeout env) w = w ∧
  exec (ChargeFees env) w = w ∧
  exec (ChargeRandomFees env) w = w ∧
  exec (CommitFinalTransaction env) w = w ∧
  (∀ st, exec (SetState env st) w = w) ∧
  HasTimedOut env (srv w) = false ∧
  (∀ dsa msg, IsAcceptableDSA env dsa msg = (false, msg)) ∧
  (∀ dsa msg, CreateNewSession env dsa msg w = (false, msg, w)) ∧
  (∀ dsa msg, AddUserToExistingSession env dsa msg w = (false, msg, w)) ∧
  (∀ entry msg, AddEntry env entry msg w = (false, msg, w)).
Proof.
  intros H.
  split; [intros pfrom msg; unfold ProcessMessage; rewrite H; reflexivity |].
  split; [unfold DoMaintenance; rewrite H; destruct (fLiteMode env); reflexivity |].
  split; [unfold CheckForCompleteQueue; rewrite H; reflexivity |].
  split; [unfold CheckPool; rewrite H; reflexivity |].
  split; [unfold CheckTimeout; rewrite H; reflexivity |].
  split; [unfold ChargeFees; rewrite H; reflexivity |].
  split; [unfold ChargeRandomFees; rewrite H; reflexivity |].
  split; [unfold CommitFinalTransaction; rewrite H; reflexivity |].
  split; [intros st; unfold SetState; rewrite H; reflexivity |].
  split; [unfold HasTimedOut; rewrite H; reflexivity |].
  split; [intros dsa msg; unfold IsAcceptableDSA; rewrite H; reflexivity |].
  split; [intros dsa msg; unfold CreateNewSession; unfold_m; rewrite H; reflexivity |].
  split; [intros dsa msg; unfold AddUserToExistingSession; unfold_m; rewrite H;
          reflexivity |].
  intros entry msg. unfold AddEntry. rewrite H. reflexivity.
Qed.

Lemma not_masternode_noop_witness :
  (∀ pfrom msg, exec (ProcessMessage env_not_masternode pfrom msg) world_signing
                = world_signing) ∧
  exec (DoMaintenance env_not_masternode) world_signing = world_signing ∧
  exec (CheckForCompleteQueue env_not_masternode) world_signing = world_signing ∧
  exec (CheckPool env_not_masternode) world_signing = world_signing ∧
  exec (CheckTimeout env_not_masternode) world_signing = world_signing ∧
  exec (ChargeFees env_not_masternode) world_signing = world_signing ∧
  exec (ChargeRandomFees env_not_masternode) world_signing = world_signing ∧
  exec (CommitFinalTransaction env_not_masternode) world_signing = world_signing ∧
  (∀ st, exec (SetState env_not_masternode st) world_signing = world_signing) ∧
  HasTimedOut env_not_masternode (srv world_signing) = false ∧
  (∀ dsa msg, IsAcceptableDSA env_not_masternode dsa msg = (false, msg)) ∧
  (∀ dsa msg, CreateNewSession env_not_masternode dsa msg world_signing
              = (false, msg, world_signing)) ∧
  (∀ dsa msg, AddUserToExistingSession env_not_masternode dsa msg world_signing
              = (false, msg, world_signing)) ∧
  (∀ entry msg, AddEntry env_not_masternode entry msg world_signing
                = (false, msg, world_signing)).
Proof. apply (not_masternode_noop env_not_masternode world_signing). reflexivity. Defined.

(** ** Advertisements of other masternodes *)

Lemma with_queue_same s : with_queue (vecPrivateSendQueue s) s = s.
Proof. destruct s. reflexivity. Qed.

Lemma snoc_neq {A} (l : list A) x : l ++ [x] ≠ l.
Proof.
  intros E. apply (f_equal length) in E. rewrite length_app in E. simpl in E. lia.
Qed.

(** The four ways the DSQUEUE handler can end. *)
Lemma ProcessMessage_DSQUEUE_cases env pfrom dsq w :
  exec (ProcessMessage_DSQUEUE env pfrom dsq) w = w ∨
  (obsolete pfrom = true ∧
   exec (ProcessMessage_DSQUEUE env pfrom dsq) w
   = notified [EvReject (node_addr pfrom)] w) ∨
  (obsolete pfrom = false ∧
   exec (ProcessMessage_DSQUEUE env pfrom dsq) w
   = notified [EvMisbehaving (node_id pfrom) 10] w) ∨
  ∃ dmn,
    obsolete pfrom = false ∧ tryLock_cs_vecqueue env = true ∧
    fReady dsq = false ∧ IsTimeOutOfBounds env dsq = false ∧
    GetValidMNByCollateral env (masternodeOutpoint dsq) = Some dmn ∧
    CheckSignatureQueue env (pubKeyOperator dmn) dsq = true ∧
    existsb (λ q, queue_eqb q dsq ||
                  (bool_decide (fReady q = fReady dsq) &&
                   bool_decide (masternodeOutpoint q = masternodeOutpoint dsq)))
            (vecPrivateSendQueue (srv w)) = false ∧
    exec (ProcessMessage_DSQUEUE env pfrom dsq) w
    = mkWorld (with_queue (vecPrivateSendQueue (srv w) ++ [dsq]) (srv w))
              (mapDSTX w) (mempool w) (nDsqCount w + 1)
              (<[proTxHash dmn := nDsqCount w + 1]> (mapLastDsq w))
              (nRandCalls w) (log w ++ [EvRelayQueue dsq]).
Proof.
  unfold ProcessMessage_DSQUEUE.
  destruct (obsolete pfrom) eqn:Eo; [right; left; split; reflexivity |].
  destruct (tryLock_cs_vecqueue env) eqn:El; [| left; reflexivity].
  unfold_m.
  destruct (existsb _ _) eqn:Ex; [left; reflexivity |].
  destruct (IsTimeOutOfBounds env dsq) eqn:Et; [left; reflexivity |].
  destruct (GetValidMNByCollateral env _) as [dmn|] eqn:Em; [| left; reflexivity].
  destruct (CheckSignatureQueue env _ dsq) eqn:Es; simpl;
    [| right; right; left; split; reflexivity].
  destruct (fReady dsq) eqn:Er; simpl; [left; reflexivity |].
  unfold GetLastDsq, AllowMixing. simpl.
  destruct (negb _ && _); simpl; [left; reflexivity |].
  right. right. right. exists dmn.
  repeat (split; [reflexivity || assumption |]). reflexivity.
Qed.

(** X7. The DSQUEUE handler touches nothing of the session but the
    list of advertisements, and neither the mempool nor the broadcast
    index.  When it stores the advertisement it appends exactly that one,
    which is then not a ready one, comes from a recent enough peer, is
    within its time bounds, is signed by a known masternode and repeats no
    stored advertisement of that masternode with the same readiness; the
    advertisement counter goes up by one, the masternode is stamped with
    it, the advertisement is relayed, and the same message arriving again
    is dropped without any effect.  When it stores nothing, it sends
    nothing at all, or only a REJECT to an obsolete peer, or it only
    scores a peer of an accepted version 10 for misbehaviour. *)
Theorem DSQUEUE_stored_once env pfrom dsq w :
  (srv (exec (ProcessMessage_DSQUEUE env pfrom dsq) w)
   = with_queue
       (vecPrivateSendQueue (srv (exec (ProcessMessage_DSQUEUE env pfrom dsq) w)))
       (srv w) ∧
   mapDSTX (exec (ProcessMessage_DSQUEUE env pfrom dsq) w) = mapDSTX w ∧
   mempool (exec (ProcessMessage_DSQUEUE env pfrom dsq) w) = mempool w) ∧
  (vecPrivateSendQueue (srv (exec (ProcessMessage_DSQUEUE env pfrom dsq) w))
   ≠ vecPrivateSendQueue (srv w) →
   vecPrivateSendQueue (srv (exec (ProcessMessage_DSQUEUE env pfrom dsq) w))
   = vecPrivateSendQueue (srv w) ++ [dsq] ∧
   fReady dsq = false ∧
   MIN_PRIVATESEND_PEER_PROTO_VERSION ≤ nVersion pfrom ∧
   IsTimeOutOfBounds env dsq = false ∧
   (∃ dmn, GetValidMNByCollateral env (masternodeOutpoint dsq) = Some dmn ∧
           CheckSignatureQueue env (pubKeyOperator dmn) dsq = true ∧
           mapLastDsq (exec (ProcessMessage_DSQUEUE env pfrom dsq) w)
             !! proTxHash dmn = Some (nDsqCount w + 1)) ∧
   Forall (λ q, ¬ (fReady q = fReady dsq ∧
                   masternodeOutpoint q = masternodeOutpoint dsq))
          (vecPrivateSendQueue (srv w)) ∧
   nDsqCount (exec (ProcessMessage_DSQUEUE env pfrom dsq) w) = nDsqCount w + 1 ∧
   events_of (ProcessMessage_DSQUEUE env pfrom dsq) w = [EvRelayQueue dsq] ∧
   exec (ProcessMessage_DSQUEUE env pfrom dsq)
        (exec (ProcessMessage_DSQUEUE env pfrom dsq) w)
   = exec (ProcessMessage_DSQUEUE env pfrom dsq) w) ∧
  (vecPrivateSendQueue (srv (exec (ProcessMessage_DSQUEUE env pfrom dsq) w))
   = vecPrivateSendQueue (srv w) →
   events_of (ProcessMessage_DSQUEUE env pfrom dsq) w = [] ∨
   (nVersion pfrom < MIN_PRIVATESEND_PEER_PROTO_VERSION ∧
    events_of (ProcessMessage_DSQUEUE env pfrom dsq) w
    = [EvReject (node_addr pfrom)]) ∨
   (MIN_PRIVATESEND_PEER_PROTO_VERSION ≤ nVersion pfrom ∧
    events_of (ProcessMessage_DSQUEUE env pfrom dsq) w
    = [EvMisbehaving (node_id pfrom) 10])).
Proof.
  assert (Hquiet : ∀ evs,
    exec (ProcessMessage_DSQUEUE env pfrom dsq) w = notified evs w →
    (srv (exec (ProcessMessage_DSQUEUE env pfrom dsq) w)
     = with_queue
         (vecPrivateSendQueue (srv (exec (ProcessMessage_DSQUEUE env pfrom dsq) w)))
         (srv w) ∧
     mapDSTX (exec (ProcessMessage_DSQUEUE env pfrom dsq) w) = mapDSTX w ∧
     mempool (exec (ProcessMessage_DSQUEUE env pfrom dsq) w) = mempool w) ∧
    vecPrivateSendQueue (srv (exec (ProcessMessage_DSQUEUE env pfrom dsq) w))
    = vecPrivateSendQueue (srv w) ∧
    events_of (ProcessMessage_DSQUEUE env pfrom dsq) w = evs).
  { intros evs E. rewrite (events_of_notified _ evs w E), E. simpl.
    rewrite with_queue_same. repeat split; reflexivity. }
  destruct (ProcessMessage_DSQUEUE_cases env pfrom dsq w)
    as [E | [[Eo E] | [[Eo E] | (dmn & Eo & El & Er & Et & Em & Es & Ex & E)]]].
  - rewrite <- (notified_nil w) in E at 2.
    destruct (Hquiet _ E) as (Hf & Hq & Hev).
    split; [exact Hf |]. split; [intros Hne; contradiction |].
    intros _. left. exact Hev.
  - destruct (Hquiet _ E) as (Hf & Hq & Hev).
    split; [exact Hf |]. split; [intros Hne; contradiction |].
    intros _. right. left. split; [apply Z.ltb_lt, Eo | exact Hev].
  - destruct (Hquiet _ E) as (Hf & Hq & Hev).
    split; [exact Hf |]. split; [intros Hne; contradiction |].
    intros _. right. right. split; [apply Z.ltb_ge, Eo | exact Hev].
  - rewrite E. simpl.
    split; [repeat split; reflexivity |].
    split; [| intros Hq; destruct (snoc_neq _ _ Hq)].
    intros _.
    split; [reflexivity |]. split; [exact Er |].
    split; [apply Z.ltb_ge, Eo |]. split; [exact Et |].
    split; [exists dmn; split; [exact Em |]; split; [exact Es |];
            apply lookup_insert_eq |].
    split.
    { apply Forall_forall. intros q Hq [H1 H2].
      apply not_true_iff_false in Ex. apply Ex.
      apply existsb_exists. exists q. split; [apply list_elem_of_In, Hq |].
      rewrite (bool_decide_eq_true_2 _ H1), (bool_decide_eq_true_2 _ H2).
      apply orb_true_r. }
    split; [reflexivity |].
    split; [unfold events_of; rewrite E; simpl; apply drop_app_length |].
    unfold ProcessMessage_DSQUEUE. rewrite Eo, El. unfold_m.
    rewrite existsb_app. simpl.
    rewrite !bool_decide_eq_true_2 by reflexivity.
    rewrite !orb_true_r. reflexivity.
Qed.

Lemma DSQUEUE_stored_once_witness :
  vecPrivateSendQueue
    (srv (exec (ProcessMessage_DSQUEUE env_all_up (peer 1) foreign_dsq) init_world))
  = vecPrivateSendQueue (srv init_world) ++ [foreign_dsq] ∧
  fReady foreign_dsq = false ∧
  MIN_PRIVATESEND_PEER_PROTO_VERSION ≤ nVersion (peer 1) ∧
  IsTimeOutOfBounds env_all_up foreign_dsq = false ∧
  (∃ dmn, GetValidMNByCollateral env_all_up (masternodeOutpoint foreign_dsq)
          = Some dmn ∧
          CheckSignatureQueue env_all_up (pubKeyOperator dmn) foreign_dsq = true ∧
          mapLastDsq (exec (ProcessMessage_DSQUEUE env_all_up (peer 1) foreign_dsq)
                           init_world)
            !! proTxHash dmn = Some (nDsqCount init_world + 1)) ∧
  Forall (λ q, ¬ (fReady q = fReady foreign_dsq ∧
                  masternodeOutpoint q = masternodeOutpoint foreign_dsq))
         (vecPrivateSendQueue (srv init_world)) ∧
  nDsqCount (exec (ProcessMessage_DSQUEUE env_all_up (peer 1) foreign_dsq) init_world)
  = nDsqCount init_world + 1 ∧
  events_of (ProcessMessage_DSQUEUE env_all_up (peer 1) foreign_dsq) init_world
  = [EvRelayQueue foreign_dsq] ∧
  exec (ProcessMessage_DSQUEUE env_all_up (peer 1) foreign_dsq)
       (exec (ProcessMessage_DSQUEUE env_all_up (peer 1) foreign_dsq) init_world)
  = exec (ProcessMessage_DSQUEUE env_all_up (peer 1) foreign_dsq) init_world.
Proof.
  destruct (DSQUEUE_stored_once env_all_up (peer 1) foreign_dsq init_world)
    as (_ & H & _).
  apply H. vm_compute. discriminate.
Defined.

(** ** The commit that fails *)



(** ** The maintenance tick *)

Lemma HasTimedOut_spec env s :
  fMasternodeMode env = true →
  nState s ≠ POOL_STATE_IDLE →
  HasTimedOut env s
  = ((if bool_decide (nState s = POOL_STATE_SIGNING)
      then PRIVATESEND_SIGNING_TIMEOUT else PRIVATESEND_QUEUE_TIMEOUT)
     <=? GetTime env - nTimeLastSuccessfulStep s).
Proof.
  intros Hmn Hst. unfold HasTimedOut. rewrite Hmn. simpl.
  rewrite (bool_decide_eq_false_2 _ Hst). apply Z.geb_leb.
Qed.

(** X9. On a masternode the tick opens the pool exactly in state Queue
    and when the session is full, or has waited the queue timeout of 30
    seconds with the minimum of participants: the state becomes
    AcceptingEntries, the step time is set to the clock, and a signed
    advertisement marked ready is relayed for the denomination of the
    session, though not stored in the server's own list.  In every other
    case the call changes nothing. *)
Theorem CheckForCompleteQueue_opens_pool env w :
  fMasternodeMode env = true →
  (nState (srv w) = POOL_STATE_QUEUE →
   GetMaxPoolParticipants env ≤ Z.of_nat (length (vecSessionCollaterals (srv w))) ∨
   (PRIVATESEND_QUEUE_TIMEOUT ≤ GetTime env - nTimeLastSuccessfulStep (srv w) ∧
    GetMinPoolParticipants env ≤ Z.of_nat (length (vecSessionCollaterals (srv w)))) →
   exec (CheckForCompleteQueue env) w
   = notified [EvState POOL_STATE_ACCEPTING_ENTRIES;
               EvRelayQueue (session_dsq env (nSessionDenom (srv w)) true)]
       (with_srv (with_state POOL_STATE_ACCEPTING_ENTRIES (GetTime env) (srv w)) w)) ∧
  (nState (srv w) = POOL_STATE_QUEUE →
   Z.of_nat (length (vecSessionCollaterals (srv w))) < GetMaxPoolParticipants env →
   GetTime env - nTimeLastSuccessfulStep (srv w) < PRIVATESEND_QUEUE_TIMEOUT ∨
   Z.of_nat (length (vecSessionCollaterals (srv w))) < GetMinPoolParticipants env →
   exec (CheckForCompleteQueue env) w = w) ∧
  (nState (srv w) ≠ POOL_STATE_QUEUE → exec (CheckForCompleteQueue env) w = w).
Proof.
  intros Hmn.
  assert (Hto : nState (srv w) = POOL_STATE_QUEUE →
                HasTimedOut env (srv w)
                = (PRIVATESEND_QUEUE_TIMEOUT
                   <=? GetTime env - nTimeLastSuccessfulStep (srv w))).
  { intros Hq. rewrite HasTimedOut_spec by (assumption || congruence).
    rewrite Hq. reflexivity. }
  split; [| split].
  - intros Hq Hready. unfold CheckForCompleteQueue. rewrite Hmn. unfold_m.
    unfold IsSessionReady. rewrite (Hto Hq), Hq. simpl.
    assert (E : (Z.of_nat (length (vecSessionCollaterals (srv w)))
                   >=? GetMaxPoolParticipants env)
                || ((PRIVATESEND_QUEUE_TIMEOUT
                     <=? GetTime env - nTimeLastSuccessfulStep (srv w))
                    && (Z.of_nat (length (vecSessionCollaterals (srv w)))
                          >=? GetMinPoolParticipants env)) = true).
    { rewrite !Z.geb_leb. destruct Hready as [H | [H1 H2]].
      - apply Z.leb_le in H. rewrite H. reflexivity.
      - apply Z.leb_le in H1, H2. rewrite H1, H2. apply orb_true_r. }
    rewrite E. unfold SetState. rewrite Hmn. unfold_m.
    unfold notified, session_dsq. simpl. rewrite <- app_assoc. reflexivity.
  - intros Hq Hmax Hwait. unfold CheckForCompleteQueue. rewrite Hmn. unfold_m.
    unfold IsSessionReady. rewrite (Hto Hq), Hq. simpl.
    assert (E : (Z.of_nat (length (vecSessionCollaterals (srv w)))
                   >=? GetMaxPoolParticipants env)
                || ((PRIVATESEND_QUEUE_TIMEOUT
                     <=? GetTime env - nTimeLastSuccessfulStep (srv w))
                    && (Z.of_nat (length (vecSessionCollaterals (srv w)))
                          >=? GetMinPoolParticipants env)) = false).
    { rewrite !Z.geb_leb. apply Z.leb_gt in Hmax. rewrite Hmax. simpl.
      destruct Hwait as [H | H]; apply Z.leb_gt in H; rewrite H;
        [reflexivity | apply andb_false_r]. }
    rewrite E. reflexivity.
  - intros Hq. unfold CheckForCompleteQueue. rewrite Hmn. unfold_m.
    rewrite (bool_decide_eq_false_2 _ Hq). reflexivity.
Qed.

Lemma CheckForCompleteQueue_opens_pool_witness :
  exec (CheckForCompleteQueue (env_later 1030 (λ _, 0))) world_three_joined
  = notified [EvState POOL_STATE_ACCEPTING_ENTRIES;
              EvRelayQueue (session_dsq (env_later 1030 (λ _, 0))
                                        (nSessionDenom (srv world_three_joined)) true)]
      (with_srv (with_state POOL_STATE_ACCEPTING_ENTRIES
                            (GetTime (env_later 1030 (λ _, 0)))
                            (srv world_three_joined))
                world_three_joined).
Proof.
  destruct (CheckForCompleteQueue_opens_pool (env_later 1030 (λ _, 0))
              world_three_joined) as (H & _).
  - reflexivity.
  - apply H.
    + vm_compute. reflexivity.
    + right. vm_compute. split; discriminate.
Defined.

(** X10. The timeout check never resets an idle server.  A session in
    another state is reset when at least 15 seconds (in Signing) or 30
    seconds (otherwise) have passed since its last successful step: the
    server is then in the null idle state, at most one collateral has
    been consumed, and the broadcast index is untouched.  Before that the
    check does no more than expire advertisements. *)
Theorem CheckTimeout_resets_stale_session env w :
  fMasternodeMode env = true →
  (nState (srv w) = POOL_STATE_IDLE →
   exec (CheckTimeout env) w = exec (CheckQueue env) w) ∧
  (nState (srv w) ≠ POOL_STATE_IDLE →
   GetTime env - nTimeLastSuccessfulStep (srv w)
   < (if bool_decide (nState (srv w) = POOL_STATE_SIGNING)
      then PRIVATESEND_SIGNING_TIMEOUT else PRIVATESEND_QUEUE_TIMEOUT) →
   exec (CheckTimeout env) w = exec (CheckQueue env) w) ∧
  (nState (srv w) ≠ POOL_STATE_IDLE →
   (if bool_decide (nState (srv w) = POOL_STATE_SIGNING)
    then PRIVATESEND_SIGNING_TIMEOUT else PRIVATESEND_QUEUE_TIMEOUT)
   ≤ GetTime env - nTimeLastSuccessfulStep (srv w) →
   srv (exec (CheckTimeout env) w) = null_server (GetTime env) ∧
   mapDSTX (exec (CheckTimeout env) w) = mapDSTX w ∧
   (length (consumed (CheckTimeout env) w) ≤ 1)%nat).
Proof.
  intros Hmn.
  assert (Hq : HasTimedOut env (srv (exec (CheckQueue env) w))
               = HasTimedOut env (srv w)).
  { unfold CheckQueue. destruct (tryLock_cs_vecqueue env); reflexivity. }
  assert (Hrun : exec (CheckTimeout env) w
                 = if HasTimedOut env (srv w)
                   then exec (SetNull env)
                          (exec (ChargeFees env) (exec (CheckQueue env) w))
                   else exec (CheckQueue env) w).
  { unfold CheckTimeout. rewrite Hmn. simpl.
    rewrite !exec_bind.
    change (eval get_srv (exec (CheckQueue env) w))
      with (srv (exec (CheckQueue env) w)).
    change (exec get_srv (exec (CheckQueue env) w)) with (exec (CheckQueue env) w).
    rewrite Hq. destruct (HasTimedOut env (srv w)); simpl; [| reflexivity].
    rewrite exec_bind. reflexivity. }
  split; [| split].
  - intros Hi. rewrite Hrun. unfold HasTimedOut. rewrite Hmn, Hi. reflexivity.
  - intros Hi Hlt. rewrite Hrun, HasTimedOut_spec by assumption.
    apply Z.leb_gt in Hlt. rewrite Hlt. reflexivity.
  - intros Hi Hle.
    assert (Hto : HasTimedOut env (srv w) = true).
    { rewrite HasTimedOut_spec by assumption. apply Z.leb_le, Hle. }
    split; [rewrite Hrun, Hto; apply SetNull_srv |].
    split.
    { rewrite Hrun, Hto, (SetNull_same_dstx env _).
      assert (Hc : respects same_dstx (ChargeFees env)).
      { unfold ChargeFees. respects_auto. }
      rewrite (Hc _). unfold CheckQueue.
      destruct (tryLock_cs_vecqueue env); reflexivity. }
    unfold CheckTimeout. rewrite Hmn. simpl.
    assert (Hcq : respects (logs any_event) (CheckQueue env)).
    { unfold CheckQueue. respects_auto. }
    rewrite consumed_bind; [| exact Hcq |].
    2:{ intros _. respects_auto. }
    rewrite (consumed_silent (CheckQueue env)).
    2:{ unfold CheckQueue. destruct (tryLock_cs_vecqueue env); reflexivity. }
    simpl. rewrite consumed_bind; [| respects_auto |].
    2:{ intros s. respects_auto. }
    rewrite (consumed_silent get_srv) by reflexivity. simpl.
    change (eval get_srv (exec (CheckQueue env) w))
      with (srv (exec (CheckQueue env) w)).
    change (exec get_srv (exec (CheckQueue env) w)) with (exec (CheckQueue env) w).
    rewrite Hq, Hto. simpl.
    rewrite consumed_bind; [| auto with respects |].
    2:{ intros _. auto with respects. }
    rewrite (ChargeFees_consumed env _ Hmn). cbv zeta.
    assert (Hn : ∀ w', consumed (SetNull env) w' = []).
    { intros w'. unfold consumed, events_of, SetNull,
        CPrivateSendBaseSession_SetNull, CPrivateSendBaseManager_SetNull.
      unfold_m. rewrite drop_app_length. reflexivity. }
    rewrite Hn, app_nil_r.
    destruct (_ || _); [simpl; lia |].
    destruct (random_shuffle env _); simpl; lia.
Qed.

Lemma CheckTimeout_resets_stale_session_witness :
  srv (exec (CheckTimeout env_timeout_no_luck) world_accepting)
  = null_server (GetTime env_timeout_no_luck) ∧
  mapDSTX (exec (CheckTimeout env_timeout_no_luck) world_accepting)
  = mapDSTX world_accepting ∧
  (length (consumed (CheckTimeout env_timeout_no_luck) world_accepting) ≤ 1)%nat.
Proof.
  destruct (CheckTimeout_resets_stale_session env_timeout_no_luck world_accepting)
    as (_ & _ & H).
  - reflexivity.
  - apply H.
    + vm_compute. discriminate.
    + vm_compute. discriminate.
Defined.

(** ** What an entry can cost *)

Lemma AddEntry_cases env entry msg w :
  ((eval (AddEntry env entry msg) w).1 = false ∧
   exec (AddEntry env entry msg) w = w) ∨
  ((eval (AddEntry env entry msg) w).1 = false ∧
   exec (AddEntry env entry msg) w
   = exec (ConsumeCollateral env (txCollateral entry)) w) ∨
  (eval (AddEntry env entry msg) w = (true, MSG_ENTRIES_ADDED) ∧
   exec (AddEntry env entry msg) w
   = with_srv (with_entries (vecEntries (srv w) ++ [entry]) (srv w)) w).
Proof.
  unfold AddEntry. unfold_m.
  destruct (fMasternodeMode env); simpl; [| left; split; reflexivity].
  destruct (_ >=? _); simpl; [left; split; reflexivity |].
  destruct (IsCollateralValid env (txCollateral entry)); simpl;
    [| left; split; reflexivity].
  destruct (_ >? _); simpl.
  { right. left. destruct (ConsumeCollateral env (txCollateral entry) w).
    split; reflexivity. }
  destruct (existsb _ _); simpl; [left; split; reflexivity |].
  destruct (IsValidInOuts _ _ _ _ _) as [[ok m] c].
  destruct ok; simpl; [right; right; split; reflexivity |].
  destruct c; simpl; [| left; split; reflexivity].
  right. left. destruct (ConsumeCollateral env (txCollateral entry) w).
  split; reflexivity.
Qed.

Lemma consumed_exec {A B} (m : M A) (m' : M B) w :
  exec m w = exec m' w → consumed m w = consumed m' w.
Proof. intros E. unfold consumed, events_of. rewrite E. reflexivity. Qed.

(** X11. [AddEntry] consumes no collateral but the one of the entry it
    is handed, at most once, and never when it admits the entry.  With
    room in the pool, an entry whose collateral is invalid is refused with
    ERR_INVALID_COLLATERAL and nothing happens; one with a valid
    collateral and more than nine inputs is refused with ERR_MAXIMUM and
    its collateral is consumed, the session being left as it was. *)
Theorem AddEntry_charges_only_refused env entry msg w :
  (consumed (AddEntry env entry msg) w = [] ∨
   consumed (AddEntry env entry msg) w = [txCollateral entry]) ∧
  ((eval (AddEntry env entry msg) w).1 = true →
   consumed (AddEntry env entry msg) w = [] ∧
   mempool (exec (AddEntry env entry msg) w) = mempool w) ∧
  (fMasternodeMode env = true →
   (length (vecEntries (srv w)) < length (vecSessionCollaterals (srv w)))%nat →
   (IsCollateralValid env (txCollateral entry) = false →
    AddEntry env entry msg w = (false, ERR_INVALID_COLLATERAL, w)) ∧
   (IsCollateralValid env (txCollateral entry) = true →
    PRIVATESEND_ENTRY_MAX_SIZE < Z.of_nat (length (vecTxDSIn entry)) →
    eval (AddEntry env entry msg) w = (false, ERR_MAXIMUM) ∧
    consumed (AddEntry env entry msg) w = [txCollateral entry] ∧
    srv (exec (AddEntry env entry msg) w) = srv w)).
Proof.
  assert (Hsilent : exec (AddEntry env entry msg) w = w →
                    consumed (AddEntry env entry msg) w = []).
  { intros E. apply consumed_silent. rewrite E. reflexivity. }
  assert (Hcharge : exec (AddEntry env entry msg) w
                    = exec (ConsumeCollateral env (txCollateral entry)) w →
                    consumed (AddEntry env entry msg) w = [txCollateral entry]).
  { intros E. rewrite (consumed_exec _ _ w E). apply consumed_ConsumeCollateral. }
  split; [| split].
  - destruct (AddEntry_cases env entry msg w) as [[_ E] | [[_ E] | [_ E]]].
    + left. apply Hsilent, E.
    + right. apply Hcharge, E.
    + left. apply consumed_silent. rewrite E. reflexivity.
  - intros Hok.
    destruct (AddEntry_cases env entry msg w) as [[Hf _] | [[Hf _] | [_ E]]];
      [congruence | congruence |].
    split; [apply consumed_silent |]; rewrite E; reflexivity.
  - intros Hmn Hroom.
    assert (E1 : (Z.of_nat (length (vecEntries (srv w)))
                  >=? Z.of_nat (length (vecSessionCollaterals (srv w)))) = false).
    { rewrite Z.geb_leb. apply Z.leb_gt. lia. }
    split.
    + intros Hc. unfold AddEntry. rewrite Hmn. unfold_m. rewrite E1, Hc. reflexivity.
    + intros Hc Hmax.
      assert (E2 : (Z.of_nat (length (vecTxDSIn entry))
                    >? PRIVATESEND_ENTRY_MAX_SIZE) = true).
      { rewrite Z.gtb_ltb. apply Z.ltb_lt, Hmax. }
      assert (E : AddEntry env entry msg w
                  = (false, ERR_MAXIMUM,
                     exec (ConsumeCollateral env (txCollateral entry)) w)).
      { unfold AddEntry. rewrite Hmn. unfold_m. rewrite E1, Hc. simpl.
        rewrite E2. destruct (ConsumeCollateral env (txCollateral entry) w).
        reflexivity. }
      split; [unfold eval; rewrite E; reflexivity |].
      split; [apply Hcharge; unfold exec at 1; rewrite E; reflexivity |].
      unfold exec at 1. rewrite E. simpl. apply ConsumeCollateral_srv.
Qed.

Lemma AddEntry_charges_only_refused_witness :
  (consumed (AddEntry env_all_up entry_A MSG_NOERR) world_full_queue = [] ∧
   mempool (exec (AddEntry env_all_up entry_A MSG_NOERR) world_full_queue)
   = mempool world_full_queue) ∧
  (eval (AddEntry env_all_up entry_A_ten_inputs MSG_NOERR) world_full_queue
   = (false, ERR_MAXIMUM) ∧
   consumed (AddEntry env_all_up entry_A_ten_inputs MSG_NOERR) world_full_queue
   = [txCollateral entry_A_ten_inputs] ∧
   srv (exec (AddEntry env_all_up entry_A_ten_inputs MSG_NOERR) world_full_queue)
   = srv world_full_queue).
Proof.
  destruct (AddEntry_charges_only_refused env_all_up entry_A MSG_NOERR
              world_full_queue) as (_ & H1 & _).
  destruct (AddEntry_charges_only_refused env_all_up entry_A_ten_inputs MSG_NOERR
              world_full_queue) as (_ & _ & H2).
  split; [apply H1; vm_compute; reflexivity |].
  destruct H2 as [_ H2]; [reflexivity | vm_compute; lia |].
  apply H2; [reflexivity | vm_compute; reflexivity].
Defined.

(** ** Signatures *)

Lemma sign_first_signed txin l l' :
  sign_first txin l = Some l' →
  length (filter (λ d, fHasSig d = true) l')
  = S (length (filter (λ d, fHasSig d = true) l)) ∧
  existsb (λ d, bool_decide (scriptSig (dsin_txin d) = scriptSig txin)) l' = true.
Proof.
  revert l'. induction l as [|d l IH]; intros l'; simpl; [discriminate |].
  destruct (matches_input txin (dsin_txin d)).
  - destruct (fHasSig d) eqn:Es; [discriminate |]. intros [= <-].
    rewrite filter_cons_True by reflexivity.
    rewrite (filter_cons_False _ d) by (rewrite Es; discriminate).
    split; [reflexivity |]. simpl.
    rewrite bool_decide_eq_true_2 by reflexivity. reflexivity.
  - destruct (sign_first txin l) as [r|]; simpl; [| discriminate].
    intros [= <-]. destruct (IH r eq_refl) as [H1 H2]. split.
    + destruct (decide (fHasSig d = true)) as [Hd | Hd].
      * rewrite !filter_cons_True by exact Hd. simpl. rewrite H1. reflexivity.
      * rewrite !filter_cons_False by exact Hd. exact H1.
    + simpl. rewrite H2. apply orb_true_r.
Qed.

Lemma sign_first_entry_signed txin l l' :
  sign_first_entry txin l = Some l' →
  signed_count l' = S (signed_count l) ∧
  existsb (λ entry,
     existsb (λ d, bool_decide (scriptSig (dsin_txin d) = scriptSig txin))
             (vecTxDSIn entry)) l' = true.
Proof.
  unfold signed_count.
  revert l'. induction l as [|e l IH]; intros l'; simpl; [discriminate |].
  unfold Entry_AddScriptSig.
  destruct (sign_first txin (vecTxDSIn e)) as [ins|] eqn:E; simpl.
  - intros [= <-]. simpl. destruct (sign_first_signed txin _ _ E) as [H1 H2].
    rewrite !filter_app, !length_app, H1, H2. split; reflexivity.
  - destruct (sign_first_entry txin l) as [r|]; simpl; [| discriminate].
    intros [= <-]. destruct (IH r eq_refl) as [H1 H2]. simpl.
    rewrite !filter_app, !length_app, H1, H2. split; [lia | apply orb_true_r].
Qed.

(** X12. A successful [AddScriptSig] marks exactly one more input of the
    admitted entries as signed, leaves the outpoints and the outputs of
    the entries as they are, and makes the script it was given known to
    the session: a later submission that carries the same scriptSig,
    for whatever input, is refused without effect. *)
Theorem AddScriptSig_signs_one_input env txin w :
  eval (AddScriptSig env txin) w = true →
  signed_count (vecEntries (srv (exec (AddScriptSig env txin) w)))
  = S (signed_count (vecEntries (srv w))) ∧
  map entry_outpoints (vecEntries (srv (exec (AddScriptSig env txin) w)))
  = map entry_outpoints (vecEntries (srv w)) ∧
  map vecTxOut (vecEntries (srv (exec (AddScriptSig env txin) w)))
  = map vecTxOut (vecEntries (srv w)) ∧
  (∀ env' txin',
     scriptSig txin' = scriptSig txin →
     AddScriptSig env' txin' (exec (AddScriptSig env txin) w)
     = (false, exec (AddScriptSig env txin) w)).
Proof.
  unfold eval, exec. rewrite AddScriptSig_run. cbv zeta.
  destruct (existsb _ _); [discriminate |].
  destruct (negb _); [discriminate |].
  destruct (sign_first_entry txin (vecEntries (srv w))) as [entries'|] eqn:E;
    [| discriminate].
  intros _. simpl.
  destruct (sign_first_entry_signed txin _ _ E) as [H1 H2].
  split; [exact H1 |].
  split; [apply (sign_first_entry_outpoints txin), E |].
  split; [apply (sign_first_entry_outputs txin), E |].
  intros env' txin' Hs. rewrite AddScriptSig_run. simpl.
  rewrite Hs, H2. reflexivity.
Qed.

Lemma AddScriptSig_signs_one_input_witness :
  signed_count (vecEntries (srv (exec (AddScriptSig (env_later 1032 (λ _, 0))
                                                    (signed 2 0 [71; 1]))
                                      world_signing)))
  = S (signed_count (vecEntries (srv world_signing))) ∧
  map entry_outpoints
      (vecEntries (srv (exec (AddScriptSig (env_later 1032 (λ _, 0))
                                           (signed 2 0 [71; 1])) world_signing)))
  = map entry_outpoints (vecEntries (srv world_signing)) ∧
  map vecTxOut
      (vecEntries (srv (exec (AddScriptSig (env_later 1032 (λ _, 0))
                                           (signed 2 0 [71; 1])) world_signing)))
  = map vecTxOut (vecEntries (srv world_signing)) ∧
  (∀ env' txin',
     scriptSig txin' = scriptSig (signed 2 0 [71; 1]) →
     AddScriptSig env' txin'
       (exec (AddScriptSig (env_later 1032 (λ _, 0)) (signed 2 0 [71; 1]))
             world_signing)
     = (false, exec (AddScriptSig (env_later 1032 (λ _, 0)) (signed 2 0 [71; 1]))
                    world_signing)).
Proof.
  apply (AddScriptSig_signs_one_input (env_later 1032 (λ _, 0))
           (signed 2 0 [71; 1]) world_signing).
  vm_compute. reflexivity.
Defined.

Lemma forallb_signed l :
  forallb fHasSig l = true
  ↔ length (filter (λ d, fHasSig d = true) l) = length l.
Proof.
  induction l as [|d l IH]; simpl; [split; reflexivity |].
  pose proof (length_filter (λ d, fHasSig d = true) l) as Hle.
  destruct (fHasSig d) eqn:Ed; simpl.
  - rewrite filter_cons_True by exact Ed. simpl. rewrite IH. split; lia.
  - rewrite filter_cons_False by (rewrite Ed; discriminate).
    split; [discriminate | lia].
Qed.

Lemma IsSignaturesComplete_offenders s :
  IsSignaturesComplete s = true ↔ offenders_signing s = [].
Proof.
  unfold IsSignaturesComplete, offenders_signing.
  induction (vecEntries s) as [|e l IH]; simpl; [split; reflexivity |].
  rewrite andb_true_iff, IH. clear IH.
  assert (He : forallb fHasSig (vecTxDSIn e) = true
               ↔ flat_map (λ txdsin, if fHasSig txdsin then []
                                     else [txCollateral e]) (vecTxDSIn e) = []).
  { induction (vecTxDSIn e) as [|d ins IH]; simpl; [split; reflexivity |].
    destruct (fHasSig d); simpl; [exact IH | split; discriminate]. }
  rewrite He. split.
  - intros [-> ->]. reflexivity.
  - intros H. apply app_eq_nil in H. exact H.
Qed.

Lemma IsSignaturesComplete_count s :
  IsSignaturesComplete s = true
  ↔ signed_count (vecEntries s) = length (entries_inputs (vecEntries s)).
Proof.
  unfold IsSignaturesComplete, signed_count, entries_inputs.
  induction (vecEntries s) as [|e l IH]; simpl; [split; reflexivity |].
  rewrite andb_true_iff, IH, forallb_signed, filter_app, !length_app, length_map.
  pose proof (length_filter (λ d, fHasSig d = true) (vecTxDSIn e)) as H1.
  pose proof (length_filter (λ d, fHasSig d = true) (flat_map vecTxDSIn l)) as H2.
  assert (H3 : length (flat_map (λ e0, map dsin_txin (vecTxDSIn e0)) l)
               = length (flat_map vecTxDSIn l)).
  { clear. induction l as [|e l IH]; simpl; [reflexivity |].
    rewrite !length_app, length_map, IH. reflexivity. }
  rewrite H3 in *. split; lia.
Qed.

(** X13. The signatures are complete exactly when every input of the
    admitted entries is marked signed, and exactly when the signing stage
    has no offender to charge; so in Signing with all signatures in,
    [ChargeFees] consumes no collateral whatever the draws. *)
Theorem IsSignaturesComplete_no_offender env w :
  (IsSignaturesComplete (srv w) = true
   ↔ signed_count (vecEntries (srv w))
     = length (entries_inputs (vecEntries (srv w)))) ∧
  (IsSignaturesComplete (srv w) = true ↔ offenders_signing (srv w) = []) ∧
  (fMasternodeMode env = true →
   nState (srv w) = POOL_STATE_SIGNING →
   IsSignaturesComplete (srv w) = true →
   consumed (ChargeFees env) w = []).
Proof.
  split; [apply IsSignaturesComplete_count |].
  split; [apply IsSignaturesComplete_offenders |].
  intros Hmn Hst Hc. rewrite (ChargeFees_consumed env w Hmn). cbv zeta.
  assert (E : vecOffendersCollaterals env (srv w) = []).
  { unfold vecOffendersCollaterals. rewrite Hst. simpl.
    apply IsSignaturesComplete_offenders, Hc. }
  rewrite E. simpl. rewrite orb_true_r. reflexivity.
Qed.

Lemma IsSignaturesComplete_no_offender_witness :
  consumed (ChargeFees env_timeout_no_luck) world_all_signed = [].
Proof.
  destruct (IsSignaturesComplete_no_offender env_timeout_no_luck world_all_signed)
    as (_ & _ & H).
  apply H; vm_compute; reflexivity.
Defined.

(** ** Relaying to the participants *)

Lemma notified_snoc evs e w : notified [e] (notified evs w) = notified (evs ++ [e]) w.
Proof. apply notified_app. Qed.

Lemma relay_or_reject_emit env (f : CService → Event) l1 w :
  Forall (λ e, ForNode env (addr e) = true) l1 →
  (∀ evs,
     exec (relay_or_reject env l1 (λ to, emit (f to))) (notified evs w)
     = notified (evs ++ map (λ e, f (addr e)) l1) w) ∧
  (∀ evs e l2,
     ForNode env (addr e) = false →
     exec (relay_or_reject env (l1 ++ e :: l2) (λ to, emit (f to))) (notified evs w)
     = exec (RelayStatus env STATUS_REJECTED MSG_NOERR)
            (notified (evs ++ map (λ e, f (addr e)) l1) w)).
Proof.
  induction 1 as [|x l1 Hx Hl [IH1 IH2]]; simpl.
  - split.
    + intros evs. rewrite exec_skip, app_nil_r. reflexivity.
    + intros evs e l2 He. rewrite He, app_nil_r. reflexivity.
  - rewrite Hx. split.
    + intros evs. rewrite exec_bind, exec_emit, notified_snoc, IH1, <- app_assoc.
      reflexivity.
    + intros evs e l2 He.
      rewrite exec_bind, exec_emit, notified_snoc, (IH2 _ e l2 He), <- app_assoc.
      reflexivity.
Qed.

Lemma RelayStatus_connected env u m w :
  Forall (λ e, ForNode env (addr e) = true) (vecEntries (srv w)) →
  exec (RelayStatus env u m) w
  = notified (map (λ e, EvStatusUpdate (addr e) (status_of (srv w) u m))
                  (vecEntries (srv w))) w.
Proof.
  intros H. unfold RelayStatus. rewrite exec_bind.
  change (eval get_srv w) with (srv w). change (exec get_srv w) with w.
  rewrite exec_bind.
  assert (Hc : ∀ l evs,
    Forall (λ e, ForNode env (addr e) = true) l →
    RelayStatus_count env l u m 0 (notified evs w)
    = (0, notified (evs ++ map (λ e, EvStatusUpdate (addr e) (status_of (srv w) u m)) l)
                   w)).
  { clear H. intros l evs H. revert evs.
    induction H as [|x l Hx Hl IH]; intros evs; simpl.
    - rewrite app_nil_r. reflexivity.
    - rewrite Hx. unfold_m. unfold PushStatus. unfold_m.
      change (mkWorld (srv w) (mapDSTX w) (mempool w) (nDsqCount w) (mapLastDsq w)
                (nRandCalls w)
                ((log w ++ evs)
                 ++ [EvStatusUpdate (addr x)
                       (mkStatusUpdate (nSessionID (srv w)) (nState (srv w)) 0 u m)]))
        with (notified [EvStatusUpdate (addr x) (status_of (srv w) u m)]
                       (notified evs w)).
      rewrite notified_snoc, IH, <- app_assoc. reflexivity. }
  specialize (Hc (vecEntries (srv w)) [] H).
  rewrite notified_nil in Hc. unfold eval, exec. rewrite Hc. simpl. reflexivity.
Qed.

(** X14. While every participant is connected, the final transaction, the
    completion message and a status update each go to every entry's
    address once, in entry order, with the session id, and nothing else
    changes.  When a participant is not connected, the relay of the
    final transaction stops there: those before it have received the
    transaction, those after it never do, and the rejection of
    [RelayStatus] follows. *)
Theorem relay_reaches_connected_participants env w :
  (Forall (λ e, ForNode env (addr e) = true) (vecEntries (srv w)) →
   (∀ tx, exec (RelayFinalTransaction env tx) w
          = notified (map (λ e, EvFinalTx (addr e) (nSessionID (srv w)) tx)
                          (vecEntries (srv w))) w) ∧
   (∀ msg, exec (RelayCompletedTransaction env msg) w
           = notified (map (λ e, EvComplete (addr e) (nSessionID (srv w)) msg)
                           (vecEntries (srv w))) w) ∧
   (∀ u m, exec (RelayStatus env u m) w
           = notified (map (λ e, EvStatusUpdate (addr e) (status_of (srv w) u m))
                           (vecEntries (srv w))) w)) ∧
  (∀ l1 e l2 tx,
     vecEntries (srv w) = l1 ++ e :: l2 →
     Forall (λ e, ForNode env (addr e) = true) l1 →
     ForNode env (addr e) = false →
     exec (RelayFinalTransaction env tx) w
     = exec (RelayStatus env STATUS_REJECTED MSG_NOERR)
            (notified (map (λ e, EvFinalTx (addr e) (nSessionID (srv w)) tx) l1) w)).
Proof.
  split.
  - intros H. split; [| split].
    + intros tx. unfold RelayFinalTransaction. rewrite exec_bind.
      change (eval get_srv w) with (srv w). change (exec get_srv w) with w.
      destruct (relay_or_reject_emit env
                  (λ to, EvFinalTx to (nSessionID (srv w)) tx) _ w H) as [H1 _].
      specialize (H1 []). rewrite notified_nil in H1. exact H1.
    + intros msg. unfold RelayCompletedTransaction. rewrite exec_bind.
      change (eval get_srv w) with (srv w). change (exec get_srv w) with w.
      destruct (relay_or_reject_emit env
                  (λ to, EvComplete to (nSessionID (srv w)) msg) _ w H) as [H1 _].
      specialize (H1 []). rewrite notified_nil in H1. exact H1.
    + intros u m. apply RelayStatus_connected, H.
  - intros l1 e l2 tx El Hl He. unfold RelayFinalTransaction. rewrite exec_bind.
    change (eval get_srv w) with (srv w). change (exec get_srv w) with w.
    rewrite El.
    destruct (relay_or_reject_emit env
                (λ to, EvFinalTx to (nSessionID (srv w)) tx) l1 w Hl) as [_ H2].
    specialize (H2 [] e l2 He). rewrite notified_nil in H2. exact H2.
Qed.

Lemma relay_reaches_connected_participants_witness :
  ((∀ tx, exec (RelayFinalTransaction env_all_up tx) world_signing
          = notified (map (λ e, EvFinalTx (addr e) (nSessionID (srv world_signing)) tx)
                          (vecEntries (srv world_signing))) world_signing) ∧
   (∀ msg, exec (RelayCompletedTransaction env_all_up msg) world_signing
           = notified (map (λ e, EvComplete (addr e) (nSessionID (srv world_signing))
                                            msg)
                           (vecEntries (srv world_signing))) world_signing) ∧
   (∀ u m, exec (RelayStatus env_all_up u m) world_signing
           = notified (map (λ e, EvStatusUpdate (addr e)
                                   (status_of (srv world_signing) u m))
                           (vecEntries (srv world_signing))) world_signing)) ∧
  (∀ tx,
     exec (RelayFinalTransaction env_peer_3_gone tx) world_signing
     = exec (RelayStatus env_peer_3_gone STATUS_REJECTED MSG_NOERR)
            (notified (map (λ e, EvFinalTx (addr e) (nSessionID (srv world_signing)) tx)
                           [entry_A; entry_B]) world_signing)).
Proof.
  destruct (relay_reaches_connected_participants env_all_up world_signing)
    as [H1 _].
  destruct (relay_reaches_connected_participants env_peer_3_gone world_signing)
    as [_ H2].
  split.
  - apply H1. vm_compute. repeat constructor.
  - intros tx. apply (H2 [entry_A; entry_B] entry_C []).
    + vm_compute. reflexivity.
    + vm_compute. repeat constructor.
    + vm_compute. reflexivity.
Defined.

(** ** The answer to a join request *)

(** The call the DSACCEPT handler makes once its own checks have passed. *)
Lemma join_cases env dsa w :
  (∃ m, (if nSessionID (srv w) =? 0 then CreateNewSession env dsa MSG_NOERR
         else AddUserToExistingSession env dsa MSG_NOERR) w = (false, m, w)) ∨
  (∃ w1 evs,
     (if nSessionID (srv w) =? 0 then CreateNewSession env dsa MSG_NOERR
      else AddUserToExistingSession env dsa MSG_NOERR) w = (true, MSG_NOERR, w1) ∧
     log w1 = log w ++ evs ∧ Forall (λ e, ¬ is_status e) evs ∧
     vecSessionCollaterals (srv w1)
     = vecSessionCollaterals (srv w) ++ [dsa_txCollateral dsa] ∧
     nState (srv w1) = POOL_STATE_QUEUE ∧
     nSessionDenom (srv w1) = dsa_nDenom dsa ∧
     (IsAcceptableDSA env dsa MSG_NOERR).1 = true).
Proof.
  destruct (nSessionID (srv w) =? 0).
  - rewrite CreateNewSession_run.
    destruct (_ || _); [left; eexists; reflexivity |].
    destruct (negb (bool_decide _)); [left; eexists; reflexivity |].
    destruct (IsAcceptableDSA env dsa MSG_NOERR).1 eqn:Ea; simpl;
      [| left; eexists; reflexivity].
    right. eexists _, _. split; [reflexivity |]. simpl.
    split; [reflexivity |].
    split; [| repeat split; reflexivity].
    constructor; [intros [] |]. destruct (fUnitTest env); [constructor |].
    constructor; [intros [] | constructor].
  - rewrite AddUserToExistingSession_run.
    destruct (_ || _); [left; eexists; reflexivity |].
    destruct (IsAcceptableDSA env dsa MSG_NOERR).1 eqn:Ea; simpl;
      [| left; eexists; reflexivity].
    destruct (bool_decide (nState (srv w) = POOL_STATE_QUEUE)) eqn:Eq; simpl;
      [| left; eexists; reflexivity].
    destruct (dsa_nDenom dsa =? nSessionDenom (srv w)) eqn:Ed; simpl;
      [| left; eexists; reflexivity].
    right. exists (with_srv (with_collaterals
                      (vecSessionCollaterals (srv w) ++ [dsa_txCollateral dsa])
                      (srv w)) w), [].
    split; [reflexivity |]. simpl. rewrite app_nil_r.
    split; [reflexivity |]. split; [constructor |].
    split; [reflexivity |].
    split; [apply bool_decide_eq_true in Eq; exact Eq |].
    split; [apply Z.eqb_eq in Ed; congruence | reflexivity].
Qed.

Lemma ProcessMessage_DSACCEPT_run env pfrom dsa w :
  obsolete pfrom = false →
  tryLock_cs_vecqueue env = true →
  exec (ProcessMessage_DSACCEPT env pfrom dsa) w
  = if IsSessionReady env (srv w)
    then notified [EvStatusUpdate (node_addr pfrom)
                     (status_of (srv w) STATUS_REJECTED ERR_QUEUE_FULL)] w
    else
      match GetValidMNByCollateral env (activeMasternodeOutpoint env) with
      | None => notified [EvStatusUpdate (node_addr pfrom)
                            (status_of (srv w) STATUS_REJECTED ERR_MN_LIST)] w
      | Some dmn =>
          if bool_decide (vecSessionCollaterals (srv w) = []) &&
             (existsb (λ q, bool_decide (masternodeOutpoint q
                                         = activeMasternodeOutpoint env))
                      (vecPrivateSendQueue (srv w))
              || (negb (default 0 (mapLastDsq w !! proTxHash dmn) =? 0) &&
                  (default 0 (mapLastDsq w !! proTxHash dmn)
                   + GetValidMNsCount env `div` 5 >? nDsqCount w)))
          then notified [EvStatusUpdate (node_addr pfrom)
                           (status_of (srv w) STATUS_REJECTED ERR_RECENT)] w
          else
            let r := (if nSessionID (srv w) =? 0
                      then CreateNewSession env dsa MSG_NOERR
                      else AddUserToExistingSession env dsa MSG_NOERR) w in
            notified [EvStatusUpdate (node_addr pfrom)
                        (status_of (srv r.2)
                           (if r.1.1 then STATUS_ACCEPTED else STATUS_REJECTED)
                           r.1.2)] r.2
      end.
Proof.
  intros Ho Hlock. unfold ProcessMessage_DSACCEPT. cbv zeta. rewrite Ho.
  rewrite exec_bind.
  change (eval get_srv w) with (srv w). change (exec get_srv w) with w.
  destruct (IsSessionReady env (srv w)); [reflexivity |].
  destruct (GetValidMNByCollateral env (activeMasternodeOutpoint env)) as [dmn|];
    [| reflexivity].
  match goal with
  | |- context [if bool_decide _ then _ else ?c] => set (create := c)
  end.
  assert (Hcreate :
    exec create w
    = notified [EvStatusUpdate (node_addr pfrom)
                  (status_of
                     (srv ((if nSessionID (srv w) =? 0
                            then CreateNewSession env dsa MSG_NOERR
                            else AddUserToExistingSession env dsa MSG_NOERR) w).2)
                     (if ((if nSessionID (srv w) =? 0
                           then CreateNewSession env dsa MSG_NOERR
                           else AddUserToExistingSession env dsa MSG_NOERR) w).1.1
                      then STATUS_ACCEPTED else STATUS_REJECTED)
                     ((if nSessionID (srv w) =? 0
                       then CreateNewSession env dsa MSG_NOERR
                       else AddUserToExistingSession env dsa MSG_NOERR) w).1.2)]
               ((if nSessionID (srv w) =? 0
                 then CreateNewSession env dsa MSG_NOERR
                 else AddUserToExistingSession env dsa MSG_NOERR) w).2).
  { unfold create. rewrite exec_bind. unfold eval, exec.
    destruct ((if nSessionID (srv w) =? 0
               then CreateNewSession env dsa MSG_NOERR
               else AddUserToExistingSession env dsa MSG_NOERR) w) as [[r m] w1].
    destruct r; reflexivity. }
  cbv zeta. clearbody create.
  destruct (bool_decide (vecSessionCollaterals (srv w) = [])); simpl andb;
    cbv iota; [| exact Hcreate].
  rewrite Hlock. simpl negb. cbv iota.
  destruct (existsb _ (vecPrivateSendQueue (srv w))); simpl orb; cbv iota;
    [reflexivity |].
  rewrite exec_bind.
  change (exec (GetLastDsq (proTxHash dmn)) w) with w.
  change (eval (GetLastDsq (proTxHash dmn)) w)
    with (default 0 (mapLastDsq w !! proTxHash dmn)).
  rewrite exec_bind.
  change (exec get_world w) with w. change (eval get_world w) with w.
  destruct (negb _ && _); [reflexivity | exact Hcreate].
Qed.

(** X15. A join request from a peer of an accepted version is answered
    with exactly one status update, the last thing the handler sends,
    which carries the session id and state as they are after the request
    (the lock on the advertisements being free).  The answer is ACCEPTED
    only with MSG_NOERR and only when the request passed
    [IsAcceptableDSA] and its collateral is now the last of the session's
    collaterals, the session being in Queue with the denomination of the
    request.  When the answer is REJECTED, it is the only effect of the
    request.  A session that is ready refuses with ERR_QUEUE_FULL, a
    masternode that does not find itself in the valid list with
    ERR_MN_LIST. *)
Theorem DSACCEPT_reply env pfrom dsa w :
  in_operation env →
  MIN_PRIVATESEND_PEER_PROTO_VERSION ≤ nVersion pfrom →
  tryLock_cs_vecqueue env = true →
  ∃ u m evs,
    events_of (ProcessMessage env pfrom (DSACCEPT dsa)) w
    = evs ++ [EvStatusUpdate (node_addr pfrom)
                (status_of (srv (exec (ProcessMessage env pfrom (DSACCEPT dsa)) w))
                           u m)] ∧
    Forall (λ e, ¬ is_status e) evs ∧
    (u = STATUS_ACCEPTED →
     m = MSG_NOERR ∧
     (IsAcceptableDSA env dsa MSG_NOERR).1 = true ∧
     vecSessionCollaterals (srv (exec (ProcessMessage env pfrom (DSACCEPT dsa)) w))
     = vecSessionCollaterals (srv w) ++ [dsa_txCollateral dsa] ∧
     nState (srv (exec (ProcessMessage env pfrom (DSACCEPT dsa)) w))
     = POOL_STATE_QUEUE ∧
     nSessionDenom (srv (exec (ProcessMessage env pfrom (DSACCEPT dsa)) w))
     = dsa_nDenom dsa) ∧
    (u = STATUS_REJECTED →
     exec (ProcessMessage env pfrom (DSACCEPT dsa)) w
     = notified [EvStatusUpdate (node_addr pfrom) (status_of (srv w) u m)] w) ∧
    (IsSessionReady env (srv w) = true →
     u = STATUS_REJECTED ∧ m = ERR_QUEUE_FULL) ∧
    (IsSessionReady env (srv w) = false →
     GetValidMNByCollateral env (activeMasternodeOutpoint env) = None →
     u = STATUS_REJECTED ∧ m = ERR_MN_LIST).
Proof.
  intros Hop Hv Hlock. rewrite (in_operation_run env pfrom _ Hop).
  assert (Ho : obsolete pfrom = false) by (apply Z.ltb_ge, Hv).
  pose proof (ProcessMessage_DSACCEPT_run env pfrom dsa w Ho Hlock) as E.
  assert (Hrej : ∀ m,
    exec (ProcessMessage_DSACCEPT env pfrom dsa) w
    = notified [EvStatusUpdate (node_addr pfrom)
                  (status_of (srv w) STATUS_REJECTED m)] w →
    (IsSessionReady env (srv w) = true → m = ERR_QUEUE_FULL) →
    (IsSessionReady env (srv w) = false →
     GetValidMNByCollateral env (activeMasternodeOutpoint env) = None →
     m = ERR_MN_LIST) →
    ∃ u m evs,
      events_of (ProcessMessage_DSACCEPT env pfrom dsa) w
      = evs ++ [EvStatusUpdate (node_addr pfrom)
                  (status_of (srv (exec (ProcessMessage_DSACCEPT env pfrom dsa) w))
                             u m)] ∧
      Forall (λ e, ¬ is_status e) evs ∧
      (u = STATUS_ACCEPTED →
       m = MSG_NOERR ∧
       (IsAcceptableDSA env dsa MSG_NOERR).1 = true ∧
       vecSessionCollaterals (srv (exec (ProcessMessage_DSACCEPT env pfrom dsa) w))
       = vecSessionCollaterals (srv w) ++ [dsa_txCollateral dsa] ∧
       nState (srv (exec (ProcessMessage_DSACCEPT env pfrom dsa) w))
       = POOL_STATE_QUEUE ∧
       nSessionDenom (srv (exec (ProcessMessage_DSACCEPT env pfrom dsa) w))
       = dsa_nDenom dsa) ∧
      (u = STATUS_REJECTED →
       exec (ProcessMessage_DSACCEPT env pfrom dsa) w
       = notified [EvStatusUpdate (node_addr pfrom) (status_of (srv w) u m)] w) ∧
      (IsSessionReady env (srv w) = true →
       u = STATUS_REJECTED ∧ m = ERR_QUEUE_FULL) ∧
      (IsSessionReady env (srv w) = false →
       GetValidMNByCollateral env (activeMasternodeOutpoint env) = None →
       u = STATUS_REJECTED ∧ m = ERR_MN_LIST)).
  { intros m Em H1 H2. exists STATUS_REJECTED, m, [].
    rewrite (events_of_notified _ _ w Em), Em. simpl.
    split; [reflexivity |]. split; [constructor |].
    split; [discriminate |]. split; [reflexivity |].
    split; [intros Hr; split; [reflexivity | apply H1, Hr] |].
    intros Hr Hn. split; [reflexivity | apply H2; assumption]. }
  destruct (IsSessionReady env (srv w)) eqn:Er.
  { apply (Hrej ERR_QUEUE_FULL E); [reflexivity | discriminate]. }
  destruct (GetValidMNByCollateral env (activeMasternodeOutpoint env))
    as [dmn|] eqn:Em.
  2:{ apply (Hrej ERR_MN_LIST E); [discriminate | reflexivity]. }
  destruct (_ && _).
  { apply (Hrej ERR_RECENT E); [discriminate | discriminate]. }
  cbv zeta in E.
  destruct (join_cases env dsa w)
    as [[m Ej] | (w1 & evs & Ej & Hlog & Hev & Hc & Hst & Hd & Ha)];
    rewrite Ej in E; simpl in E.
  - apply (Hrej m E); [discriminate | discriminate].
  - exists STATUS_ACCEPTED, MSG_NOERR, evs.
    unfold events_of. rewrite E. simpl.
    rewrite Hlog, <- app_assoc, drop_app_length.
    split; [reflexivity |]. split; [exact Hev |].
    split; [intros _; repeat split; assumption |].
    split; [discriminate |].
    split; [discriminate | intros _ Hn; discriminate].
Qed.

Lemma DSACCEPT_reply_witness :
  ∃ u m evs,
    events_of (ProcessMessage env_all_up (peer 1) (DSACCEPT (accept_of 1))) init_world
    = evs ++ [EvStatusUpdate (node_addr (peer 1))
                (status_of (srv (exec (ProcessMessage env_all_up (peer 1)
                                         (DSACCEPT (accept_of 1))) init_world))
                           u m)] ∧
    Forall (λ e, ¬ is_status e) evs ∧
    (u = STATUS_ACCEPTED →
     m = MSG_NOERR ∧
     (IsAcceptableDSA env_all_up (accept_of 1) MSG_NOERR).1 = true ∧
     vecSessionCollaterals (srv (exec (ProcessMessage env_all_up (peer 1)
                                         (DSACCEPT (accept_of 1))) init_world))
     = vecSessionCollaterals (srv init_world) ++ [dsa_txCollateral (accept_of 1)] ∧
     nState (srv (exec (ProcessMessage env_all_up (peer 1)
                          (DSACCEPT (accept_of 1))) init_world))
     = POOL_STATE_QUEUE ∧
     nSessionDenom (srv (exec (ProcessMessage env_all_up (peer 1)
                                 (DSACCEPT (accept_of 1))) init_world))
     = dsa_nDenom (accept_of 1)) ∧
    (u = STATUS_REJECTED →
     exec (ProcessMessage env_all_up (peer 1) (DSACCEPT (accept_of 1))) init_world
     = notified [EvStatusUpdate (node_addr (peer 1))
                   (status_of (srv init_world) u m)] init_world) ∧
    (IsSessionReady env_all_up (srv init_world) = true →
     u = STATUS_REJECTED ∧ m = ERR_QUEUE_FULL) ∧
    (IsSessionReady env_all_up (srv init_world) = false →
     GetValidMNByCollateral env_all_up (activeMasternodeOutpoint env_all_up) = None →
     u = STATUS_REJECTED ∧ m = ERR_MN_LIST).
Proof.
  apply (DSACCEPT_reply env_all_up (peer 1) (accept_of 1) init_world
           in_operation_env_all_up).
  - vm_compute. discriminate.
  - reflexivity.
Defined.

(** ** A session from one step to the next *)

#[global] Instance continues_preorder : PreOrder continues.
Proof.
  split.
  - intros w. left. repeat split; reflexivity.
  - intros a b c [(H1 & H2 & H3 & H4) | [H1 H2]] [(K1 & K2 & K3 & K4) | [K1 K2]].
    + left. split; [congruence |]. split; [congruence |].
      split; etransitivity; eassumption.
    + right. split; assumption.
    + right. split; congruence.
    + right. split; assumption.
Qed.

Create HintDb continuity discriminated.

Lemma respects_same_srv_continues {A} (m : M A) :
  respects same_srv m → respects continues m.
Proof.
  intros H w. left. rewrite (H w). repeat split; reflexivity.
Qed.

Lemma modify_srv_continues f :
  (∀ s, nSessionID (f s) = nSessionID s ∧
        nSessionDenom (f s) = nSessionDenom s ∧
        vecSessionCollaterals s `prefix_of` vecSessionCollaterals (f s) ∧
        map entry_terms (vecEntries s) `prefix_of` map entry_terms (vecEntries (f s))) →
  respects continues (modify_srv f).
Proof. intros H w. left. apply H. Qed.

Lemma SetNull_continues env : respects continues (SetNull env).
Proof. intros w. right. rewrite SetNull_srv. split; reflexivity. Qed.

#[global] Hint Resolve respects_same_srv_continues SetNull_continues : continuity.

#[global] Hint Extern 3 (respects continues (modify_srv _)) =>
  (apply modify_srv_continues; let s := fresh "s" in
   intros s; simpl;
   repeat split;
   first [ reflexivity
         | apply prefix_app_r; reflexivity
         | rewrite map_app; apply prefix_app_r; reflexivity ]) : continuity.

Ltac continues_auto :=
  repeat first [ respects_step | progress cbv zeta
               | solve [eauto with respects continuity] ].

Lemma SetState_continues env st : respects continues (SetState env st).
Proof. unfold SetState. continues_auto. Qed.

Lemma RelayStatus_continues env u m : respects continues (RelayStatus env u m).
Proof.
  unfold RelayStatus. continues_auto.
  apply respects_same_srv_continues, notify_same_srv.
Qed.

#[global] Hint Resolve SetState_continues RelayStatus_continues : continuity.

Lemma RelayFinalTransaction_continues env tx :
  respects continues (RelayFinalTransaction env tx).
Proof.
  apply RelayFinalTransaction_respects;
    [apply _ | intros to; apply respects_same_srv_continues, emit_same_srv
    | apply RelayStatus_continues].
Qed.

Lemma RelayCompletedTransaction_continues env msg :
  respects continues (RelayCompletedTransaction env msg).
Proof.
  apply RelayCompletedTransaction_respects;
    [apply _ | intros to; apply respects_same_srv_continues, emit_same_srv
    | apply RelayStatus_continues].
Qed.

#[global] Hint Resolve RelayFinalTransaction_continues
  RelayCompletedTransaction_continues : continuity.

Lemma CreateFinalTransaction_continues env :
  respects continues (CreateFinalTransaction env).
Proof. unfold CreateFinalTransaction. continues_auto. Qed.

Lemma CommitFinalTransaction_continues env :
  respects continues (CommitFinalTransaction env).
Proof. unfold CommitFinalTransaction. continues_auto. Qed.

#[global] Hint Resolve CreateFinalTransaction_continues
  CommitFinalTransaction_continues : continuity.

Lemma CheckPool_continues env : respects continues (CheckPool env).
Proof. unfold CheckPool. continues_auto. Qed.

Lemma CheckQueue_continues env : respects continues (CheckQueue env).
Proof. unfold CheckQueue. continues_auto. Qed.

#[global] Hint Resolve CheckPool_continues CheckQueue_continues : continuity.

Lemma CheckTimeout_continues env : respects continues (CheckTimeout env).
Proof. unfold CheckTimeout. continues_auto. Qed.

Lemma CheckForCompleteQueue_continues env :
  respects continues (CheckForCompleteQueue env).
Proof. unfold CheckForCompleteQueue. continues_auto. Qed.

Lemma AddUserToExistingSession_continues env dsa msg :
  respects continues (AddUserToExistingSession env dsa msg).
Proof. unfold AddUserToExistingSession. continues_auto. Qed.

Lemma AddEntry_continues env entry msg : respects continues (AddEntry env entry msg).
Proof.
  intros w. left. rewrite AddEntry_srv.
  destruct (eval (AddEntry env entry msg) w).1; simpl.
  - repeat split; try reflexivity. rewrite map_app. apply prefix_app_r. reflexivity.
  - repeat split; reflexivity.
Qed.

Lemma sign_first_entry_terms txin l l' :
  sign_first_entry txin l = Some l' → map entry_terms l' = map entry_terms l.
Proof.
  revert l'. induction l as [|e l IH]; intros l'; simpl; [discriminate |].
  destruct (Entry_AddScriptSig txin e) as [e'|] eqn:E.
  - intros [= <-]. simpl. f_equal. unfold entry_terms.
    rewrite (Entry_AddScriptSig_outpoints txin e e' E).
    unfold Entry_AddScriptSig in E.
    destruct (sign_first txin (vecTxDSIn e)); simpl in E; [| discriminate].
    injection E as <-. reflexivity.
  - destruct (sign_first_entry txin l) as [r|]; simpl; [| discriminate].
    intros [= <-]. simpl. f_equal. apply IH. reflexivity.
Qed.

Lemma AddScriptSig_continues env txin : respects continues (AddScriptSig env txin).
Proof.
  intros w. left. unfold exec. rewrite AddScriptSig_run.
  destruct (existsb _ _); [repeat split; reflexivity |].
  destruct (negb _); [repeat split; reflexivity |]. cbv zeta.
  destruct (sign_first_entry txin (vecEntries (srv w))) as [es|] eqn:E; simpl.
  - rewrite (sign_first_entry_terms txin _ _ E). repeat split; reflexivity.
  - repeat split; reflexivity.
Qed.

#[global] Hint Resolve CheckTimeout_continues CheckForCompleteQueue_continues
  AddUserToExistingSession_continues AddEntry_continues AddScriptSig_continues
  : continuity.

Lemma DSSIGNFINALTX_loop_continues env l :
  respects continues (DSSIGNFINALTX_loop env l).
Proof. induction l as [|txin l IH]; simpl; continues_auto. Qed.

#[global] Hint Resolve DSSIGNFINALTX_loop_continues : continuity.

Lemma ProcessMessage_DSACCEPT_continues env pfrom dsa w :
  nSessionID (srv w) ≠ 0 →
  continues w (exec (ProcessMessage_DSACCEPT env pfrom dsa) w).
Proof.
  intros Hid. apply Z.eqb_neq in Hid. unfold ProcessMessage_DSACCEPT. cbv zeta.
  destruct (obsolete pfrom).
  { apply respects_same_srv_continues. respects_auto. }
  rewrite exec_bind.
  change (eval get_srv w) with (srv w). change (exec get_srv w) with w.
  rewrite Hid. cbv iota.
  match goal with
  | |- continues w (exec ?m w) => assert (H : respects continues m); [| apply H]
  end.
  continues_auto.
Qed.

Lemma ProcessMessage_continues env pfrom msg w :
  nSessionID (srv w) ≠ 0 →
  continues w (exec (ProcessMessage env pfrom msg) w).
Proof.
  intros Hid. unfold ProcessMessage.
  destruct (negb (fMasternodeMode env)); [reflexivity |].
  destruct (fLiteMode env); [reflexivity |].
  destruct (negb (IsBlockchainSynced env)); [reflexivity |].
  destruct msg.
  - apply ProcessMessage_DSACCEPT_continues, Hid.
  - assert (H : respects continues (ProcessMessage_DSQUEUE env pfrom dsq));
      [| apply H].
    unfold ProcessMessage_DSQUEUE. continues_auto.
  - assert (H : respects continues (ProcessMessage_DSVIN env pfrom entry));
      [| apply H].
    unfold ProcessMessage_DSVIN. continues_auto.
  - assert (H : respects continues (ProcessMessage_DSSIGNFINALTX env pfrom vecTxIn));
      [| apply H].
    unfold ProcessMessage_DSSIGNFINALTX. continues_auto.
  - reflexivity.
Qed.

Lemma DoMaintenance_continues env : respects continues (DoMaintenance env).
Proof. unfold DoMaintenance. continues_auto. Qed.

Lemma reachable_reset w :
  reachable w → nSessionID (srv w) = 0 →
  nState (srv w) = POOL_STATE_IDLE ∧ vecSessionCollaterals (srv w) = [] ∧
  vecEntries (srv w) = [] ∧ finalMutableTransaction (srv w) = mkTx [] [].
Proof.
  intros H Hid.
  destruct (reachable_session_inv w H) as (_ & _ & H3 & _ & H5 & H6 & _).
  destruct (reachable_pool_inv w H) as [Hle _].
  apply H3 in Hid. split; [exact Hid |].
  pose proof (proj1 H5 Hid) as Hc. split; [exact Hc |].
  split; [| apply H6; congruence].
  rewrite Hc in Hle. destruct (vecEntries (srv w)); [reflexivity | simpl in Hle; lia].
Qed.

(** X16. While a session is running (its id is not 0), no message and no
    tick changes its id or its denomination, removes or reorders a
    collateral, or removes, reorders or alters an entry in anything but
    its signatures: the collaterals and the entries (with their
    outpoints, outputs, collateral and address) of the world before are
    a prefix of those after.  The only alternative is that the step has
    ended the session, and then the server is idle with id 0 and holds no
    collateral, no entry and no final transaction. *)
Theorem session_continues_or_resets env pfrom msg w :
  reachable w →
  nSessionID (srv w) ≠ 0 →
  ((nSessionID (srv (exec (ProcessMessage env pfrom msg) w)) = nSessionID (srv w) ∧
    nSessionDenom (srv (exec (ProcessMessage env pfrom msg) w))
    = nSessionDenom (srv w) ∧
    vecSessionCollaterals (srv w)
      `prefix_of` vecSessionCollaterals (srv (exec (ProcessMessage env pfrom msg) w)) ∧
    map entry_terms (vecEntries (srv w))
      `prefix_of` map entry_terms
                      (vecEntries (srv (exec (ProcessMessage env pfrom msg) w)))) ∨
   (nState (srv (exec (ProcessMessage env pfrom msg) w)) = POOL_STATE_IDLE ∧
    nSessionID (srv (exec (ProcessMessage env pfrom msg) w)) = 0 ∧
    vecSessionCollaterals (srv (exec (ProcessMessage env pfrom msg) w)) = [] ∧
    vecEntries (srv (exec (ProcessMessage env pfrom msg) w)) = [] ∧
    finalMutableTransaction (srv (exec (ProcessMessage env pfrom msg) w))
    = mkTx [] [])) ∧
  ((nSessionID (srv (exec (DoMaintenance env) w)) = nSessionID (srv w) ∧
    nSessionDenom (srv (exec (DoMaintenance env) w)) = nSessionDenom (srv w) ∧
    vecSessionCollaterals (srv w)
      `prefix_of` vecSessionCollaterals (srv (exec (DoMaintenance env) w)) ∧
    map entry_terms (vecEntries (srv w))
      `prefix_of` map entry_terms (vecEntries (srv (exec (DoMaintenance env) w)))) ∨
   (nState (srv (exec (DoMaintenance env) w)) = POOL_STATE_IDLE ∧
    nSessionID (srv (exec (DoMaintenance env) w)) = 0 ∧
    vecSessionCollaterals (srv (exec (DoMaintenance env) w)) = [] ∧
    vecEntries (srv (exec (DoMaintenance env) w)) = [] ∧
    finalMutableTransaction (srv (exec (DoMaintenance env) w)) = mkTx [] [])).
Proof.
  intros Hr Hid. split.
  - destruct (ProcessMessage_continues env pfrom msg w Hid) as [H | [H _]];
      [left; exact H | right].
    assert (Hr' : reachable (exec (ProcessMessage env pfrom msg) w)).
    { eapply reachable_step; [exact Hr | apply step_message]. }
    destruct (reachable_reset _ Hr' H) as (H1 & H2 & H3 & H4).
    repeat split; assumption.
  - destruct (DoMaintenance_continues env w) as [H | [H _]];
      [left; exact H | right].
    assert (Hr' : reachable (exec (DoMaintenance env) w)).
    { eapply reachable_step; [exact Hr | apply step_tick]. }
    destruct (reachable_reset _ Hr' H) as (H1 & H2 & H3 & H4).
    repeat split; assumption.
Qed.

Lemma reachable_world_three_joined : reachable world_three_joined.
Proof. unfold world_three_joined. apply reachable_run, reachable_init_world. Qed.

Lemma session_continues_or_resets_witness :
  ((nSessionID (srv (exec (ProcessMessage env_all_up (peer 4) (dsa_of 4))
                          world_three_joined))
    = nSessionID (srv world_three_joined) ∧
    nSessionDenom (srv (exec (ProcessMessage env_all_up (peer 4) (dsa_of 4))
                             world_three_joined))
    = nSessionDenom (srv world_three_joined) ∧
    vecSessionCollaterals (srv world_three_joined)
      `prefix_of` vecSessionCollaterals
                    (srv (exec (ProcessMessage env_all_up (peer 4) (dsa_of 4))
                               world_three_joined)) ∧
    map entry_terms (vecEntries (srv world_three_joined))
      `prefix_of` map entry_terms
                      (vecEntries
                         (srv (exec (ProcessMessage env_all_up (peer 4) (dsa_of 4))
                                    world_three_joined)))) ∨
   (nState (srv (exec (ProcessMessage env_all_up (peer 4) (dsa_of 4))
                      world_three_joined))
    = POOL_STATE_IDLE ∧
    nSessionID (srv (exec (ProcessMessage env_all_up (peer 4) (dsa_of 4))
                          world_three_joined))
    = 0 ∧
    vecSessionCollaterals (srv (exec (ProcessMessage env_all_up (peer 4) (dsa_of 4))
                                     world_three_joined))
    = [] ∧
    vecEntries (srv (exec (ProcessMessage env_all_up (peer 4) (dsa_of 4))
                          world_three_joined))
    = [] ∧
    finalMutableTransaction
      (srv (exec (ProcessMessage env_all_up (peer 4) (dsa_of 4)) world_three_joined))
    = mkTx [] [])) ∧
  ((nSessionID (srv (exec (DoMaintenance env_all_up) world_three_joined))
    = nSessionID (srv world_three_joined) ∧
    nSessionDenom (srv (exec (DoMaintenance env_all_up) world_three_joined))
    = nSessionDenom (srv world_three_joined) ∧
    vecSessionCollaterals (srv world_three_joined)
      `prefix_of` vecSessionCollaterals
                    (srv (exec (DoMaintenance env_all_up) world_three_joined)) ∧
    map entry_terms (vecEntries (srv world_three_joined))
      `prefix_of` map entry_terms
                      (vecEntries
                         (srv (exec (DoMaintenance env_all_up) world_three_joined)))) ∨
   (nState (srv (exec (DoMaintenance env_all_up) world_three_joined))
    = POOL_STATE_IDLE ∧
    nSessionID (srv (exec (DoMaintenance env_all_up) world_three_joined)) = 0 ∧
    vecSessionCollaterals (srv (exec (DoMaintenance env_all_up) world_three_joined))
    = [] ∧
    vecEntries (srv (exec (DoMaintenance env_all_up) world_three_joined)) = [] ∧
    finalMutableTransaction (srv (exec (DoMaintenance env_all_up) world_three_joined))
    = mkTx [] [])).
Proof.
  apply (session_continues_or_resets env_all_up (peer 4) (dsa_of 4)
           world_three_joined reachable_world_three_joined).
  vm_compute. discriminate.
Defined.

(** ** The tick on a pool that has waited too long *)

Lemma CheckTimeout_run env w :
  fMasternodeMode env = true →
  exec (CheckTimeout env) w
  = if HasTimedOut env (srv w)
    then exec (SetNull env) (exec (ChargeFees env) (exec (CheckQueue env) w))
    else exec (CheckQueue env) w.
Proof.
  intros Hmn. unfold CheckTimeout. rewrite Hmn. simpl.
  rewrite !exec_bind.
  change (eval get_srv (exec (CheckQueue env) w))
    with (srv (exec (CheckQueue env) w)).
  change (exec get_srv (exec (CheckQueue env) w)) with (exec (CheckQueue env) w).
  assert (Hq : HasTimedOut env (srv (exec (CheckQueue env) w))
               = HasTimedOut env (srv w)).
  { unfold CheckQueue. destruct (tryLock_cs_vecqueue env); reflexivity. }
  rewrite Hq. destruct (HasTimedOut env (srv w)); simpl; [| reflexivity].
  rewrite exec_bind. reflexivity.
Qed.

Lemma CheckQueue_srv env w :
  srv (exec (CheckQueue env) w)
  = with_queue (vecPrivateSendQueue (srv (exec (CheckQueue env) w))) (srv w).
Proof.
  unfold CheckQueue. destruct (tryLock_cs_vecqueue env); simpl.
  - reflexivity.
  - rewrite exec_skip, with_queue_same. reflexivity.
Qed.

Lemma DoMaintenance_run env w :
  in_operation env → ShutdownRequested env = false →
  exec (DoMaintenance env) w
  = exec (CheckTimeout env)
      (exec (CheckPool env) (exec (CheckForCompleteQueue env) w)).
Proof.
  intros (H1 & H2 & H3) H4. unfold DoMaintenance. rewrite H1, H2, H3, H4. simpl.
  rewrite !exec_bind. reflexivity.
Qed.

(** X17. The tick on a pool in AcceptingEntries whose last step lies 30
    seconds or more back.  With at least the minimum of entries in, and
    not every participant gone, the session is not reset: the pool check
    runs before the timeout check, goes to Signing with the entries at
    hand and the final transaction sorted from them, and sets the step
    time to the clock, so that the timeout check that follows finds
    nothing stale.  With fewer entries than the minimum (and not as many
    as collaterals) the pool check does nothing and the timeout check
    resets the session. *)
Theorem DoMaintenance_after_queue_timeout env w :
  in_operation env →
  ShutdownRequested env = false →
  nState (srv w) = POOL_STATE_ACCEPTING_ENTRIES →
  PRIVATESEND_QUEUE_TIMEOUT ≤ GetTime env - nTimeLastSuccessfulStep (srv w) →
  (GetMinPoolParticipants env ≤ Z.of_nat (length (vecEntries (srv w))) →
   all_disconnected env (vecEntries (srv w)) = false →
   nState (srv (exec (DoMaintenance env) w)) = POOL_STATE_SIGNING ∧
   nTimeLastSuccessfulStep (srv (exec (DoMaintenance env) w)) = GetTime env ∧
   nSessionID (srv (exec (DoMaintenance env) w)) = nSessionID (srv w) ∧
   vecSessionCollaterals (srv (exec (DoMaintenance env) w))
   = vecSessionCollaterals (srv w) ∧
   vecEntries (srv (exec (DoMaintenance env) w)) = vecEntries (srv w) ∧
   finalMutableTransaction (srv (exec (DoMaintenance env) w))
   = mkTx (std_sort CompareInputBIP69 (entries_inputs (vecEntries (srv w))))
          (std_sort CompareOutputBIP69 (entries_outputs (vecEntries (srv w))))) ∧
  (Z.of_nat (length (vecEntries (srv w))) < GetMinPoolParticipants env →
   length (vecEntries (srv w)) ≠ length (vecSessionCollaterals (srv w)) →
   srv (exec (DoMaintenance env) w) = null_server (GetTime env)).
Proof.
  intros Hop Hsd Hst Hto.
  pose proof Hop as (Hmn & _ & _).
  rewrite (DoMaintenance_run env w Hop Hsd).
  assert (Hcq : exec (CheckForCompleteQueue env) w = w).
  { unfold CheckForCompleteQueue. rewrite Hmn. unfold_m. rewrite Hst. reflexivity. }
  rewrite Hcq.
  assert (Hout : HasTimedOut env (srv w) = true).
  { rewrite HasTimedOut_spec by (assumption || congruence).
    rewrite Hst. simpl. apply Z.leb_le, Hto. }
  split.
  - intros Hmin Hconn.
    assert (Hpool : srv (exec (CheckPool env) w)
                    = with_state POOL_STATE_SIGNING (GetTime env)
                        (with_final
                           (mkTx (std_sort CompareInputBIP69
                                    (entries_inputs (vecEntries (srv w))))
                                 (std_sort CompareOutputBIP69
                                    (entries_outputs (vecEntries (srv w)))))
                           (srv w))).
    { unfold CheckPool. rewrite Hmn. simpl. rewrite exec_bind.
      change (eval get_srv w) with (srv w). change (exec get_srv w) with w.
      rewrite Hst, Hout. simpl.
      assert (Hge : (Z.of_nat (length (vecEntries (srv w)))
                     >=? GetMinPoolParticipants env) = true).
      { rewrite Z.geb_leb. apply Z.leb_le, Hmin. }
      rewrite Hge.
      pose proof (CreateFinalTransaction_srv env w) as E1.
      pose proof (CreateFinalTransaction_srv env (exec (ChargeFees env) w)) as E2.
      cbv zeta in E1, E2. rewrite (ChargeFees_same_srv env w) in E2.
      rewrite Hconn, Hmn, andb_false_r in E1, E2.
      destruct (bool_decide _); simpl; [exact E1 |].
      rewrite exec_bind. exact E2. }
    rewrite (CheckTimeout_run env _ Hmn).
    assert (Hfresh : HasTimedOut env (srv (exec (CheckPool env) w)) = false).
    { rewrite Hpool. unfold HasTimedOut. rewrite Hmn. simpl.
      rewrite Z.sub_diag. reflexivity. }
    rewrite Hfresh, CheckQueue_srv, Hpool. simpl.
    repeat split; reflexivity.
  - intros Hmin Hne.
    assert (Hpool : exec (CheckPool env) w = w).
    { unfold CheckPool. rewrite Hmn. unfold_m. rewrite Hst. simpl.
      rewrite (bool_decide_eq_false_2 _ Hne). simpl.
      assert (Hlt : (Z.of_nat (length (vecEntries (srv w)))
                     >=? GetMinPoolParticipants env) = false).
      { rewrite Z.geb_leb. apply Z.leb_gt, Hmin. }
      rewrite Hlt, andb_false_r. reflexivity. }
    rewrite Hpool, (CheckTimeout_run env _ Hmn), Hout. apply SetNull_srv.
Qed.

Lemma in_operation_env_later now rnd : in_operation (env_later now rnd).
Proof. split; [reflexivity | split; reflexivity]. Qed.

Lemma DoMaintenance_after_queue_timeout_witness :
  (nState (srv (exec (DoMaintenance (env_later 1061 (λ _, 0))) world_three_of_four))
   = POOL_STATE_SIGNING ∧
   nTimeLastSuccessfulStep
     (srv (exec (DoMaintenance (env_later 1061 (λ _, 0))) world_three_of_four))
   = GetTime (env_later 1061 (λ _, 0)) ∧
   nSessionID (srv (exec (DoMaintenance (env_later 1061 (λ _, 0)))
                         world_three_of_four))
   = nSessionID (srv world_three_of_four) ∧
   vecSessionCollaterals
     (srv (exec (DoMaintenance (env_later 1061 (λ _, 0))) world_three_of_four))
   = vecSessionCollaterals (srv world_three_of_four) ∧
   vecEntries (srv (exec (DoMaintenance (env_later 1061 (λ _, 0)))
                         world_three_of_four))
   = vecEntries (srv world_three_of_four) ∧
   finalMutableTransaction
     (srv (exec (DoMaintenance (env_later 1061 (λ _, 0))) world_three_of_four))
   = mkTx (std_sort CompareInputBIP69
             (entries_inputs (vecEntries (srv world_three_of_four))))
          (std_sort CompareOutputBIP69
             (entries_outputs (vecEntries (srv world_three_of_four))))) ∧
  srv (exec (DoMaintenance (env_later 1061 (λ _, 0))) world_accepting_one)
  = null_server (GetTime (env_later 1061 (λ _, 0))).
Proof.
  destruct (DoMaintenance_after_queue_timeout (env_later 1061 (λ _, 0))
              world_three_of_four (in_operation_env_later _ _)) as [H1 _].
  { reflexivity. }
  { vm_compute. reflexivity. }
  { vm_compute. discriminate. }
  destruct (DoMaintenance_after_queue_timeout (env_later 1061 (λ _, 0))
              world_accepting_one (in_operation_env_later _ _)) as [_ H2].
  { reflexivity. }
  { vm_compute. reflexivity. }
  { vm_compute. discriminate. }
  split.
  - apply H1; [vm_compute; discriminate | vm_compute; reflexivity].
  - apply H2; [vm_compute; reflexivity | vm_compute; lia].
Defined.

(** ** Signatures that come in one message *)

Lemma AddScriptSig_signed_count env txin w :
  eval (AddScriptSig env txin) w = true →
  signed_count (vecEntries (srv (exec (AddScriptSig env txin) w)))
  = S (signed_count (vecEntries (srv w))).
Proof.
  unfold eval, exec. rewrite AddScriptSig_run. cbv zeta.
  destruct (existsb _ _); [discriminate |].
  destruct (negb _); [discriminate |].
  destruct (sign_first_entry txin (vecEntries (srv w))) as [es|] eqn:E;
    [| discriminate].
  intros _. simpl. apply (sign_first_entry_signed txin _ _ E).
Qed.

Lemma DSSIGNFINALTX_loop_accepted env l w :
  sigs_accepted env l w = true →
  exec (DSSIGNFINALTX_loop env l) w = exec (CheckPool env) (after_sigs env l w) ∧
  signed_count (vecEntries (srv (after_sigs env l w)))
  = (signed_count (vecEntries (srv w)) + length l)%nat.
Proof.
  revert w. induction l as [|txin l IH]; intros w; simpl.
  - intros _. split; [reflexivity | lia].
  - intros H. apply andb_true_iff in H as [H1 H2].
    rewrite exec_bind, H1. destruct (IH _ H2) as [E1 E2].
    split; [exact E1 |].
    rewrite E2, (AddScriptSig_signed_count env txin w H1). lia.
Qed.

Lemma DSSIGNFINALTX_loop_refused env l1 txin l2 w :
  sigs_accepted env l1 w = true →
  eval (AddScriptSig env txin) (after_sigs env l1 w) = false →
  exec (DSSIGNFINALTX_loop env (l1 ++ txin :: l2)) w
  = exec (RelayStatus env STATUS_REJECTED MSG_NOERR)
         (exec (AddScriptSig env txin) (after_sigs env l1 w)).
Proof.
  revert w. induction l1 as [|t l1 IH]; intros w; simpl.
  - intros _ H. rewrite exec_bind, H. reflexivity.
  - intros H Hf. apply andb_true_iff in H as [H1 H2].
    rewrite exec_bind, H1. apply IH; assumption.
Qed.

(** X18. The signatures of one DSSIGNFINALTX message are applied in
    order, and nothing is taken back.  When all are accepted, the pool
    check runs on the session with every one of them marked.  When one
    is refused, the handler stops there and relays a rejection: the
    signatures before it stay in the entries (the count of signed inputs
    has grown by their number), and those after it are not looked at. *)
Theorem DSSIGNFINALTX_applies_in_order env pfrom l1 w :
  in_operation env →
  MIN_PRIVATESEND_PEER_PROTO_VERSION ≤ nVersion pfrom →
  sigs_accepted env l1 w = true →
  exec (ProcessMessage env pfrom (DSSIGNFINALTX l1)) w
  = exec (CheckPool env) (after_sigs env l1 w) ∧
  signed_count (vecEntries (srv (after_sigs env l1 w)))
  = (signed_count (vecEntries (srv w)) + length l1)%nat ∧
  (∀ txin l2,
     eval (AddScriptSig env txin) (after_sigs env l1 w) = false →
     exec (ProcessMessage env pfrom (DSSIGNFINALTX (l1 ++ txin :: l2))) w
     = exec (RelayStatus env STATUS_REJECTED MSG_NOERR)
            (exec (AddScriptSig env txin) (after_sigs env l1 w))).
Proof.
  intros Hop Hv Hacc.
  assert (Ho : obsolete pfrom = false) by (apply Z.ltb_ge, Hv).
  destruct (DSSIGNFINALTX_loop_accepted env l1 w Hacc) as [E1 E2].
  split; [| split].
  - rewrite (in_operation_run env pfrom _ Hop).
    unfold ProcessMessage_DSSIGNFINALTX. rewrite Ho. exact E1.
  - exact E2.
  - intros txin l2 Hf. rewrite (in_operation_run env pfrom _ Hop).
    unfold ProcessMessage_DSSIGNFINALTX. rewrite Ho.
    apply DSSIGNFINALTX_loop_refused; assumption.
Qed.

Lemma DSSIGNFINALTX_applies_in_order_witness :
  exec (ProcessMessage (env_later 1032 (λ _, 0)) (peer 1)
          (DSSIGNFINALTX [signed 2 0 [71; 1]; signed 1 5 [71; 2]])) world_signing
  = exec (CheckPool (env_later 1032 (λ _, 0)))
         (after_sigs (env_later 1032 (λ _, 0))
                     [signed 2 0 [71; 1]; signed 1 5 [71; 2]] world_signing) ∧
  signed_count
    (vecEntries (srv (after_sigs (env_later 1032 (λ _, 0))
                                 [signed 2 0 [71; 1]; signed 1 5 [71; 2]]
                                 world_signing)))
  = Nat.add (signed_count (vecEntries (srv world_signing)))
            (length [signed 2 0 [71; 1]; signed 1 5 [71; 2]]) ∧
  (∀ txin l2,
     eval (AddScriptSig (env_later 1032 (λ _, 0)) txin)
          (after_sigs (env_later 1032 (λ _, 0))
                      [signed 2 0 [71; 1]; signed 1 5 [71; 2]] world_signing)
     = false →
     exec (ProcessMessage (env_later 1032 (λ _, 0)) (peer 1)
             (DSSIGNFINALTX ([signed 2 0 [71; 1]; signed 1 5 [71; 2]]
                             ++ txin :: l2))) world_signing
     = exec (RelayStatus (env_later 1032 (λ _, 0)) STATUS_REJECTED MSG_NOERR)
            (exec (AddScriptSig (env_later 1032 (λ _, 0)) txin)
                  (after_sigs (env_later 1032 (λ _, 0))
                              [signed 2 0 [71; 1]; signed 1 5 [71; 2]]
                              world_signing))).
Proof.
  apply (DSSIGNFINALTX_applies_in_order (env_later 1032 (λ _, 0)) (peer 1)
           [signed 2 0 [71; 1]; signed 1 5 [71; 2]] world_signing
           (in_operation_env_later _ _)).
  - vm_compute. discriminate.
  - vm_compute. reflexivity.
Defined.
